(** * Host-side controller of the fail-operational NoC demonstrator

    A shallow embedding of the Python package [demonstratorlib]:
    - [path_util.py]: the two routing functions and the path check;
    - [tdm_util.py]: [TDMPath], [TDMChannel] and the slot-table mirror
      [TDMinfo];
    - [ctrl_mod_cl.py]: the channel and path operations of [CtrlModClient];
    - [noc_bridge_cl.py]: [_packetize];
    - [noc_gateway.py]: [_unpack_payload] and the dispatch of
      [receive_event].

    Python integers are unbounded and are modelled by [Z]; [%] and [//] are
    the floored operations, as [Z.modulo] and [Z.div]. *)

From Equations Require Import Equations.
From stdpp Require Import base option list gmap sorting.
From Stdlib Require Import ZArith Lia.

Local Open Scope Z_scope.

(** ** path_util.py *)

Section PathUtil.

(** The test of one hop in [check_valid_path]. *)
Definition valid_hop (x_dim hop nhop : Z) : bool :=
  bool_decide (nhop = hop + x_dim) || bool_decide (nhop = hop - x_dim)
  || bool_decide (nhop = hop + 1) || bool_decide (nhop = hop - 1).

(** [check_valid_path]: the loop runs over the consecutive pairs and stops
    at the first invalid one. *)
Fixpoint check_valid_path (x_dim : Z) (path : list Z) : bool :=
  match path with
  | hop :: (nhop :: _) as rest =>
      if valid_hop x_dim hop nhop then check_valid_path x_dim rest else false
  | _ => true
  end.

(** [find_path_x_y]: the recursion appends the current node and steps first
    in x, then in y.  It terminates because every call moves one step closer
    to the destination. *)
Equations? find_path_x_y (x_dim curr_x curr_y dest_x dest_y : Z)
    (path : list Z) : list Z
  by wf (Z.to_nat (Z.abs (dest_x - curr_x) + Z.abs (dest_y - curr_y))) lt :=
find_path_x_y x_dim curr_x curr_y dest_x dest_y path
  with decide (curr_x = dest_x) => {
  | left _ with decide (curr_y = dest_y) => {
    | left _ => path ++ [x_dim * curr_y + curr_x];
    | right _ with decide (curr_y < dest_y) => {
      | left _ =>
          find_path_x_y x_dim curr_x (curr_y + 1) dest_x dest_y
            (path ++ [x_dim * curr_y + curr_x]);
      | right _ =>
          find_path_x_y x_dim curr_x (curr_y - 1) dest_x dest_y
            (path ++ [x_dim * curr_y + curr_x]) } };
  | right _ with decide (curr_x < dest_x) => {
    | left _ =>
        find_path_x_y x_dim (curr_x + 1) curr_y dest_x dest_y
          (path ++ [x_dim * curr_y + curr_x]);
    | right _ =>
        find_path_x_y x_dim (curr_x - 1) curr_y dest_x dest_y
          (path ++ [x_dim * curr_y + curr_x]) } }.
Proof. all: lia. Qed.

(** [find_path_y_x]: the same with the two axes exchanged. *)
Equations? find_path_y_x (x_dim curr_x curr_y dest_x dest_y : Z)
    (path : list Z) : list Z
  by wf (Z.to_nat (Z.abs (dest_x - curr_x) + Z.abs (dest_y - curr_y))) lt :=
find_path_y_x x_dim curr_x curr_y dest_x dest_y path
  with decide (curr_y = dest_y) => {
  | left _ with decide (curr_x = dest_x) => {
    | left _ => path ++ [x_dim * curr_y + curr_x];
    | right _ with decide (curr_x < dest_x) => {
      | left _ =>
          find_path_y_x x_dim (curr_x + 1) curr_y dest_x dest_y
            (path ++ [x_dim * curr_y + curr_x]);
      | right _ =>
          find_path_y_x x_dim (curr_x - 1) curr_y dest_x dest_y
            (path ++ [x_dim * curr_y + curr_x]) } };
  | right _ with decide (curr_y < dest_y) => {
    | left _ =>
        find_path_y_x x_dim curr_x (curr_y + 1) dest_x dest_y
          (path ++ [x_dim * curr_y + curr_x]);
    | right _ =>
        find_path_y_x x_dim curr_x (curr_y - 1) dest_x dest_y
          (path ++ [x_dim * curr_y + curr_x]) } }.
Proof. all: lia. Qed.

Definition find_path_A (x_dim source dest : Z) : list Z :=
  let curr_x := source mod x_dim in
  let curr_y := source / x_dim in
  let dest_x := dest mod x_dim in
  let dest_y := dest / x_dim in
  find_path_x_y x_dim curr_x curr_y dest_x dest_y [].

(** The side of the detour in [find_path_B]: [true] when the coordinate is
    decremented.  Python reads [a and b or c] as [(a and b) or c]. *)
Definition detour_down (dim curr : Z) : bool :=
  bool_decide (curr <= dim / 2) && bool_decide (curr > 0)
  || bool_decide (curr = dim - 1).

Definition find_path_B (x_dim y_dim source dest : Z) : list Z :=
  let curr_x := source mod x_dim in
  let curr_y := source / x_dim in
  let dest_x := dest mod x_dim in
  let dest_y := dest / x_dim in
  let path := [] in
  if bool_decide (curr_x ≠ dest_x) && bool_decide (curr_y ≠ dest_y) then
    find_path_y_x x_dim curr_x curr_y dest_x dest_y path
  else
    let path := path ++ [x_dim * curr_y + curr_x] in
    if bool_decide (curr_x = dest_x) && bool_decide (curr_y = dest_y) then
      path
    else if bool_decide (curr_x = dest_x) then
      let curr_x := if detour_down x_dim curr_x then curr_x - 1 else curr_x + 1 in
      find_path_y_x x_dim curr_x curr_y dest_x dest_y path
    else
      let curr_y := if detour_down y_dim curr_y then curr_y - 1 else curr_y + 1 in
      find_path_x_y x_dim curr_x curr_y dest_x dest_y path.

End PathUtil.

(** ** Python run-time behaviour shared by the classes *)

(** A method is a function of the state of its object that either raises
    (an uncaught [IndexError], [KeyError] or [TypeError]: [None]) or returns
    a value and the state it leaves. *)
Definition M (S A : Type) : Type := S → option (A * S).

Global Instance M_ret {S} : MRet (M S) := λ A x s, Some (x, s).
Global Instance M_bind {S} : MBind (M S) := λ A B f m s,
  match m s with
  | Some (x, s') => f x s'
  | None => None
  end.

Definition raise {S A} : M S A := λ _, None.
(** Reading an attribute; [reads] is a read that can raise. *)
Definition gets {S A} (f : S → A) : M S A := λ s, Some (f s, s).
Definition reads {S A} (f : S → option A) : M S A :=
  λ s, match f s with Some x => Some (x, s) | None => None end.
Definition modify {S} (f : S → S) : M S unit := λ s, Some (tt, f s).

(** [for x in l: body x]. *)
Fixpoint for_each {S A} (l : list A) (body : A → M S unit) : M S unit :=
  match l with
  | [] => mret tt
  | x :: rest => _ ← body x; for_each rest body
  end.

(** Subscripting a list of length [len] with [i]: negative subscripts count
    from the end, anything else out of range raises [IndexError]. *)
Definition py_index (len i : Z) : option Z :=
  if bool_decide (0 ≤ i < len) then Some i
  else if bool_decide (- len ≤ i < 0) then Some (len + i)
  else None.

Definition py_get {A} (l : list A) (i : Z) : option A :=
  n ← py_index (Z.of_nat (length l)) i; l !! Z.to_nat n.

Definition py_set {A} (l : list A) (i : Z) (x : A) : option (list A) :=
  n ← py_index (Z.of_nat (length l)) i; Some (<[Z.to_nat n := x]> l).

(** ** constants.py *)

Definition EMPTY : Z := 15.

(** ** tdm_util.py: TDMPath *)

Record TDMPath := mkTDMPath {
  p_path : list Z;
  p_slots : list Z;
  p_link : Z;
  p_ep_src : Z;
  p_ep_dest : Z;
  p_channel : option Z;
  p_path_idx : option Z }.

(** [TDMPath.__init__]. *)
Definition TDMPath_new (path slots : list Z) (link ep_src ep_dest : Z) : TDMPath :=
  mkTDMPath path slots link ep_src ep_dest None None.

Definition assign_channel (self : TDMPath) (chid path_idx : Z) : TDMPath :=
  mkTDMPath (p_path self) (p_slots self) (p_link self) (p_ep_src self)
    (p_ep_dest self) (Some chid) (Some path_idx).

(** The two nested [for] loops of [valid_alternative_path]: some directed
    hop of [p] is a directed hop of [q]. *)
Definition shares_hop (p q : list Z) : bool :=
  existsb (λ hop_self,
    existsb (λ hop_other,
      bool_decide (p !! hop_self = q !! hop_other)
      && bool_decide (p !! S hop_self = q !! S hop_other))
      (seq 0 (length q - 1)))
    (seq 0 (length p - 1)).

(** [valid_alternative_path]; [or] evaluates from the left and stops at the
    first true operand, so the paths are subscripted only when the four
    comparisons before them are false. *)
Definition valid_alternative_path (self tdm_path : TDMPath) : option bool :=
  if bool_decide (length (p_slots self) ≠ length (p_slots tdm_path))
     || bool_decide (p_link self = p_link tdm_path)
     || bool_decide (p_ep_src self ≠ p_ep_src tdm_path)
     || bool_decide (p_ep_dest self ≠ p_ep_dest tdm_path)
  then Some false
  else
    a0 ← py_get (p_path self) 0;
    b0 ← py_get (p_path tdm_path) 0;
    if bool_decide (a0 ≠ b0) then Some false
    else
      a1 ← py_get (p_path self) (-1);
      b1 ← py_get (p_path tdm_path) (-1);
      if bool_decide (a1 ≠ b1) then Some false
      else Some (negb (shares_hop (p_path self) (p_path tdm_path))).

(** ** tdm_util.py: TDMChannel *)

(** [paths] holds references to [TDMPath] objects.  The object is the one
    stored in [tdm_paths] under its pid, and the code only ever compares the
    reference with [None], so the reference is modelled by that pid. *)
Record TDMChannel := mkTDMChannel {
  ch_paths : list (option Z);
  ch_pids : list (option Z);
  ch_errors : list (option bool);
  ch_src : Z;
  ch_dest : Z;
  ch_ep_src : Z;
  ch_ep_dest : Z;
  ch_numslots : Z }.

(** [TDMChannel.__init__]. *)
Definition TDMChannel_new (src dest ep_src ep_dest numslots : Z) : TDMChannel :=
  mkTDMChannel [None; None] [None; None] [Some false; Some false]
    src dest ep_src ep_dest numslots.

Definition _check_valid_path_parameters (self : TDMChannel) (path : TDMPath)
    : option bool :=
  a0 ← py_get (p_path path) 0;
  if bool_decide (a0 ≠ ch_src self) then Some false
  else
    a1 ← py_get (p_path path) (-1);
    Some (negb (bool_decide (a1 ≠ ch_dest self)
                || bool_decide (p_ep_src path ≠ ch_ep_src self)
                || bool_decide (p_ep_dest path ≠ ch_ep_dest self)
                || bool_decide (Z.of_nat (length (p_slots path)) ≠ ch_numslots self))).

(** [add_path] returns the index and the channel it leaves. *)
Definition add_path (self : TDMChannel) (path : TDMPath) (pid : Z)
    : option (Z * TDMChannel) :=
  ok ← _check_valid_path_parameters self path;
  if ok : bool then
    p0 ← py_get (ch_paths self) 0;
    path_idx ←
      (if bool_decide (p0 = None) then Some 0
       else p1 ← py_get (ch_paths self) 1;
            Some (if bool_decide (p1 = None) then 1 else -1));
    if bool_decide (path_idx >= 0) then
      paths ← py_set (ch_paths self) path_idx (Some pid);
      pids ← py_set (ch_pids self) path_idx (Some pid);
      errors ← py_set (ch_errors self) path_idx None;
      Some (path_idx,
            mkTDMChannel paths pids errors (ch_src self) (ch_dest self)
              (ch_ep_src self) (ch_ep_dest self) (ch_numslots self))
    else Some (path_idx, self)
  else Some (-1, self).

(** [clear_path] returns the pid that was stored. *)
Definition clear_path (self : TDMChannel) (path_idx : Z)
    : option (option Z * TDMChannel) :=
  pid ← py_get (ch_pids self) path_idx;
  paths ← py_set (ch_paths self) path_idx None;
  pids ← py_set (ch_pids self) path_idx None;
  errors ← py_set (ch_errors self) path_idx None;
  Some (pid,
        mkTDMChannel paths pids errors (ch_src self) (ch_dest self)
          (ch_ep_src self) (ch_ep_dest self) (ch_numslots self)).

(** ** tdm_util.py: TDMinfo *)

(** One slot of a slot table: the configured value and the path id. *)
Abbreviation slot_entry := (Z * option Z)%type.

(** [table_config[node][1 if ni else 0][port][slot]] is kept as a finite map
    from the four subscripts to the entry.  The nested lists have fixed
    lengths ([x_dim * y_dim] nodes, 6 router and 4 NI tables,
    [slot_table_size] slots); [table_index] applies Python's subscript rule
    for these lengths, and a subscript with no entry raises. *)
Abbreviation table_key := (Z * bool * Z * Z)%type.

Record TDMinfo := mkTDMinfo {
  ti_x_dim : Z;
  ti_y_dim : Z;
  ti_num_ep : list Z;
  ti_slot_table_size : Z;
  ti_nodes : list (list (option Z * option Z));
  ti_table_config : gmap table_key slot_entry }.

Definition ti_set_nodes (nodes : list (list (option Z * option Z)))
    (ti : TDMinfo) : TDMinfo :=
  mkTDMinfo (ti_x_dim ti) (ti_y_dim ti) (ti_num_ep ti) (ti_slot_table_size ti)
    nodes (ti_table_config ti).

Definition ti_set_table (t : gmap table_key slot_entry) (ti : TDMinfo) : TDMinfo :=
  mkTDMinfo (ti_x_dim ti) (ti_y_dim ti) (ti_num_ep ti) (ti_slot_table_size ti)
    (ti_nodes ti) t.

Definition table_index (ti : TDMinfo) (node : Z) (ni : bool) (port slot : Z)
    : option table_key :=
  n ← py_index (ti_x_dim ti * ti_y_dim ti) node;
  p ← py_index (if ni then 4 else 6) port;
  s ← py_index (ti_slot_table_size ti) slot;
  Some (n, ni, p, s).

(** Reading [table_config[node][..][port][slot]]. *)
Definition table_entry (node : Z) (ni : bool) (port slot : Z)
    : M TDMinfo slot_entry :=
  reads (λ ti, k ← table_index ti node ni port slot; ti_table_config ti !! k).

(** The subscripts of all entries, in the order of the loops of
    [_initialize_variables] and [reset]. *)
Definition all_table_keys (x_dim y_dim slot_table_size : Z) : list table_key :=
  n ← seqZ 0 (x_dim * y_dim);
  i ← seqZ 0 6;
  ((λ s, (n, false, i, s)) <$> seqZ 0 slot_table_size)
  ++ (if bool_decide (i < 4)
      then (λ s, (n, true, i, s)) <$> seqZ 0 slot_table_size
      else []).

(** [TDMinfo.__init__] with [_initialize_variables]; [num_ep[n]] raises when
    the list is too short. *)
Definition TDMinfo_new (x_dim y_dim : Z) (num_ep : list Z) (slot_table_size : Z)
    : option TDMinfo :=
  nodes ← mapM (λ n, e ← num_ep !! Z.to_nat n;
                     Some (replicate (Z.to_nat e) (None, None)))
               (seqZ 0 (x_dim * y_dim));
  Some (mkTDMinfo x_dim y_dim num_ep slot_table_size nodes
          (list_to_map ((λ k, (k, (EMPTY, None)))
                        <$> all_table_keys x_dim y_dim slot_table_size))).

Definition set_table_entry (node : Z) (ni : bool) (port slot config : Z)
    (pid : option Z) : M TDMinfo unit :=
  λ ti,
    k ← table_index ti node ni port slot;
    _ ← ti_table_config ti !! k;
    Some (tt, ti_set_table (<[k := (config, pid)]> (ti_table_config ti)) ti).

(** Reading [nodes[node][ep]], and replacing it by [f] of itself. *)
Definition node_ep (node ep : Z) : M TDMinfo (option Z * option Z) :=
  reads (λ ti, eps ← py_get (ti_nodes ti) node; py_get eps ep).

Definition set_node_ep (node ep : Z)
    (f : option Z * option Z → option Z * option Z) : M TDMinfo unit :=
  λ ti,
    eps ← py_get (ti_nodes ti) node;
    e ← py_get eps ep;
    eps' ← py_set eps ep (f e);
    nodes' ← py_set (ti_nodes ti) node eps';
    Some (tt, ti_set_nodes nodes' ti).

(** [reset]: every existing entry is overwritten in place. *)
Definition TDMinfo_reset : M TDMinfo unit :=
  x_dim ← gets ti_x_dim;
  y_dim ← gets ti_y_dim;
  size ← gets ti_slot_table_size;
  _ ← for_each (seqZ 0 (x_dim * y_dim)) (λ n,
        num ← reads (λ ti, ti_num_ep ti !! Z.to_nat n);
        for_each (seqZ 0 num) (λ ep,
          set_node_ep n ep (λ _, (None, None))));
  for_each (all_table_keys x_dim y_dim size) (λ k,
    match k with
    | (n, ni, i, s) => set_table_entry n ni i s EMPTY None
    end).

(** The loop of [get_free_ep] over [nodes[node]], from endpoint [ep] on. *)
Fixpoint first_free_ep (out : bool) (eps : list (option Z * option Z)) (ep : Z)
    : Z :=
  match eps with
  | [] => -1
  | e :: rest =>
      if bool_decide ((if out then e.1 else e.2) = None) then ep
      else first_free_ep out rest (ep + 1)
  end.

Definition get_free_ep (node : Z) (out : bool) : M TDMinfo Z :=
  eps ← reads (λ ti, py_get (ti_nodes ti) node);
  mret (first_free_ep out eps 0).

Definition assign_ep (src dest ep_src ep_dest chid : Z) : M TDMinfo bool :=
  a ← node_ep src ep_src;
  if bool_decide (a.1 = None) then
    b ← node_ep dest ep_dest;
    if bool_decide (b.2 = None) then
      _ ← set_node_ep src ep_src (λ e, (Some chid, e.2));
      _ ← set_node_ep dest ep_dest (λ e, (e.1, Some chid));
      mret true
    else mret false
  else mret false.

(** The router output port towards the next node. *)
Definition out_port_to (x_dim c_node n_node : Z) : Z :=
  if bool_decide (c_node - x_dim = n_node) then 0
  else if bool_decide (c_node + 1 = n_node) then 1
  else if bool_decide (c_node + x_dim = n_node) then 2
  else 3.

(** The [while] loop of [check_path] when entered with [free] true: [rest]
    is [path[hop:]].  It returns [free] and [slot] as the loop leaves them.
    The division by [slot_table_size] follows a successful read of a slot,
    so the size is positive there. *)
Fixpoint check_path_hops (link : Z) (rest : list Z) (slot : Z)
    : M TDMinfo (bool * Z) :=
  match rest with
  | [] => mret (true, slot)
  | c_node :: rest' =>
      x_dim ← gets ti_x_dim;
      size ← gets ti_slot_table_size;
      let out_port :=
        match rest' with
        | n_node :: _ => out_port_to x_dim c_node n_node
        | [] => link + 4
        end in
      e ← table_entry c_node false out_port slot;
      if bool_decide (e.1 ≠ EMPTY) then mret (false, (slot + 1) mod size)
      else check_path_hops link rest' ((slot + 1) mod size)
  end.

(** The sanity checks of [check_path]; [true] when one of them fails. *)
Definition check_path_insane (path : list Z) (start_slot link ep_src ep_dest : Z)
    : M TDMinfo bool :=
  x_dim ← gets ti_x_dim;
  if negb (check_valid_path x_dim path) then mret true
  else
    n0 ← reads (λ ti, p0 ← py_get path 0; py_get (ti_num_ep ti) p0);
    if bool_decide (ep_src >= n0) then mret true
    else
      n1 ← reads (λ ti, p1 ← py_get path (-1); py_get (ti_num_ep ti) p1);
      if bool_decide (ep_dest >= n1) then mret true
      else
        size ← gets ti_slot_table_size;
        mret (bool_decide (link > 1) || bool_decide (start_slot >= size)).

Definition check_path (path : list Z) (start_slot link ep_src ep_dest : Z)
    : M TDMinfo bool :=
  p0 ← reads (λ _, py_get path 0);
  e0 ← table_entry p0 true link start_slot;
  let free := bool_decide (e0.1 = EMPTY) in
  insane ← check_path_insane path start_slot link ep_src ep_dest;
  let free := if insane : bool then false else free in
  '(free, slot) ← (if free : bool then check_path_hops link path start_slot
                   else mret (false, start_slot));
  p1 ← reads (λ _, py_get path (-1));
  e1 ← table_entry p1 true (link + 2) slot;
  mret (if bool_decide (e1.1 ≠ EMPTY) then false else free).

(** The [for] loop of [get_free_slots] over the remaining slots. *)
Fixpoint get_free_slots_from (path : list Z) (ep_src ep_dest link numslots : Z)
    (slots : list Z) (start_slots : list Z) : M TDMinfo (list Z) :=
  match slots with
  | [] => mret []
  | slot :: rest =>
      slot_available ← check_path path slot link ep_src ep_dest;
      let start_slots :=
        if slot_available : bool then start_slots ++ [slot] else start_slots in
      if bool_decide (Z.of_nat (length start_slots) = numslots)
      then mret start_slots
      else get_free_slots_from path ep_src ep_dest link numslots rest start_slots
  end.

Definition get_free_slots (path : list Z) (ep_src ep_dest link numslots : Z)
    : M TDMinfo (list Z) :=
  size ← gets ti_slot_table_size;
  get_free_slots_from path ep_src ep_dest link numslots (seqZ 0 size) [].

(** ** ctrl_mod_cl.py: CtrlModClient *)

Definition FAULT_CONFIG : Z := 0.
Definition TDM_CONFIG : Z := 1.
Definition CLK_CONFIG : Z := 2.

(** The state of a client after [set_num_tdm_ep], which creates [tdm_info].
    [cm_sent] is the list of the payloads of the event packets handed to
    [hm.event_send], oldest first; the headers are the same for all. *)
Record CtrlModClient := mkCtrlModClient {
  cm_slot_table_size : Z;
  cm_x_dim : Z;
  cm_y_dim : Z;
  cm_nxt_pid : Z;
  cm_tdm_channels : gmap Z TDMChannel;
  cm_nxt_chid : Z;
  cm_tdm_paths : gmap Z TDMPath;
  cm_tdm_info : TDMinfo;
  cm_sent : list (list Z) }.

Definition cm_set_tdm_info (ti : TDMinfo) (c : CtrlModClient) : CtrlModClient :=
  mkCtrlModClient (cm_slot_table_size c) (cm_x_dim c) (cm_y_dim c) (cm_nxt_pid c)
    (cm_tdm_channels c) (cm_nxt_chid c) (cm_tdm_paths c) ti (cm_sent c).

Definition cm_set_tdm_paths (ps : gmap Z TDMPath) (c : CtrlModClient)
    : CtrlModClient :=
  mkCtrlModClient (cm_slot_table_size c) (cm_x_dim c) (cm_y_dim c) (cm_nxt_pid c)
    (cm_tdm_channels c) (cm_nxt_chid c) ps (cm_tdm_info c) (cm_sent c).

Definition cm_set_tdm_channels (cs : gmap Z TDMChannel) (c : CtrlModClient)
    : CtrlModClient :=
  mkCtrlModClient (cm_slot_table_size c) (cm_x_dim c) (cm_y_dim c) (cm_nxt_pid c)
    cs (cm_nxt_chid c) (cm_tdm_paths c) (cm_tdm_info c) (cm_sent c).

Definition cm_set_nxt_pid (n : Z) (c : CtrlModClient) : CtrlModClient :=
  mkCtrlModClient (cm_slot_table_size c) (cm_x_dim c) (cm_y_dim c) n
    (cm_tdm_channels c) (cm_nxt_chid c) (cm_tdm_paths c) (cm_tdm_info c)
    (cm_sent c).

Definition cm_set_nxt_chid (n : Z) (c : CtrlModClient) : CtrlModClient :=
  mkCtrlModClient (cm_slot_table_size c) (cm_x_dim c) (cm_y_dim c) (cm_nxt_pid c)
    (cm_tdm_channels c) n (cm_tdm_paths c) (cm_tdm_info c) (cm_sent c).

Definition cm_set_sent (l : list (list Z)) (c : CtrlModClient) : CtrlModClient :=
  mkCtrlModClient (cm_slot_table_size c) (cm_x_dim c) (cm_y_dim c) (cm_nxt_pid c)
    (cm_tdm_channels c) (cm_nxt_chid c) (cm_tdm_paths c) (cm_tdm_info c) l.

(** A call [self.tdm_info.method(...)]. *)
Definition on_tdm_info {A} (m : M TDMinfo A) : M CtrlModClient A :=
  λ c, match m (cm_tdm_info c) with
       | Some (x, ti) => Some (x, cm_set_tdm_info ti c)
       | None => None
       end.

(** [set_num_tdm_ep] on a client whose registers read [slot_table_size],
    [x_dim] and [y_dim], before any other call. *)
Definition CtrlModClient_new (slot_table_size x_dim y_dim : Z) (num_tdm_ep : list Z)
    : option CtrlModClient :=
  ti ← TDMinfo_new x_dim y_dim num_tdm_ep slot_table_size;
  Some (mkCtrlModClient slot_table_size x_dim y_dim 0 ∅ 0 ∅ ti []).

(** [hm.event_send] of the packet made by [_create_event_pkt(sub_mod)] with
    the words [words] appended. *)
Definition event_send (sub_mod : Z) (words : list Z) : M CtrlModClient unit :=
  modify (λ c, cm_set_sent (cm_sent c ++ [sub_mod :: words]) c).

Definition _configure_slot_table (node port slot config : Z) (pid : option Z)
    (ni : bool) : M CtrlModClient unit :=
  let msb := if ni then Z.shiftl 1 15 else 0 in
  _ ← event_send TDM_CONFIG
        [Z.lor (Z.lor (Z.shiftl (Z.land slot 0xff) 8)
                      (Z.shiftl (Z.land config 0xf) 4))
               (Z.land port 0xf);
         Z.lor msb (Z.land node 0x7fff)];
  on_tdm_info (set_table_entry node ni port slot config pid).

Definition _configure_ep_link (node ep link : Z) (enable : bool)
    : M CtrlModClient unit :=
  event_send TDM_CONFIG
    [Z.lor (Z.lor (Z.shiftl (Z.land link 0xff) 8)
                  (Z.shiftl (if enable then 1 else 0) 4))
           (Z.land ep 0xf);
     Z.lor (Z.shiftl 1 14) (Z.land node 0x7fff)].

(** The input port at the next router for a given output port. *)
Definition in_port_after (out_port : Z) : Z :=
  if bool_decide (out_port = 2) then 0
  else if bool_decide (out_port = 3) then 1
  else if bool_decide (out_port = 0) then 2
  else 3.

(** The [while] loop over the hops, which [_configure_tdm_path] and
    [_clear_tdm_path] both contain: [rest] is [path[hop:]].  The first
    writes [in_port] and the pid ([clear] false), the second [EMPTY] and
    [None] ([clear] true).  It returns [currslot] as the loop leaves it. *)
Fixpoint write_path_hops (clear : bool) (pid : option Z) (link : Z)
    (rest : list Z) (currslot in_port : Z) : M CtrlModClient Z :=
  match rest with
  | [] => mret currslot
  | c_node :: rest' =>
      x_dim ← gets cm_x_dim;
      size ← gets cm_slot_table_size;
      let out_port :=
        match rest' with
        | n_node :: _ => out_port_to x_dim c_node n_node
        | [] => link + 4
        end in
      _ ← _configure_slot_table c_node out_port currslot
            (if clear then EMPTY else in_port) pid false;
      write_path_hops clear pid link rest' ((currslot + 1) mod size)
        (in_port_after out_port)
  end.

(** The body of [for slot in start_slots] in the same two methods: [ep_src]
    and [ep_dest] are the values written to the two NI tables. *)
Definition write_path_slot (clear : bool) (pid : option Z) (path : list Z)
    (link ep_src ep_dest slot : Z) : M CtrlModClient unit :=
  p0 ← reads (λ _, py_get path 0);
  _ ← _configure_slot_table p0 link slot
        (if clear then EMPTY else ep_src) pid true;
  currslot ← write_path_hops clear pid link path slot (link + 4);
  p1 ← reads (λ _, py_get path (-1));
  _configure_slot_table p1 (link + 2) currslot
    (if clear then EMPTY else ep_dest) pid true.

Definition _configure_tdm_path (path start_slots : list Z)
    (ep_src ep_dest link : Z) : M CtrlModClient Z :=
  pid ← gets cm_nxt_pid;
  _ ← modify (λ c, cm_set_tdm_paths
          (<[pid := TDMPath_new path start_slots link ep_src ep_dest]>
             (cm_tdm_paths c)) c);
  _ ← modify (λ c, cm_set_nxt_pid (cm_nxt_pid c + 1) c);
  _ ← for_each start_slots
        (write_path_slot false (Some pid) path link ep_src ep_dest);
  p0 ← reads (λ _, py_get path 0);
  _ ← _configure_ep_link p0 ep_src link true;
  mret pid.

(** [pid] is [None] for an empty entry of [pids]. *)
Definition _clear_tdm_path (pid : option Z) : M CtrlModClient bool :=
  tp ← gets (λ c, pid ≫= (λ pid, cm_tdm_paths c !! pid));
  match pid, tp with
  | Some pid, Some tp =>
      let path := p_path tp in
      let start_slots := p_slots tp in
      let link := p_link tp in
      let ep_src := p_ep_src tp in
      let ep_dest := p_ep_dest tp in
      p0 ← reads (λ _, py_get path 0);
      _ ← _configure_ep_link p0 ep_src link false;
      _ ← for_each start_slots
            (write_path_slot true None path link ep_src ep_dest);
      _ ← modify (λ c, cm_set_tdm_paths (delete pid (cm_tdm_paths c)) c);
      mret true
  | _, _ => mret false
  end.

(** A method of [TDMChannel] or [TDMPath] changes the object that the
    dictionary holds, in place: the entry under the key is replaced, and no
    key is added.  [set_channel] stores the channel as the method called on
    [tdm_channels[chid]] left it. *)
Definition set_channel (chid : Z) (ch : TDMChannel) : M CtrlModClient unit :=
  modify (λ c, cm_set_tdm_channels (alter (λ _, ch) chid (cm_tdm_channels c)) c).

(** The two statements of [create_tdm_channel] that add a configured path
    to the new channel and the channel to the path. *)
Definition attach_path (chid pid : Z) : M CtrlModClient unit :=
  ch ← reads (λ c, cm_tdm_channels c !! chid);
  tp ← reads (λ c, cm_tdm_paths c !! pid);
  '(path_idx, ch') ← reads (λ _, add_path ch tp pid);
  _ ← set_channel chid ch';
  _ ← reads (λ c, cm_tdm_paths c !! pid);
  modify (λ c, cm_set_tdm_paths
    (alter (λ tp, assign_channel tp chid path_idx) pid (cm_tdm_paths c)) c).

(** The part of [create_tdm_channel] after the paths are configured:
    [pids] holds [pid_A] and [pid_B] when [autopaths] is set. *)
Definition new_channel (src dest ep_src ep_dest numslots : Z)
    (pids : option (Z * Z)) : M CtrlModClient Z :=
  chid ← gets cm_nxt_chid;
  _ ← modify (λ c, cm_set_tdm_channels
          (<[chid := TDMChannel_new src dest ep_src ep_dest numslots]>
             (cm_tdm_channels c)) c);
  _ ← on_tdm_info (assign_ep src dest ep_src ep_dest chid);
  _ ← modify (λ c, cm_set_nxt_chid (cm_nxt_chid c + 1) c);
  _ ← match pids with
      | Some (pid_A, pid_B) =>
          _ ← attach_path chid pid_A; attach_path chid pid_B
      | None => mret tt
      end;
  mret chid.

(** The result of [create_tdm_channel] is the channel id or a negative
    error code.  [source % x_dim] in [find_path_A] raises
    [ZeroDivisionError] when [x_dim] is 0. *)
Definition create_tdm_channel (src dest numslots : Z) (autopaths : bool)
    : M CtrlModClient Z :=
  ep_src ← on_tdm_info (get_free_ep src true);
  ep_dest ← on_tdm_info (get_free_ep dest false);
  if bool_decide (ep_src = -1) || bool_decide (ep_dest = -1) then mret (-1)
  else if autopaths then
    x_dim ← gets cm_x_dim;
    y_dim ← gets cm_y_dim;
    if bool_decide (x_dim = 0) then raise
    else
      let path_A := find_path_A x_dim src dest in
      let path_B := find_path_B x_dim y_dim src dest in
      start_slots_A ← on_tdm_info (get_free_slots path_A ep_src ep_dest 0 numslots);
      start_slots_B ← on_tdm_info (get_free_slots path_B ep_src ep_dest 1 numslots);
      if bool_decide (length start_slots_A = 0%nat)
         || bool_decide (length start_slots_B = 0%nat)
      then mret (-2)
      else
        pid_A ← _configure_tdm_path path_A start_slots_A ep_src ep_dest 0;
        pid_B ← _configure_tdm_path path_B start_slots_B ep_src ep_dest 1;
        new_channel src dest ep_src ep_dest numslots (Some (pid_A, pid_B))
  else new_channel src dest ep_src ep_dest numslots None.

Definition delete_tdm_channel (chid : Z) : M CtrlModClient unit :=
  ch ← gets (λ c, cm_tdm_channels c !! chid);
  match ch with
  | Some ch =>
      _ ← for_each (ch_pids ch) (λ pid, _ ← _clear_tdm_path pid; mret tt);
      modify (λ c, cm_set_tdm_channels (delete chid (cm_tdm_channels c)) c)
  | None => mret tt
  end.

(** The result is 0 (added), 1 (overlaps the other path) or 2 (not
    configured). *)
Definition add_path_to_channel (chid path_idx : Z) (path : list Z)
    : M CtrlModClient Z :=
  ch ← reads (λ c, cm_tdm_channels c !! chid);
  p ← reads (λ _, py_get (ch_paths ch) path_idx);
  if bool_decide (p = None) then
    let ep_src := ch_ep_src ch in
    let ep_dest := ch_ep_dest ch in
    start_slots ← on_tdm_info
      (get_free_slots path ep_src ep_dest path_idx (ch_numslots ch));
    if bool_decide (0 < length start_slots)%nat then
      pid ← _configure_tdm_path path start_slots ep_src ep_dest path_idx;
      pid_alt ← reads (λ _, py_get (ch_pids ch) ((path_idx + 1) mod 2));
      disjoint ←
        match pid_alt return M CtrlModClient bool with
        | Some pid_alt =>
            reads (λ c, tp_alt ← cm_tdm_paths c !! pid_alt;
                        tp ← cm_tdm_paths c !! pid;
                        valid_alternative_path tp_alt tp)
        | None => mret true
        end;
      (* [not disjoint or add_path(...) < 0]: [add_path] runs only when
         [disjoint] holds *)
      failed ←
        (if disjoint : bool return M CtrlModClient bool then
           tp ← reads (λ c, cm_tdm_paths c !! pid);
           '(idx, ch') ← reads (λ _, add_path ch tp pid);
           _ ← set_channel chid ch';
           mret (bool_decide (idx < 0))
         else mret true);
      if failed : bool then
        _ ← _clear_tdm_path (Some pid);
        mret (if disjoint : bool then 2 else 1)
      else mret 0
    else mret 2
  else mret 2.

Definition remove_path_from_channel (chid path_idx : Z) : M CtrlModClient unit :=
  ch ← reads (λ c, cm_tdm_channels c !! chid);
  '(pid, ch') ← reads (λ _, clear_path ch path_idx);
  _ ← set_channel chid ch';
  _ ← _clear_tdm_path pid;
  mret tt.

(** ** noc_bridge_cl.py: _packetize *)

Definition CTRL_MSG : Z := 7.

(** [packed_payload[-1].append(w)]; the list of packets is never empty. *)
Fixpoint append_to_last (packed_payload : list (list Z)) (w : Z)
    : list (list Z) :=
  match packed_payload with
  | [] => []
  | [pkt] => [pkt ++ [w]]
  | pkt :: rest => pkt :: append_to_last rest w
  end.

(** The two statements that add one word: a new packet is opened when the
    last one holds [max_num_words] words. *)
Definition add_word (max_num_words : Z) (packed_payload : list (list Z)) (w : Z)
    : list (list Z) :=
  let packed_payload :=
    if bool_decide (Z.of_nat (length (default [] (last packed_payload)))
                    = max_num_words)
    then packed_payload ++ [[]] else packed_payload in
  append_to_last packed_payload w.

(** The loop for [width == 8] over [payload[2*i:]]: pairs of bytes, then the
    last value alone when the number of values is odd. *)
Fixpoint pack_bytes (max_num_words : Z) (packed_payload : list (list Z))
    (rest : list Z) : list (list Z) :=
  match rest with
  | lo :: hi :: rest' =>
      pack_bytes max_num_words
        (add_word max_num_words packed_payload (Z.lor (Z.shiftl hi 8) lo)) rest'
  | [v] => add_word max_num_words packed_payload v
  | [] => packed_payload
  end.

(** The inner loop for the other widths: the 16-bit words [word], ...,
    [width // 16 - 1] of one value, low word first. *)
Definition pack_value (max_num_words width : Z) (packed_payload : list (list Z))
    (v : Z) : list (list Z) :=
  foldl (λ pp word, add_word max_num_words pp
                      (Z.land (Z.shiftr v (word * 16)) 0xffff))
        packed_payload (seqZ 0 (width / 16)).

(** [_packetize] of a client whose NoC width is [noc_width].  The values of
    [payload] above the maximum are first replaced by the maximum for widths
    8 and 16; the byte count is [int(len(payload) * (width / 8))]. *)
Definition _packetize (noc_width : Z) (payload : list Z) (width maxlen : Z)
    : list (list Z) :=
  let payload :=
    if bool_decide (width = 8) || bool_decide (width = 16) then
      let maxval := if bool_decide (width = 8) then 0xff else 0xffff in
      (λ v, if bool_decide (v > maxval) then maxval else v) <$> payload
    else payload in
  let num_bytes := Z.quot (Z.of_nat (length payload) * width) 8 in
  let packed_payload := [[num_bytes]] in
  let max_num_words := maxlen * (noc_width / 16) in
  if bool_decide (width = 8) then
    pack_bytes max_num_words packed_payload payload
  else if bool_decide (width = 16) then
    foldl (add_word max_num_words) packed_payload payload
  else
    foldl (pack_value max_num_words width)
          (append_to_last packed_payload 0) payload.

(** ** noc_gateway.py: NoCGateway *)

Definition BE : Z := 0.
Definition TDM : Z := 1.

(** The loop of [_unpack_payload] for [width == 32]; a last word without
    partner raises. *)
Fixpoint unpack_words32 (rest : list Z) : option (list Z) :=
  match rest with
  | [] => Some []
  | lo :: hi :: rest' =>
      u ← unpack_words32 rest'; Some (Z.lor lo (Z.shiftl hi 16) :: u)
  | [_] => None
  end.

Definition _unpack_payload (payload : list Z) (type width : Z)
    : option (list Z) :=
  if bool_decide (width mod 8 ≠ 0) then Some []
  else
    '(unpacked, idx) ←
      (if bool_decide (type = BE) then
         p1 ← py_get payload 1;
         p0 ← py_get payload 0;
         Some ([Z.lor (Z.shiftl p1 16) p0], 2%nat)
       else Some ([], 0%nat));
    if bool_decide (width = 8) then
      Some (unpacked
            ++ (v ← drop idx payload;
                [Z.land v 0xff; Z.land (Z.shiftr v 8) 0xff]))
    else if bool_decide (width = 16) then
      Some (unpacked ++ drop idx payload)
    else if bool_decide (width = 32) then
      u ← unpack_words32 (drop idx payload); Some (unpacked ++ u)
    else Some unpacked.

(** What [_find_source] does: return a tile and an endpoint, return [None],
    or loop forever. *)
Inductive find_source_result :=
  | Found (tile ep : Z)
  | InvalidHop
  | Diverges.

(** [_find_source] from tile [curr_tile].  Once [sr_path] is 0 every
    further hop code is 0 and the loop never ends. *)
Equations? find_source_from (x_dim curr_tile sr_path : Z) : find_source_result
  by wf (Z.to_nat (Z.abs sr_path)) lt :=
find_source_from x_dim curr_tile sr_path
  with decide (Z.land sr_path 0x7 = 4) => {
  | left _ => Found curr_tile 0;
  | right _ with decide (Z.land sr_path 0x7 = 5) => {
    | left _ => Found curr_tile 1;
    | right _ with decide (0 ≤ Z.land sr_path 0x7 ≤ 3) => {
      | right _ => InvalidHop;
      | left _ with decide (sr_path = 0) => {
        | left _ => Diverges;
        | right _ =>
            let nhop := Z.land sr_path 0x7 in
            let curr_tile :=
              if bool_decide (nhop = 0) then curr_tile - x_dim
              else if bool_decide (nhop = 1) then curr_tile + 1
              else if bool_decide (nhop = 2) then curr_tile + x_dim
              else curr_tile - 1 in
            find_source_from x_dim curr_tile (Z.shiftr sr_path 3) } } } }.
Proof.
  assert (Hne : sr_path ≠ -1)
    by (intros ->; change (Z.land (-1) 7) with 7 in *; lia).
  rewrite Z.shiftr_div_pow2 by lia.
  change (2 ^ 3) with 8.
  pose proof (Z.div_mod sr_path 8 ltac:(lia)).
  pose proof (Z.mod_pos_bound sr_path 8 ltac:(lia)).
  lia.
Qed.

(** The filter a client has bound for one traffic type, and the dictionary
    [cl_binds[cid]]: the width and at most one type with its filter. *)
Record traffic_filter := mkFilter {
  f_ep : option Z;
  f_class : option Z;
  f_src : option Z }.

Record bind := mkBind {
  b_width : Z;
  b_type : option (Z * traffic_filter) }.

(** The gateway: [cl_binds] in the order of the dictionary, [None] for a
    registered client that is not bound.  [register_client] and
    [unregister_client] keep the keys of [clients] equal to those of
    [cl_binds], so [clients] is not kept apart. *)
Record NoCGateway := mkNoCGateway {
  gw_x_dim : Z;
  gw_tile : Z;
  gw_dr_enabled : bool;
  gw_remote_enabled : list (list bool);
  gw_nxt_cid : Z;
  gw_cl_binds : list (Z * option bind) }.

Definition register_client (gw : NoCGateway) : Z * NoCGateway :=
  (gw_nxt_cid gw,
   mkNoCGateway (gw_x_dim gw) (gw_tile gw) (gw_dr_enabled gw)
     (gw_remote_enabled gw) (gw_nxt_cid gw + 1)
     (gw_cl_binds gw ++ [(gw_nxt_cid gw, None)])).

(** [cl_binds[cid] = v] for a key that is present. *)
Definition set_bind (cid : Z) (v : option bind) (binds : list (Z * option bind))
    : list (Z * option bind) :=
  (λ kv, if bool_decide (kv.1 = cid) then (cid, v) else kv) <$> binds.

Definition bind_traffic (gw : NoCGateway) (cid : Z) (type ep pkt_class src : option Z)
    (width : Z) : NoCGateway :=
  if bool_decide (cid ∈ (gw_cl_binds gw).*1) then
    mkNoCGateway (gw_x_dim gw) (gw_tile gw) (gw_dr_enabled gw)
      (gw_remote_enabled gw) (gw_nxt_cid gw)
      (set_bind cid
         (Some (mkBind width ((λ t, (t, mkFilter ep pkt_class src)) <$> type)))
         (gw_cl_binds gw))
  else gw.

(** [key not in d or d[key] == v]. *)
Definition field_ok (field : option Z) (v : Z) : bool :=
  match field with
  | None => true
  | Some x => bool_decide (x = v)
  end.

(** The condition of the loop over [cl_binds] for a packet of type [type]:
    the class and the source are compared for BE packets only. *)
Definition client_selected (b : bind) (type ep pkt_class src : Z) : bool :=
  match b_type b with
  | Some (t, f) =>
      if bool_decide (t = type) then
        if bool_decide (type = BE)
        then field_ok (f_ep f) ep && field_ok (f_class f) pkt_class
             && field_ok (f_src f) src
        else field_ok (f_ep f) ep
      else true
  | None => true
  end.

(** A call [clients[cl].receive(type, ep, unpacked, src=src)]. *)
Record delivery := mkDelivery {
  d_client : Z;
  d_type : Z;
  d_ep : Z;
  d_payload : list Z;
  d_src : option Z }.

(** The loop over [cl_binds].  Testing an unbound client raises a
    [TypeError], which the handler of [receive_event] catches: the loop is
    left and the clients after it are not served. *)
Fixpoint deliver (type ep pkt_class src : Z) (payload_lst : list Z)
    (binds : list (Z * option bind)) : list delivery :=
  match binds with
  | [] => []
  | (cl, None) :: _ => []
  | (cl, Some b) :: rest =>
      if client_selected b type ep pkt_class src then
        match _unpack_payload payload_lst type (b_width b) with
        | Some unpacked =>
            mkDelivery cl type ep unpacked
              (if bool_decide (type = BE) then Some src else None)
            :: deliver type ep pkt_class src payload_lst rest
        | None => []
        end
      else deliver type ep pkt_class src payload_lst rest
  end.

(** The fields that [receive_event] reads from the payload of a packet:
    type and endpoint from the first word, and for BE packets the header,
    its class and the source, which is read from the header or found by
    [_find_source]. *)
Definition pkt_type (payload : list Z) : Z :=
  Z.land (Z.shiftr (default 0 (payload !! 0%nat)) 15) 0x1.

Definition pkt_ep (payload : list Z) : Z :=
  Z.land (default 0 (payload !! 0%nat)) 0x7fff.

Definition pkt_header (payload : list Z) : Z :=
  Z.lor (Z.shiftl (default 0 (payload !! 2%nat)) 16)
        (default 0 (payload !! 1%nat)).

Definition pkt_class (payload : list Z) : Z := Z.shiftr (pkt_header payload) 29.

Definition pkt_source (gw : NoCGateway) (payload : list Z) : find_source_result :=
  if gw_dr_enabled gw
  then Found (Z.land (Z.shiftr (pkt_header payload) 10) 0x3ff) (pkt_ep payload)
  else find_source_from (gw_x_dim gw) (gw_tile gw)
         (Z.land (pkt_header payload) 0xffffff).

(** [receive_event(pkt=pkt)] for a packet with payload [payload]: the
    gateway it leaves and the calls of [receive] it makes, or [None] when it
    does not return.  An exception is caught by the handler of the method,
    which then returns. *)
Definition receive_event (gw : NoCGateway) (payload : list Z)
    : option (NoCGateway * list delivery) :=
  if bool_decide (length payload < 3)%nat then Some (gw, [])
  else if bool_decide ((Z.of_nat (length payload) - 1) mod 2 ≠ 0) then Some (gw, [])
  else
    let type := pkt_type payload in
    let payload_lst := drop 1 payload in
    if bool_decide (type = BE) then
      let pkt_class := pkt_class payload in
      match pkt_source gw payload with
      | Diverges => None
      | InvalidHop => Some (gw, [])
      | Found src ep =>
          if bool_decide (pkt_class = CTRL_MSG) then
            match (row ← py_get (gw_remote_enabled gw) ep;
                   row' ← py_set row src true;
                   py_set (gw_remote_enabled gw) ep row') with
            | Some remote =>
                Some (mkNoCGateway (gw_x_dim gw) (gw_tile gw) (gw_dr_enabled gw)
                        remote (gw_nxt_cid gw) (gw_cl_binds gw), [])
            | None => Some (gw, [])
            end
          else
            Some (gw, deliver BE ep pkt_class src payload_lst (gw_cl_binds gw))
      end
    else
      Some (gw, deliver TDM (pkt_ep payload) 0 0 payload_lst (gw_cl_binds gw)).

(** ** Vocabulary of the properties *)

(** Every run of the method that returns relates the state before to the
    state after by [R]. *)
Definition preserves {S A} (R : relation S) (m : M S A) : Prop :=
  ∀ s r s', m s = Some (r, s') → R s s'.

(** A method that leaves the state of its object as it found it. *)
Definition read_only {S A} (m : M S A) : Prop := preserves eq m.

(** What a run returns, and the state it leaves (the state before, when it
    raises). *)
Definition result_of {S A} (m : M S A) (s : S) : option A := fst <$> m s.

Definition state_after {S A} (m : M S A) (s : S) : S :=
  match m s with
  | Some (_, s') => s'
  | None => s
  end.

(** The position after one step of [find_path_x_y] and of [find_path_y_x]. *)
Definition next_x_y (curr_x curr_y dest_x dest_y : Z) : Z * Z :=
  if decide (curr_x = dest_x) then
    if decide (curr_y < dest_y) then (curr_x, curr_y + 1) else (curr_x, curr_y - 1)
  else if decide (curr_x < dest_x) then (curr_x + 1, curr_y) else (curr_x - 1, curr_y).

Definition next_y_x (curr_x curr_y dest_x dest_y : Z) : Z * Z :=
  if decide (curr_y = dest_y) then
    if decide (curr_x < dest_x) then (curr_x + 1, curr_y) else (curr_x - 1, curr_y)
  else if decide (curr_y < dest_y) then (curr_x, curr_y + 1) else (curr_x, curr_y - 1).

(** [R] holds of every directed hop [(path[i], path[i+1])]. *)
Definition all_hops (R : Z → Z → Prop) (path : list Z) : Prop :=
  ∀ (i : nat) a b, path !! i = Some a → path !! S i = Some b → R a b.

(** No ordered pair [(path[i], path[i+1])] occurs in both paths. *)
Definition no_common_hop (p q : list Z) : Prop :=
  ∀ (i j : nat) a b,
    p !! i = Some a → p !! S i = Some b →
    q !! j = Some a → q !! S j = Some b → False.

(** A hop between nodes of the grid of width [x_dim]: either along row [hr]
    with both columns between [x0] and [x1], or along column [vc] with both
    rows between [y0] and [y1]. *)
Definition grid_hop (x_dim hr x0 x1 vc y0 y1 a b : Z) : Prop :=
  ∃ x y x' y',
    a = x_dim * y + x ∧ b = x_dim * y' + x' ∧
    ((y = hr ∧ y' = hr ∧ Z.min x0 x1 ≤ x ≤ Z.max x0 x1
      ∧ Z.min x0 x1 ≤ x' ≤ Z.max x0 x1 ∧ (x' = x + 1 ∨ x' = x - 1))
     ∨ (x = vc ∧ x' = vc ∧ Z.min y0 y1 ≤ y ≤ Z.max y0 y1
        ∧ Z.min y0 y1 ≤ y' ≤ Z.max y0 y1 ∧ (y' = y + 1 ∨ y' = y - 1))).

(** What the specification says of the two routes of a node pair. *)
Definition routes_valid_and_disjoint (x_dim y_dim src dest : Z) : Prop :=
  let path_A := find_path_A x_dim src dest in
  let path_B := find_path_B x_dim y_dim src dest in
  check_valid_path x_dim path_A = true ∧ check_valid_path x_dim path_B = true
  ∧ head path_A = Some src ∧ last path_A = Some dest
  ∧ head path_B = Some src ∧ last path_B = Some dest
  ∧ no_common_hop path_A path_B.

(** The detour of the specification: away from a boundary, and to the
    smaller index when not at a boundary. *)
Definition spec_detour (dim curr : Z) : Z :=
  if bool_decide (curr = 0) then curr + 1 else curr - 1.

(** The detour towards the closer edge: to the smaller index in the lower
    half and at the upper boundary, to the larger index otherwise. *)
Definition closer_edge_detour (dim curr : Z) : Z :=
  if bool_decide (0 < curr ≤ dim / 2 ∨ curr = dim - 1) then curr - 1
  else curr + 1.

(** The second node of the alternative route is the source moved by
    [detour] across the line that source and destination share. *)
Definition first_hop_detours (detour : Z → Z → Z) (x_dim y_dim src dest : Z)
    : Prop :=
  let path_B := find_path_B x_dim y_dim src dest in
  (src mod x_dim = dest mod x_dim →
     path_B !! 1%nat
     = Some (x_dim * (src / x_dim) + detour x_dim (src mod x_dim)))
  ∧ (src / x_dim = dest / x_dim →
     path_B !! 1%nat
     = Some (x_dim * detour y_dim (src / x_dim) + src mod x_dim)).

(** The flits of all packets of [_packetize], in the order they are sent. *)
Definition flit_stream (noc_width : Z) (payload : list Z) (width maxlen : Z)
    : list Z :=
  concat (_packetize noc_width payload width maxlen).

(** The round trip of the specification: unpacking the stream gives the
    byte count and then the values, and nothing else. *)
Definition roundtrip_exact (type noc_width : Z) (payload : list Z)
    (width maxlen : Z) : Prop :=
  _unpack_payload (flit_stream noc_width payload width maxlen) type width
  = Some (Z.of_nat (length payload) * (width / 8) :: payload).

(** The words of the stream for [width == 8]. *)
Fixpoint byte_pairs (payload : list Z) : list Z :=
  match payload with
  | lo :: hi :: rest => Z.lor (Z.shiftl hi 8) lo :: byte_pairs rest
  | [v] => [v]
  | [] => []
  end.

(** The two words of a 32-bit value, low word first. *)
Definition value_words (v : Z) : list Z :=
  [Z.land (Z.shiftr v (0 * 16)) 0xffff; Z.land (Z.shiftr v (1 * 16)) 0xffff].

(** A filter matches a packet in every field it has; packets other than BE
    packets have neither class nor source. *)
Definition filter_matches (f : traffic_filter) (type ep pkt_class src : Z)
    : Prop :=
  (∀ x, f_ep f = Some x → x = ep)
  ∧ (type = BE →
     (∀ x, f_class f = Some x → x = pkt_class)
     ∧ (∀ x, f_src f = Some x → x = src)).

(** The rule of the specification: the type of the bind, when there is one,
    must be the type of the packet. *)
Definition spec_accepts (b : bind) (type ep pkt_class src : Z) : Prop :=
  match b_type b with
  | Some (t, f) => t = type ∧ filter_matches f type ep pkt_class src
  | None => True
  end.

(** The rule of the code: a bind for another type accepts the packet. *)
Definition code_accepts (b : bind) (type ep pkt_class src : Z) : Prop :=
  match b_type b with
  | Some (t, f) => t = type → filter_matches f type ep pkt_class src
  | None => True
  end.

(** [receive_event] returns, leaves the gateway as it is, and serves the
    clients that [accepts] selects, each once, in the order of registration
    and with the payload unpacked at the width of its bind. *)
Definition serves_accepted (accepts : bind → Z → Z → Z → Z → Prop)
    (gw : NoCGateway) (payload : list Z) (type ep pkt_class src : Z) : Prop :=
  ∃ ds,
    receive_event gw payload = Some (gw, ds)
    ∧ sublist (d_client <$> ds) (gw_cl_binds gw).*1
    ∧ (∀ cl, cl ∈ d_client <$> ds ↔
         ∃ b, (cl, Some b) ∈ gw_cl_binds gw ∧ accepts b type ep pkt_class src)
    ∧ Forall (λ d, d_type d = type ∧ d_ep d = ep
                   ∧ ∃ b, (d_client d, Some b) ∈ gw_cl_binds gw
                          ∧ _unpack_payload (drop 1 payload) type (b_width b)
                            = Some (d_payload d)) ds.

(** A gateway with two clients: client 0 bound to TDM traffic, client 1
    bound to every type at width 16. *)
Definition two_client_gateway : NoCGateway :=
  mkNoCGateway 2 0 true [[false; false; false; false]] 2
    [(0, Some (mkBind 32 (Some (TDM, mkFilter None None None))));
     (1, Some (mkBind 16 None))].

(** The subscripts [(node, ni, port, slot)] of the router entries of a path
    from hop [rest] on, in the order of the loop, and the slot after the
    last hop. *)
Fixpoint hop_subscripts (x_dim size link : Z) (rest : list Z) (slot : Z)
    : list (Z * bool * Z * Z) * Z :=
  match rest with
  | [] => ([], slot)
  | c_node :: rest' =>
      let out_port :=
        match rest' with
        | n_node :: _ => out_port_to x_dim c_node n_node
        | [] => link + 4
        end in
      let r := hop_subscripts x_dim size link rest' ((slot + 1) mod size) in
      ((c_node, false, out_port, slot) :: r.1, r.2)
  end.

(** The subscripts of all entries of a path with start slot [slot]: the
    outgoing NI table of the first node, the routers, and the incoming NI
    table of the last node. *)
Definition path_subscripts (x_dim size : Z) (path : list Z) (link slot : Z)
    : list (Z * bool * Z * Z) :=
  match head path, last path with
  | Some p0, Some p1 =>
      let r := hop_subscripts x_dim size link path slot in
      (p0, true, link, slot) :: r.1 ++ [(p1, true, link + 2, r.2)]
  | _, _ => []
  end.

(** The entry of the table under a subscript, if there is one. *)
Definition entry_at (ti : TDMinfo) (sub : Z * bool * Z * Z) : option slot_entry :=
  k ← table_index ti sub.1.1.1 sub.1.1.2 sub.1.2 sub.2;
  ti_table_config ti !! k.

(** [check_path] returns [True]. *)
Definition path_free (ti : TDMinfo) (path : list Z) (link ep_src ep_dest slot : Z)
    : Prop :=
  check_path path slot link ep_src ep_dest ti = Some (true, ti).

(** The same as a test. *)
Definition slot_is_free (ti : TDMinfo) (path : list Z) (link ep_src ep_dest slot : Z)
    : bool :=
  match check_path path slot link ep_src ep_dest ti with
  | Some (true, _) => true
  | _ => false
  end.

(** All entries under the subscripts are [EMPTY]. *)
Definition all_empty (ti : TDMinfo) (subs : list (Z * bool * Z * Z)) : Prop :=
  Forall (λ sub, ∃ pid, entry_at ti sub = Some (EMPTY, pid)) subs.

(** The operations of the client on channels and paths. *)
Inductive operation :=
  | Create (src dest numslots : Z) (autopaths : bool)
  | Delete (chid : Z)
  | AddPath (chid path_idx : Z) (path : list Z)
  | RemovePath (chid path_idx : Z).

Definition run_operation (o : operation) : M CtrlModClient unit :=
  match o with
  | Create src dest numslots autopaths =>
      _ ← create_tdm_channel src dest numslots autopaths; mret tt
  | Delete chid => delete_tdm_channel chid
  | AddPath chid path_idx path =>
      _ ← add_path_to_channel chid path_idx path; mret tt
  | RemovePath chid path_idx => remove_path_from_channel chid path_idx
  end.

(** The two counters do not go down, and an id that is in use afterwards
    was in use before or is not below the counter of before. *)
Definition ids_advance (c c' : CtrlModClient) : Prop :=
  cm_nxt_pid c ≤ cm_nxt_pid c' ∧ cm_nxt_chid c ≤ cm_nxt_chid c'
  ∧ (∀ pid, is_Some (cm_tdm_paths c' !! pid) →
       is_Some (cm_tdm_paths c !! pid) ∨ cm_nxt_pid c ≤ pid)
  ∧ (∀ chid, is_Some (cm_tdm_channels c' !! chid) →
       is_Some (cm_tdm_channels c !! chid) ∨ cm_nxt_chid c ≤ chid).

(** The attribute [f] has the same value before and after. *)
Definition same_on {S B} (f : S → B) : relation S := λ s s', f s = f s'.

(** A client of a 2x2 mesh with one endpoint per node and four slots per
    table, as [set_num_tdm_ep] leaves it, and the same client with a channel
    from node 0 to node 3. *)
Definition small_client : CtrlModClient :=
  default (mkCtrlModClient 0 0 0 0 ∅ 0 ∅ (mkTDMinfo 0 0 [] 0 [] ∅) [])
    (CtrlModClient_new 4 2 2 [1; 1; 1; 1]).

Definition busy_client : CtrlModClient :=
  state_after (create_tdm_channel 0 3 1 true) small_client.

(** The key of the table for a subscript, and the keys of a list of
    subscripts. *)
Definition sub_key (ti : TDMinfo) (sub : Z * bool * Z * Z) : option table_key :=
  table_index ti sub.1.1.1 sub.1.1.2 sub.1.2 sub.2.

Definition keys_of (ti : TDMinfo) (subs : list (Z * bool * Z * Z))
    (k : table_key) : Prop :=
  ∃ sub, sub ∈ subs ∧ sub_key ti sub = Some k.

(** The keys of all entries of a path for a list of start slots. *)
Definition path_keys (ti : TDMinfo) (path : list Z) (link : Z)
    (start_slots : list Z) (k : table_key) : Prop :=
  ∃ slot, slot ∈ start_slots
    ∧ keys_of ti (path_subscripts (ti_x_dim ti) (ti_slot_table_size ti)
                    path link slot) k.

(** How the writes of a path change a table: the same subscripts have
    entries, and entries outside the keys [K] stay.  When the path is
    cleared ([clear] true) the entries under [K] are [(EMPTY, None)]. *)
Definition table_step (clear : bool) (K : table_key → Prop)
    (t t' : gmap table_key slot_entry) : Prop :=
  (∀ k, is_Some (t' !! k) ↔ is_Some (t !! k))
  ∧ ∀ k, if clear
         then (K k ∧ t' !! k = Some (EMPTY, None)) ∨ (¬ K k ∧ t' !! k = t !! k)
         else K k ∨ t' !! k = t !! k.

(** The client with another slot table and more packets sent. *)
Definition with_table (t : gmap table_key slot_entry) (pkts : list (list Z))
    (c : CtrlModClient) : CtrlModClient :=
  cm_set_sent (cm_sent c ++ pkts)
    (cm_set_tdm_info (ti_set_table t (cm_tdm_info c)) c).

(** The slot table of the client. *)
Definition cm_table (c : CtrlModClient) : gmap table_key slot_entry :=
  ti_table_config (cm_tdm_info c).

(** The client and its [TDMinfo] were made with the same dimensions. *)
Definition dims_agree (c : CtrlModClient) : Prop :=
  cm_x_dim c = ti_x_dim (cm_tdm_info c)
  ∧ cm_slot_table_size c = ti_slot_table_size (cm_tdm_info c).

(** An empty slot has no path id: every entry is written with a value and
    a path id together, or cleared. *)
Definition table_clean (t : gmap table_key slot_entry) : Prop :=
  map_Forall (λ _ e, e.1 = EMPTY → e.2 = None) t.

(** All entries under the subscripts exist. *)
Definition all_present (ti : TDMinfo) (subs : list (Z * bool * Z * Z)) : Prop :=
  Forall (λ sub, is_Some (entry_at ti sub)) subs.

(** All entries of a path exist, for every start slot of a list. *)
Definition path_present (ti : TDMinfo) (path : list Z) (link : Z)
    (start_slots : list Z) : Prop :=
  Forall (λ slot, all_present ti
            (path_subscripts (ti_x_dim ti) (ti_slot_table_size ti) path link slot))
         start_slots.

(** A run of [m] that returns [r], sends packets and changes the entries
    of the slot table under [K], and nothing else. *)
Definition table_run {A} (clear : bool) (K : table_key → Prop)
    (m : M CtrlModClient A) (c : CtrlModClient) (r : A) : Prop :=
  ∃ t' pkts, m c = Some (r, with_table t' pkts c)
             ∧ table_step clear K (cm_table c) t'.

(** The slot [path_idx] of the channel is free and its other slot holds a
    path with the route [path]. *)
Definition other_path_has_route (c : CtrlModClient) (chid path_idx : Z)
    (path : list Z) : Prop :=
  ∃ ch pid_alt tp_alt,
    cm_tdm_channels c !! chid = Some ch
    ∧ py_get (ch_paths ch) path_idx = Some None
    ∧ py_get (ch_pids ch) ((path_idx + 1) mod 2) = Some (Some pid_alt)
    ∧ cm_tdm_paths c !! pid_alt = Some tp_alt
    ∧ p_path tp_alt = path.

(** [add_path_to_channel] with the route of the other path returns 1 and
    the slot table is as before. *)
Definition same_route_overlaps (c : CtrlModClient) (chid path_idx : Z)
    (path : list Z) : Prop :=
  other_path_has_route c chid path_idx path →
  ∃ c', add_path_to_channel chid path_idx path c = Some (1, c')
        ∧ cm_table c' = cm_table c.

(** The client [busy_client] after its second path is removed, and a
    client of the same mesh with a channel of three slots whose second path
    is removed. *)
Definition pruned_client : CtrlModClient :=
  state_after (remove_path_from_channel 0 1) busy_client.

Definition crowded_client : CtrlModClient :=
  state_after (_ ← create_tdm_channel 0 3 3 true; remove_path_from_channel 0 1)
    small_client.

(** The table [t'] is the table [t], except that entries that read
    [EMPTY] while they carried a path id have lost the id. *)
Definition restored_up_to_ids (t t' : gmap table_key slot_entry) : Prop :=
  ∀ k, t' !! k = t !! k
       ∨ ∃ pid, t !! k = Some (EMPTY, Some pid) ∧ t' !! k = Some (EMPTY, None).

(** A client with a channel from node 0 to itself whose first path has the
    route of one node. *)
Definition loop_client : CtrlModClient :=
  state_after
    (for_each [Create 0 0 1 false; AddPath 0 0 [0]] run_operation) small_client.

(** A client of the same mesh with 16 endpoints at every node.  Channel 15
    gets the endpoint 15 of node 0, and its path on link 1 stores that
    index, which is the value of [EMPTY], in the first slot of the NI of
    node 0.  The path of channel 16 keeps the first path of channel 0 from
    the first slot. *)
Definition wide_client : CtrlModClient :=
  state_after
    (for_each
       ([Create 0 1 1 false] ++ replicate 14 (Create 0 3 1 false)
        ++ [Create 0 2 1 false; Create 3 1 1 false;
            AddPath 16 0 [3; 1]; AddPath 15 1 [0; 2]; AddPath 0 0 [0; 1]])
       run_operation)
    (default small_client (CtrlModClient_new 4 2 2 [16; 16; 16; 16])).

(** The client with other paths and another counter of path ids. *)
Definition with_paths (ps : gmap Z TDMPath) (n : Z) (c : CtrlModClient)
    : CtrlModClient :=
  cm_set_nxt_pid n (cm_set_tdm_paths ps c).

(** ** tdm_util.py: the other methods of TDMChannel *)

(** [set_error] and [clear_error]: [errors[path] = v] when [path < 2]. *)
Definition set_error_to (v : bool) (self : TDMChannel) (path : Z)
    : option TDMChannel :=
  if bool_decide (path < 2) then
    errors ← py_set (ch_errors self) path (Some v);
    Some (mkTDMChannel (ch_paths self) (ch_pids self) errors (ch_src self)
            (ch_dest self) (ch_ep_src self) (ch_ep_dest self) (ch_numslots self))
  else Some self.

Definition set_error : TDMChannel → Z → option TDMChannel := set_error_to true.
Definition clear_error : TDMChannel → Z → option TDMChannel := set_error_to false.

Definition get_free_path_idx (self : TDMChannel) : option Z :=
  p0 ← py_get (ch_paths self) 0;
  if bool_decide (p0 = None) then Some 0
  else
    p1 ← py_get (ch_paths self) 1;
    Some (if bool_decide (p1 = None) then 1 else -1).

Definition valid_return_channel (self tdm_channel : TDMChannel) : bool :=
  negb (bool_decide (ch_src tdm_channel ≠ ch_dest self)
        || bool_decide (ch_dest tdm_channel ≠ ch_src self)
        || bool_decide (ch_ep_src tdm_channel ≠ ch_ep_dest self)
        || bool_decide (ch_ep_dest tdm_channel ≠ ch_ep_src self)).

(** The place of [nodes[node][ep]] in the nested list, after Python's rule
    for negative subscripts. *)
Definition ep_index (ti : TDMinfo) (node ep : Z) : option (Z * Z) :=
  n ← py_index (Z.of_nat (length (ti_nodes ti))) node;
  eps ← ti_nodes ti !! Z.to_nat n;
  e ← py_index (Z.of_nat (length eps)) ep;
  Some (n, e).

(** The mirror of the client [small_client], and the same mirror after an
    entry of a slot table is written and a pair of endpoints is assigned. *)
Definition small_info : TDMinfo := cm_tdm_info small_client.

Definition used_info : TDMinfo :=
  state_after (_ ← set_table_entry 3 true 1 2 7 (Some 5); assign_ep 0 3 0 0 5)
    small_info.

(** The number of endpoints of every node. *)
Definition nodes_shape (nodes : list (list (option Z * option Z))) : list nat :=
  length <$> nodes.

(** The mirror [ti] has the dimensions of [ti0], as many endpoints at
    every node and entries under the same subscripts. *)
Definition same_shape (ti0 ti : TDMinfo) : Prop :=
  ti_x_dim ti = ti_x_dim ti0 ∧ ti_y_dim ti = ti_y_dim ti0
  ∧ ti_num_ep ti = ti_num_ep ti0
  ∧ ti_slot_table_size ti = ti_slot_table_size ti0
  ∧ nodes_shape (ti_nodes ti) = nodes_shape (ti_nodes ti0)
  ∧ map_Forall (λ k _, is_Some (ti_table_config ti0 !! k)) (ti_table_config ti)
  ∧ map_Forall (λ k _, is_Some (ti_table_config ti !! k)) (ti_table_config ti0).

(** The endpoint is taken in the direction [out]. *)
Definition ep_taken (out : bool) (e : option Z * option Z) : Prop :=
  (if out then e.1 else e.2) ≠ None.

(** Every stored path id is below the path counter and every stored
    channel id below the channel counter. *)
Definition ids_below (c : CtrlModClient) : Prop :=
  (∀ pid, is_Some (cm_tdm_paths c !! pid) → pid < cm_nxt_pid c)
  ∧ (∀ chid, is_Some (cm_tdm_channels c !! chid) → chid < cm_nxt_chid c).

(** The mirror of [c'] has the shape of the mirror of [c], and the
    dimensions that the client read from the registers are the same. *)
Definition mirror_kept (c c' : CtrlModClient) : Prop :=
  same_shape (cm_tdm_info c) (cm_tdm_info c')
  ∧ cm_x_dim c' = cm_x_dim c ∧ cm_y_dim c' = cm_y_dim c
  ∧ cm_slot_table_size c' = cm_slot_table_size c.

(** ** ctrl_mod_cl.py: the fault vector and [reset] *)

(** The client together with its [fault_vector], which the record
    [CtrlModClient] does not hold. *)
Record ClientState := mkClientState {
  cs_client : CtrlModClient;
  cs_fault_vector : list Z }.

(** A method that uses the attributes of [CtrlModClient] only. *)
Definition on_client {A} (m : M CtrlModClient A) : M ClientState A :=
  λ s, match m (cs_client s) with
       | Some (x, c) => Some (x, mkClientState c (cs_fault_vector s))
       | None => None
       end.

Definition _reset_variables : M ClientState unit :=
  x_dim ← gets (λ s, cm_x_dim (cs_client s));
  y_dim ← gets (λ s, cm_y_dim (cs_client s));
  _ ← modify (λ s, mkClientState (cs_client s)
                     (replicate (Z.to_nat (x_dim * y_dim)) 0));
  _ ← on_client (modify (cm_set_nxt_pid 0));
  _ ← on_client (modify (cm_set_tdm_channels ∅));
  _ ← on_client (modify (cm_set_nxt_chid 0));
  _ ← on_client (modify (cm_set_tdm_paths ∅));
  on_client (on_tdm_info TDMinfo_reset).

Definition _reset_faults : M ClientState unit :=
  x_dim ← gets (λ s, cm_x_dim (cs_client s));
  y_dim ← gets (λ s, cm_y_dim (cs_client s));
  for_each (seqZ 0 (x_dim * y_dim)) (λ node,
    on_client (event_send FAULT_CONFIG [Z.shiftl node 8])).

Definition reset : M ClientState unit :=
  _ ← _reset_variables; _reset_faults.

(** [configure_faults]: [1 << link] raises [ValueError] for a negative
    [link], and [~] is the complement of an unbounded integer. *)
Definition configure_faults (node link : Z) (set_fault : bool)
    : M ClientState unit :=
  v ← reads (λ s, py_get (cs_fault_vector s) node);
  if bool_decide (link < 0) then raise
  else
    let v' := if set_fault then Z.lor v (Z.shiftl 1 link)
              else Z.land v (Z.lnot (Z.shiftl 1 link)) in
    fv ← reads (λ s, py_set (cs_fault_vector s) node v');
    _ ← modify (λ s, mkClientState (cs_client s) fv);
    v'' ← reads (λ s, py_get (cs_fault_vector s) node);
    on_client (event_send FAULT_CONFIG
                 [Z.lor (Z.shiftl node 8) (Z.land v'' 0xff)]).

(** The packets that [_reset_faults] sends. *)
Definition fault_reset_packets (x_dim y_dim : Z) : list (list Z) :=
  (λ node, [FAULT_CONFIG; Z.shiftl node 8]) <$> seqZ 0 (x_dim * y_dim).

(** The property [P] of the state is kept. *)
Definition keeps {S} (P : S → Prop) : relation S := λ s s', P s → P s'.

(** No node has more endpoints than the value of [EMPTY], so that no
    endpoint index is [EMPTY], and no empty entry of the slot table carries
    a path id. *)
Definition clean_client (c : CtrlModClient) : Prop :=
  table_clean (cm_table c)
  ∧ Forall (λ n, n ≤ EMPTY) (ti_num_ep (cm_tdm_info c)).

(** ** noc_bridge_cl.py: source routing headers *)

(** One of the two [while] loops of [calculate_header_x_y]: [nlo] is the
    hop code towards the smaller coordinate, [nhi] the one towards the
    larger.  It returns [hop] and [header] as the loop leaves them. *)
Equations? header_route (nlo nhi dest curr hop header : Z) : Z * Z
  by wf (Z.to_nat (Z.abs (dest - curr))) lt :=
header_route nlo nhi dest curr hop header with decide (dest = curr) => {
  | left _ => (hop, header);
  | right _ =>
      let nhop := if bool_decide (dest < curr) then nlo else nhi in
      let curr := if bool_decide (dest < curr) then curr - 1 else curr + 1 in
      header_route nlo nhi dest curr (hop + 1)
        (Z.lor header (Z.shiftl (Z.land nhop 0x7) (hop * 3))) }.
Proof. subst curr. case_bool_decide; lia. Qed.

(** [calculate_header_x_y] of a client whose NoC width is [noc_width];
    [dest % x_dim] raises when [x_dim] is 0. *)
Definition calculate_header_x_y (noc_width source dest link x_dim : Z)
    : option (bool * Z) :=
  if bool_decide (x_dim = 0) then None
  else
    let dest_x := dest mod x_dim in
    let dest_y := dest / x_dim in
    let curr_x := source mod x_dim in
    let curr_y := source / x_dim in
    let '(hop, header) := header_route 3 1 dest_x curr_x 0 0 in
    let '(hop, header) := header_route 0 2 dest_y curr_y hop header in
    let header := Z.lor header (Z.shiftl (Z.land (4 + link) 0x7) (hop * 3)) in
    Some (bool_decide (hop * 3 < noc_width - 8), header).

(** [create_routing_table] of a client on tile [tile] with [num_links]
    links: the header, or 0 when the path is too long. *)
Definition create_routing_table (noc_width tile num_links x_dim y_dim : Z)
    : option (list (list Z)) :=
  mapM (λ link,
    mapM (λ dest,
      '(success, header) ← calculate_header_x_y noc_width tile dest link x_dim;
      Some (if success : bool then header else 0))
      (seqZ 0 (x_dim * y_dim)))
    (seqZ 0 num_links).

(** The number made of the hop codes [hs], three bits each, the first in
    the lowest bits. *)
Fixpoint hops_value (hs : list Z) : Z :=
  match hs with
  | [] => 0
  | h :: rest => h + 8 * hops_value rest
  end.

(** The change of the tile number along a hop. *)
Definition hop_delta (x_dim nhop : Z) : Z :=
  if bool_decide (nhop = 0) then - x_dim
  else if bool_decide (nhop = 1) then 1
  else if bool_decide (nhop = 2) then x_dim
  else -1.

(** The change of the tile number along the hops [hs]. *)
Definition hops_offset (x_dim : Z) (hs : list Z) : Z :=
  foldr (λ h acc, hop_delta x_dim h + acc) 0 hs.

(** ** noc_bridge_cl.py: the packets of [_packetize] *)

(** The words [_packetize] puts into the first packet before the payload:
    the number of bytes, and a zero word for the widths other than 8 and
    16. *)
Definition first_packet_words (width : Z) : Z :=
  if bool_decide (width = 8) || bool_decide (width = 16) then 1 else 2.

(** Every packet but the last holds [max_num_words] words, the last one
    between one and [max_num_words]. *)
Definition packets_filled (max_num_words : Z) (packed_payload : list (list Z))
    : Prop :=
  ∃ full lst, packed_payload = full ++ [lst]
    ∧ Forall (λ pkt, Z.of_nat (length pkt) = max_num_words) full
    ∧ 1 ≤ Z.of_nat (length lst) ≤ max_num_words.

(** ** noc_gateway.py: delivery *)

(** The gateway with the dictionary [cl_binds] replaced. *)
Definition gw_set_cl_binds (binds : list (Z * option bind)) (gw : NoCGateway)
    : NoCGateway :=
  mkNoCGateway (gw_x_dim gw) (gw_tile gw) (gw_dr_enabled gw)
    (gw_remote_enabled gw) (gw_nxt_cid gw) binds.

(** The calls of [receive] that [receive_event] makes, [None] when it does
    not return. *)
Definition deliveries (gw : NoCGateway) (payload : list Z)
    : option (list delivery) :=
  snd <$> receive_event gw payload.

(** One packet that is longer than [max_num_words]. *)
Definition one_long_packet (max_num_words : Z) (packed_payload : list (list Z))
    : Prop :=
  ∃ pkt, packed_payload = [pkt] ∧ max_num_words < Z.of_nat (length pkt).

(** * Properties *)

(** ** Subscripts *)

Lemma py_index_Some len i n :
  py_index len i = Some n →
  0 ≤ n < len ∧ (n = i ∨ n = len + i).
Proof. unfold py_index. repeat case_bool_decide; intros [= <-]; lia. Qed.

Lemma py_get_nonneg {A} (l : list A) i :
  0 ≤ i → py_get l i = l !! Z.to_nat i.
Proof.
  intros Hi. unfold py_get, py_index. case_bool_decide; [done|].
  rewrite bool_decide_false by lia. simpl. symmetry.
  apply lookup_ge_None. lia.
Qed.

Lemma py_get_last {A} (l : list A) : py_get l (-1) = last l.
Proof.
  unfold py_get, py_index. rewrite bool_decide_false by lia.
  destruct l as [|a l] using rev_ind.
  - done.
  - rewrite length_app. simpl. rewrite bool_decide_true by lia. simpl.
    rewrite last_snoc. rewrite lookup_app_r by lia.
    by replace (Z.to_nat _ - length l)%nat with 0%nat by lia.
Qed.

Lemma py_get_Some {A} (l : list A) i x :
  py_get l i = Some x →
  ∃ n, py_index (Z.of_nat (length l)) i = Some n ∧ l !! Z.to_nat n = Some x.
Proof.
  unfold py_get. destruct (py_index _ i) as [n|]; [|done]. simpl. eauto.
Qed.

(** ** Running a method *)

Lemma run_bind {S A B} (m : M S A) (f : A → M S B) s :
  (m ≫= f) s = match m s with Some (x, s') => f x s' | None => None end.
Proof. done. Qed.

Lemma run_bind_Some {S A B} (m : M S A) (f : A → M S B) s r s'' :
  (m ≫= f) s = Some (r, s'') ↔
  ∃ x s', m s = Some (x, s') ∧ f x s' = Some (r, s'').
Proof.
  rewrite run_bind. destruct (m s) as [[x s']|].
  - split; [by eauto|]. by intros (? & ? & [= <- <-] & ?).
  - split; [done|]. by intros (? & ? & ? & ?).
Qed.

Lemma run_ret {S A} (x : A) (s : S) : (mret x : M S A) s = Some (x, s).
Proof. done. Qed.

Lemma run_gets {S A} (f : S → A) s : gets f s = Some (f s, s).
Proof. done. Qed.

Lemma run_reads_Some {S A} (f : S → option A) s r s' :
  reads f s = Some (r, s') ↔ f s = Some r ∧ s' = s.
Proof.
  unfold reads. destruct (f s).
  - split; [by intros [= <- <-]|]. by intros [[= <-] ->].
  - split; [done|]. by intros [? _].
Qed.

Lemma run_modify {S} (f : S → S) s : modify f s = Some (tt, f s).
Proof. done. Qed.

Lemma run_result_of {S A} (m : M S A) s r :
  result_of m s = Some r → m s = Some (r, state_after m s).
Proof.
  unfold result_of, state_after. destruct (m s) as [[x s']|]; [|done].
  by intros [= ->].
Qed.

Lemma result_of_run {S A} (m : M S A) s r s' :
  m s = Some (r, s') → result_of m s = Some r.
Proof. unfold result_of. by intros ->. Qed.

Lemma state_after_run {S A} (m : M S A) s r s' :
  m s = Some (r, s') → state_after m s = s'.
Proof. unfold state_after. by intros ->. Qed.

Section preserves.
Context {S : Type} (R : relation S) `{!PreOrder R}.

Lemma preserves_ret {A} (x : A) : preserves R (mret x : M S A).
Proof. intros s r s' [= _ <-]. done. Qed.

Lemma preserves_raise {A} : preserves R (raise : M S A).
Proof. by intros s r s' ?. Qed.

Lemma preserves_gets {A} (f : S → A) : preserves R (gets f).
Proof. intros s r s' [= _ <-]. done. Qed.

Lemma preserves_reads {A} (f : S → option A) : preserves R (reads f).
Proof. intros s r s' [_ ->]%run_reads_Some. done. Qed.

Lemma preserves_modify (f : S → S) :
  (∀ s, R s (f s)) → preserves R (modify f).
Proof. intros Hf s r s' [= _ <-]. apply Hf. Qed.

Lemma preserves_bind {A B} (m : M S A) (f : A → M S B) :
  preserves R m → (∀ x, preserves R (f x)) → preserves R (m ≫= f).
Proof.
  intros Hm Hf s r s'' (x & s' & H1 & H2)%run_bind_Some.
  etrans; [by eapply Hm|by eapply Hf].
Qed.

Lemma preserves_if {A} (b : bool) (m1 m2 : M S A) :
  preserves R m1 → preserves R m2 → preserves R (if b then m1 else m2).
Proof. by destruct b. Qed.

Lemma preserves_for_each {A} (l : list A) (body : A → M S unit) :
  (∀ x, preserves R (body x)) → preserves R (for_each l body).
Proof.
  intros Hbody. induction l as [|x l IH]; simpl.
  - apply preserves_ret.
  - apply preserves_bind; [apply Hbody|done].
Qed.

Lemma preserves_gets_modify2 {A B} (f : S → A) (g : A → S → S) (h : S → S)
    (k : A → M S B) :
  (∀ s, R s (h (g (f s) s))) → (∀ x, preserves R (k x)) →
  preserves R (x ← gets f; _ ← modify (g x); _ ← modify h; k x).
Proof.
  intros Hgh Hk s r s' Hrun.
  apply run_bind_Some in Hrun as (x & s1 & [= <- <-] & Hrun).
  apply run_bind_Some in Hrun as ([] & s2 & [= <-] & Hrun).
  apply run_bind_Some in Hrun as ([] & s3 & [= <-] & Hrun).
  etrans; [apply Hgh|by eapply Hk].
Qed.

End preserves.

(** Steps of a proof that a method preserves a relation, along the
    structure of the method. *)
Ltac preserves_step :=
  lazymatch goal with
  | |- preserves _ (mret _) => apply preserves_ret; try apply _
  | |- preserves _ raise => apply preserves_raise
  | |- preserves _ (gets _) => apply preserves_gets; try apply _
  | |- preserves _ (reads _) => apply preserves_reads; try apply _
  | |- preserves _ (_ ≫= _) => apply preserves_bind; [try apply _| |intros ?]
  | |- preserves _ (for_each _ _) =>
      apply preserves_for_each; [try apply _|intros ?]
  | |- preserves _ (if _ then _ else _) => apply preserves_if
  | |- preserves _ (match ?x with _ => _ end) => destruct x
  | |- preserves _ (let _ := _ in _) => cbv zeta
  | |- read_only _ => unfold read_only
  end.

Section path_facts.
Context (x_dim : Z).

Lemma find_path_x_y_step cx cy dx dy path :
  find_path_x_y x_dim cx cy dx dy path =
  if decide (cx = dx ∧ cy = dy) then path ++ [x_dim * cy + cx]
  else find_path_x_y x_dim (next_x_y cx cy dx dy).1 (next_x_y cx cy dx dy).2 dx dy
         (path ++ [x_dim * cy + cx]).
Proof.
  unfold next_x_y. simp find_path_x_y.
  destruct (decide (cx = dx)); simpl; simp find_path_x_y.
  - destruct (decide (cy = dy)); simpl; simp find_path_x_y.
    + by rewrite decide_True.
    + rewrite decide_False by tauto.
      destruct (decide (cy < dy)); simpl; by simp find_path_x_y.
  - rewrite decide_False by tauto.
    destruct (decide (cx < dx)); simpl; by simp find_path_x_y.
Qed.

Lemma find_path_y_x_step cx cy dx dy path :
  find_path_y_x x_dim cx cy dx dy path =
  if decide (cx = dx ∧ cy = dy) then path ++ [x_dim * cy + cx]
  else find_path_y_x x_dim (next_y_x cx cy dx dy).1 (next_y_x cx cy dx dy).2 dx dy
         (path ++ [x_dim * cy + cx]).
Proof.
  unfold next_y_x. simp find_path_y_x.
  destruct (decide (cy = dy)); simpl; simp find_path_y_x.
  - destruct (decide (cx = dx)); simpl; simp find_path_y_x.
    + by rewrite decide_True.
    + rewrite decide_False by tauto.
      destruct (decide (cx < dx)); simpl; by simp find_path_y_x.
  - rewrite decide_False by tauto.
    destruct (decide (cy < dy)); simpl; by simp find_path_y_x.
Qed.

(** Induction on the number of steps left to the destination. *)
Lemma steps_left_ind (P : Z → Z → Prop) (dx dy : Z)
    (next : Z → Z → Z * Z) :
  (∀ cx cy, ¬ (cx = dx ∧ cy = dy) →
     Z.abs (dx - (next cx cy).1) + Z.abs (dy - (next cx cy).2)
     < Z.abs (dx - cx) + Z.abs (dy - cy)) →
  (∀ cx cy,
     (¬ (cx = dx ∧ cy = dy) → P (next cx cy).1 (next cx cy).2) → P cx cy) →
  ∀ cx cy, P cx cy.
Proof.
  intros Hdec Hstep cx cy.
  remember (Z.to_nat (Z.abs (dx - cx) + Z.abs (dy - cy))) as n eqn:Hn.
  revert cx cy Hn. induction (lt_wf n) as [n _ IH]. intros cx cy ->.
  apply Hstep. intros Hne. eapply IH; [|reflexivity].
  specialize (Hdec cx cy Hne). lia.
Qed.

Lemma next_x_y_closer dx dy : ∀ cx cy,
  ¬ (cx = dx ∧ cy = dy) →
  Z.abs (dx - (next_x_y cx cy dx dy).1) + Z.abs (dy - (next_x_y cx cy dx dy).2)
  < Z.abs (dx - cx) + Z.abs (dy - cy).
Proof. intros cx cy. unfold next_x_y. repeat case_decide; simpl; lia. Qed.

Lemma next_y_x_closer dx dy : ∀ cx cy,
  ¬ (cx = dx ∧ cy = dy) →
  Z.abs (dx - (next_y_x cx cy dx dy).1) + Z.abs (dy - (next_y_x cx cy dx dy).2)
  < Z.abs (dx - cx) + Z.abs (dy - cy).
Proof. intros cx cy. unfold next_y_x. repeat case_decide; simpl; lia. Qed.

Ltac steps_induction cx cy dx dy next closer :=
  revert cx cy;
  match goal with
  | |- ∀ cx cy, @?P cx cy =>
      apply (steps_left_ind P dx dy next (closer dx dy))
  end.

Lemma find_path_x_y_acc dx dy cx cy path :
  find_path_x_y x_dim cx cy dx dy path
  = path ++ find_path_x_y x_dim cx cy dx dy [].
Proof.
  revert path. steps_induction cx cy dx dy (λ cx cy, next_x_y cx cy dx dy) next_x_y_closer. intros cx cy IH path.
  rewrite (find_path_x_y_step _ _ _ _ []), (find_path_x_y_step _ _ _ _ path).
  case_decide as Hd; [done|].
  rewrite (IH Hd ([] ++ _)), (IH Hd (path ++ _)). by rewrite <- app_assoc.
Qed.

Lemma find_path_y_x_acc dx dy cx cy path :
  find_path_y_x x_dim cx cy dx dy path
  = path ++ find_path_y_x x_dim cx cy dx dy [].
Proof.
  revert path. steps_induction cx cy dx dy (λ cx cy, next_y_x cx cy dx dy) next_y_x_closer. intros cx cy IH path.
  rewrite (find_path_y_x_step _ _ _ _ []), (find_path_y_x_step _ _ _ _ path).
  case_decide as Hd; [done|].
  rewrite (IH Hd ([] ++ _)), (IH Hd (path ++ _)). by rewrite <- app_assoc.
Qed.

Lemma find_path_x_y_cons cx cy dx dy :
  find_path_x_y x_dim cx cy dx dy [] =
  (x_dim * cy + cx) ::
    (if decide (cx = dx ∧ cy = dy) then []
     else find_path_x_y x_dim (next_x_y cx cy dx dy).1 (next_x_y cx cy dx dy).2
            dx dy []).
Proof.
  rewrite find_path_x_y_step. case_decide; [done|].
  by rewrite find_path_x_y_acc.
Qed.

Lemma find_path_y_x_cons cx cy dx dy :
  find_path_y_x x_dim cx cy dx dy [] =
  (x_dim * cy + cx) ::
    (if decide (cx = dx ∧ cy = dy) then []
     else find_path_y_x x_dim (next_y_x cx cy dx dy).1 (next_y_x cx cy dx dy).2
            dx dy []).
Proof.
  rewrite find_path_y_x_step. case_decide; [done|].
  by rewrite find_path_y_x_acc.
Qed.

Lemma all_hops_cons R a b l :
  R a b → all_hops R (b :: l) → all_hops R (a :: b :: l).
Proof.
  intros Hab Hl [|i] x y; simpl; [naive_solver|]. apply Hl.
Qed.

Lemma all_hops_one R a : all_hops R [a].
Proof. intros [|[|i]] x y; simpl; done. Qed.

Lemma all_hops_mono (R R' : Z → Z → Prop) l :
  (∀ a b, R a b → R' a b) → all_hops R l → all_hops R' l.
Proof. intros HR Hl i a b Ha Hb. eauto. Qed.

Lemma all_hops_tail R a l : all_hops R (a :: l) → all_hops R l.
Proof. intros Hl i x y Hx Hy. by apply (Hl (S i)). Qed.

Lemma check_valid_path_all_hops path :
  all_hops (λ a b, valid_hop x_dim a b = true) path →
  check_valid_path x_dim path = true.
Proof.
  induction path as [|a [|b l] IH]; [done..|]. intros Hl.
  cbn [check_valid_path]. rewrite (Hl 0%nat a b) by done.
  apply IH. by eapply all_hops_tail.
Qed.

Lemma grid_hop_valid hr x0 x1 vc y0 y1 a b :
  grid_hop x_dim hr x0 x1 vc y0 y1 a b → valid_hop x_dim a b = true.
Proof.
  intros (x & y & x' & y' & -> & -> & H). unfold valid_hop.
  rewrite !orb_true_iff, !bool_decide_eq_true.
  destruct H as [(-> & -> & _ & _ & [-> | ->])|(-> & -> & _ & _ & [-> | ->])]; lia.
Qed.

Lemma find_path_x_y_hops dx dy cx cy :
  all_hops (grid_hop x_dim cy cx dx dx cy dy) (find_path_x_y x_dim cx cy dx dy []).
Proof.
  steps_induction cx cy dx dy (λ cx cy, next_x_y cx cy dx dy) next_x_y_closer. intros cx cy IH. rewrite find_path_x_y_cons.
  case_decide as Hd; [apply all_hops_one|]. specialize (IH Hd).
  rewrite find_path_x_y_cons in IH |- *.
  apply all_hops_cons.
  - exists cx, cy, (next_x_y cx cy dx dy).1, (next_x_y cx cy dx dy).2.
    split; [done|]. split; [done|]. clear IH.
    unfold next_x_y. repeat case_decide; simpl; lia.
  - eapply all_hops_mono; [|exact IH]. clear IH.
    intros a b (x & y & x' & y' & -> & -> & H). exists x, y, x', y'.
    split; [done|]. split; [done|]. revert H.
    unfold next_x_y. repeat case_decide; simpl; lia.
Qed.

Lemma find_path_y_x_hops dx dy cx cy :
  all_hops (grid_hop x_dim dy cx dx cx cy dy) (find_path_y_x x_dim cx cy dx dy []).
Proof.
  steps_induction cx cy dx dy (λ cx cy, next_y_x cx cy dx dy) next_y_x_closer. intros cx cy IH. rewrite find_path_y_x_cons.
  case_decide as Hd; [apply all_hops_one|]. specialize (IH Hd).
  rewrite find_path_y_x_cons in IH |- *.
  apply all_hops_cons.
  - exists cx, cy, (next_y_x cx cy dx dy).1, (next_y_x cx cy dx dy).2.
    split; [done|]. split; [done|]. clear IH.
    unfold next_y_x. repeat case_decide; simpl; lia.
  - eapply all_hops_mono; [|exact IH]. clear IH.
    intros a b (x & y & x' & y' & -> & -> & H). exists x, y, x', y'.
    split; [done|]. split; [done|]. revert H.
    unfold next_y_x. repeat case_decide; simpl; lia.
Qed.

Lemma find_path_x_y_last dx dy cx cy :
  last (find_path_x_y x_dim cx cy dx dy []) = Some (x_dim * dy + dx).
Proof.
  steps_induction cx cy dx dy (λ cx cy, next_x_y cx cy dx dy) next_x_y_closer. intros cx cy IH. rewrite find_path_x_y_cons.
  case_decide as Hd; [by destruct Hd as [-> ->]|]. specialize (IH Hd).
  rewrite find_path_x_y_cons in IH |- *. by rewrite last_cons_cons.
Qed.

Lemma find_path_y_x_last dx dy cx cy :
  last (find_path_y_x x_dim cx cy dx dy []) = Some (x_dim * dy + dx).
Proof.
  steps_induction cx cy dx dy (λ cx cy, next_y_x cx cy dx dy) next_y_x_closer. intros cx cy IH. rewrite find_path_y_x_cons.
  case_decide as Hd; [by destruct Hd as [-> ->]|]. specialize (IH Hd).
  rewrite find_path_y_x_cons in IH |- *. by rewrite last_cons_cons.
Qed.

(** Two grid hops between the same pair of node ids are both along the
    same row or both along the same column. *)
Lemma grid_hop_same hr x0 x1 vc y0 y1 hr' x0' x1' vc' y0' y1' a b :
  grid_hop x_dim hr x0 x1 vc y0 y1 a b →
  grid_hop x_dim hr' x0' x1' vc' y0' y1' a b →
  0 ≤ Z.min x0 x1 → Z.max x0 x1 < x_dim → 0 ≤ vc < x_dim →
  0 ≤ Z.min x0' x1' → Z.max x0' x1' < x_dim → 0 ≤ vc' < x_dim →
  (hr = hr' ∧ x0 ≠ x1 ∧ x0' ≠ x1') ∨ (vc = vc' ∧ y0 ≠ y1 ∧ y0' ≠ y1').
Proof.
  intros (x & y & x' & y' & -> & -> & H) (u & v & u' & v' & Ha & Hb & H') ??????.
  assert (Hinj : ∀ p q r s, 0 ≤ p < x_dim → 0 ≤ r < x_dim →
            x_dim * q + p = x_dim * s + r → p = r ∧ q = s).
  { intros p q r s Hp Hr Heq.
    assert (q = s) by nia. subst. lia. }
  assert (0 ≤ x < x_dim ∧ 0 ≤ x' < x_dim) as [??] by lia.
  assert (0 ≤ u < x_dim ∧ 0 ≤ u' < x_dim) as [??] by lia.
  apply Hinj in Ha as [-> ->]; [|done..].
  apply Hinj in Hb as [-> ->]; [|done..].
  lia.
Qed.

End path_facts.

Lemma no_common_hop_from (RA RB : Z → Z → Prop) A B :
  all_hops RA A → all_hops RB B → (∀ a b, RA a b → RB a b → False) →
  no_common_hop A B.
Proof.
  intros HA HB Hex i j a b Ha Hb Ha' Hb'.
  exact (Hex a b (HA i a b Ha Hb) (HB j a b Ha' Hb')).
Qed.

Lemma detour_in_range dim curr :
  2 ≤ dim → 0 ≤ curr < dim →
  let next := if detour_down dim curr then curr - 1 else curr + 1 in
  0 ≤ next < dim ∧ (next = curr - 1 ∨ next = curr + 1).
Proof.
  intros Hdim Hc. unfold detour_down.
  repeat case_bool_decide; simpl; lia.
Qed.

Lemma detour_down_closer_edge dim curr :
  (if detour_down dim curr then curr - 1 else curr + 1)
  = closer_edge_detour dim curr.
Proof.
  unfold detour_down, closer_edge_detour.
  repeat case_bool_decide; simpl; lia.
Qed.

Lemma node_coordinates x_dim n :
  0 < x_dim → n = x_dim * (n / x_dim) + n mod x_dim ∧ 0 ≤ n mod x_dim < x_dim.
Proof.
  intros Hx. split; [apply Z.div_mod; lia|apply Z.mod_pos_bound; lia].
Qed.

(** The alternative route in its three cases. *)
Lemma find_path_B_cases x_dim y_dim src dest :
  let cx := src mod x_dim in let cy := src / x_dim in
  let dx := dest mod x_dim in let dy := dest / x_dim in
  find_path_B x_dim y_dim src dest =
  if decide (cx ≠ dx ∧ cy ≠ dy) then find_path_y_x x_dim cx cy dx dy []
  else if decide (cx = dx ∧ cy = dy) then [x_dim * cy + cx]
  else if decide (cx = dx) then
    (x_dim * cy + cx) ::
      find_path_y_x x_dim (if detour_down x_dim cx then cx - 1 else cx + 1)
        cy dx dy []
  else
    (x_dim * cy + cx) ::
      find_path_x_y x_dim cx (if detour_down y_dim cy then cy - 1 else cy + 1)
        dx dy [].
Proof.
  intros cx cy dx dy. unfold find_path_B. fold cx cy dx dy.
  repeat (case_bool_decide || case_decide); simpl; try done; try tauto.
  all: first [by rewrite find_path_y_x_acc|by rewrite find_path_x_y_acc].
Qed.

(** C2 (amended): in every mesh with at least two columns, the two routes
    of two distinct nodes are valid paths from the source to the
    destination and have no directed hop in common. *)
Theorem find_paths_valid_and_disjoint (x_dim y_dim src dest : Z) :
  2 ≤ x_dim →
  0 ≤ src < x_dim * y_dim → 0 ≤ dest < x_dim * y_dim → src ≠ dest →
  routes_valid_and_disjoint x_dim y_dim src dest.
Proof.
  intros Hx Hsrc Hdest Hne. unfold routes_valid_and_disjoint.
  rewrite find_path_B_cases. unfold find_path_A.
  destruct (node_coordinates x_dim src) as [Es Hcx]; [lia|].
  destruct (node_coordinates x_dim dest) as [Ed Hdx]; [lia|].
  set (cx := src mod x_dim) in *. set (cy := src / x_dim) in *.
  set (dx := dest mod x_dim) in *. set (dy := dest / x_dim) in *.
  assert (Hpos : ¬ (cx = dx ∧ cy = dy)) by (intros [??]; congruence).
  pose proof (find_path_x_y_hops x_dim dx dy cx cy) as HA.
  assert (HheadA : head (find_path_x_y x_dim cx cy dx dy []) = Some src).
  { rewrite find_path_x_y_cons. simpl. by rewrite <- Es. }
  assert (HlastA : last (find_path_x_y x_dim cx cy dx dy []) = Some dest).
  { rewrite find_path_x_y_last. by rewrite <- Ed. }
  assert (HvalidA : check_valid_path x_dim (find_path_x_y x_dim cx cy dx dy []) = true).
  { apply check_valid_path_all_hops. eapply all_hops_mono; [|exact HA].
    intros a b. apply grid_hop_valid. }
  match goal with
  | |- _ ∧ ?vb ∧ _ ∧ _ ∧ ?hb ∧ ?lb ∧ ?nc => cut (hb ∧ lb ∧ nc ∧ vb); [tauto|]
  end.
  destruct (decide (cx ≠ dx ∧ cy ≠ dy)) as [[Hxne Hyne]|Hline].
  - (* neither a row nor a column in common: y-x routing *)
    pose proof (find_path_y_x_hops x_dim dx dy cx cy) as HB.
    split; [rewrite find_path_y_x_cons; simpl; by rewrite <- Es|].
    split; [rewrite find_path_y_x_last; by rewrite <- Ed|].
    split.
    + eapply no_common_hop_from; [exact HA|exact HB|].
      intros a b Ha Hb.
      destruct (grid_hop_same x_dim _ _ _ _ _ _ _ _ _ _ _ _ a b Ha Hb); lia.
    + apply check_valid_path_all_hops. eapply all_hops_mono; [|exact HB].
      intros a b. apply grid_hop_valid.
  - rewrite decide_False by done.
    destruct (decide (cx = dx)) as [Hxeq|Hxne].
    + (* same column: one step in x, then y-x routing *)
      destruct (detour_in_range x_dim cx) as [Hn Hn']; [lia..|].
      set (nx := if detour_down x_dim cx then cx - 1 else cx + 1) in *.
      pose proof (find_path_y_x_hops x_dim dx dy nx cy) as HB.
      assert (HB' : all_hops (λ a b, grid_hop x_dim cy cx nx cx cy cy a b
                                   ∨ grid_hop x_dim dy nx dx nx cy dy a b)
                ((x_dim * cy + cx) :: find_path_y_x x_dim nx cy dx dy [])).
      { rewrite find_path_y_x_cons in HB |- *. apply all_hops_cons.
        - left. exists cx, cy, nx, cy. repeat split; lia.
        - eapply all_hops_mono; [|exact HB]. intros a b ?. by right. }
      split; [simpl; by rewrite <- Es|].
      split.
      { rewrite find_path_y_x_cons, last_cons_cons, <- find_path_y_x_cons.
        rewrite find_path_y_x_last. by rewrite <- Ed. }
      split.
      * eapply no_common_hop_from; [exact HA|exact HB'|].
        intros a b Ha [Hb|Hb];
          destruct (grid_hop_same x_dim _ _ _ _ _ _ _ _ _ _ _ _ a b Ha Hb); lia.
      * apply check_valid_path_all_hops. eapply all_hops_mono; [|exact HB'].
        intros a b [?|?]; by eapply grid_hop_valid.
    + (* same row: one step in y, then x-y routing *)
      assert (cy = dy) as Hyeq by lia.
      set (ny := if detour_down y_dim cy then cy - 1 else cy + 1) in *.
      assert (Hn' : ny = cy - 1 ∨ ny = cy + 1)
        by (unfold ny; destruct (detour_down y_dim cy); lia).
      pose proof (find_path_x_y_hops x_dim dx dy cx ny) as HB.
      assert (HB' : all_hops (λ a b, grid_hop x_dim cy cx cx cx cy ny a b
                                   ∨ grid_hop x_dim ny cx dx dx ny dy a b)
                ((x_dim * cy + cx) :: find_path_x_y x_dim cx ny dx dy [])).
      { rewrite find_path_x_y_cons in HB |- *. apply all_hops_cons.
        - left. exists cx, cy, cx, ny. split; [done|]. split; [done|].
          right. lia.
        - eapply all_hops_mono; [|exact HB]. intros a b ?. by right. }
      split; [simpl; by rewrite <- Es|].
      split.
      { rewrite find_path_x_y_cons, last_cons_cons, <- find_path_x_y_cons.
        rewrite find_path_x_y_last. by rewrite <- Ed. }
      split.
      * eapply no_common_hop_from; [exact HA|exact HB'|].
        intros a b Ha [Hb|Hb];
          destruct (grid_hop_same x_dim _ _ _ _ _ _ _ _ _ _ _ _ a b Ha Hb); lia.
      * apply check_valid_path_all_hops. eapply all_hops_mono; [|exact HB'].
        intros a b [?|?]; by eapply grid_hop_valid.
Qed.

Lemma find_paths_valid_and_disjoint_witness :
  routes_valid_and_disjoint 3 3 3 7.
Proof. apply find_paths_valid_and_disjoint; lia. Defined.

(** C2 as stated fails in a mesh of one column: the detour leaves the mesh
    and comes back through the source, so the hop from 0 to 1 is on both
    routes. *)
Lemma find_paths_share_hop_1x2 :
  1 ≤ 1 ∧ 1 ≤ 2 ∧ 0 ≤ 0 < 1 * 2 ∧ 0 ≤ 1 < 1 * 2 ∧ 0 ≠ 1
  ∧ find_path_A 1 0 1 = [0; 1]
  ∧ find_path_B 1 2 0 1 = [0; -1; 0; 1]
  ∧ ¬ routes_valid_and_disjoint 1 2 0 1.
Proof.
  repeat (split; [done || lia|]).
  intros (_ & _ & _ & _ & _ & _ & H).
  by apply (H 0%nat 2%nat 0 1).
Qed.

(** C8 (amended): in a mesh with at least two rows and columns, when two
    distinct nodes share a column (a row), the second node of the
    alternative route lies in the same row (column) of the mesh, one column
    (row) away, on the side of the closer edge. *)
Theorem find_path_B_first_hop (x_dim y_dim src dest : Z) :
  2 ≤ x_dim → 2 ≤ y_dim →
  0 ≤ src < x_dim * y_dim → 0 ≤ dest < x_dim * y_dim → src ≠ dest →
  first_hop_detours closer_edge_detour x_dim y_dim src dest
  ∧ 0 ≤ closer_edge_detour x_dim (src mod x_dim) < x_dim
  ∧ 0 ≤ closer_edge_detour y_dim (src / x_dim) < y_dim
  ∧ closer_edge_detour x_dim (src mod x_dim) ≠ src mod x_dim
  ∧ closer_edge_detour y_dim (src / x_dim) ≠ src / x_dim.
Proof.
  intros Hx Hy Hsrc Hdest Hne.
  destruct (node_coordinates x_dim src) as [Es Hcx]; [lia|].
  destruct (node_coordinates x_dim dest) as [Ed Hdx]; [lia|].
  assert (0 ≤ src / x_dim < y_dim) as Hcy.
  { split; [apply Z.div_pos; lia|apply Z.div_lt_upper_bound; lia]. }
  rewrite <- !detour_down_closer_edge.
  destruct (detour_in_range x_dim (src mod x_dim)) as [? ?]; [lia..|].
  destruct (detour_in_range y_dim (src / x_dim)) as [? ?]; [lia..|].
  split; [|lia].
  unfold first_hop_detours. rewrite find_path_B_cases.
  rewrite <- !detour_down_closer_edge.
  split; intros Heq.
  - rewrite decide_False by tauto.
    rewrite decide_False by (intros [??]; congruence).
    rewrite decide_True by done. by rewrite find_path_y_x_cons.
  - rewrite decide_False by tauto.
    rewrite decide_False by (intros [??]; congruence).
    rewrite decide_False by (intros ?; congruence).
    by rewrite find_path_x_y_cons.
Qed.

Lemma find_path_B_first_hop_witness :
  first_hop_detours closer_edge_detour 5 2 3 8.
Proof. apply (find_path_B_first_hop 5 2 3 8); lia. Defined.

(** C8 as stated fails above the middle of a row: the detour of node 3 in a
    row of five goes to node 4, the larger index. *)
Lemma find_path_B_first_hop_larger_index :
  0 ≤ 3 < 5 * 2 ∧ 0 ≤ 8 < 5 * 2 ∧ 3 mod 5 = 8 mod 5
  ∧ find_path_B 5 2 3 8 = [3; 4; 9; 8]
  ∧ ¬ first_hop_detours spec_detour 5 2 3 8.
Proof.
  repeat (split; [done || lia|]).
  intros [H _]. specialize (H eq_refl). discriminate H.
Qed.

Lemma list_pair_ind {A} (P : list A → Prop) :
  P [] → (∀ a, P [a]) → (∀ a b l, P l → P (a :: b :: l)) → ∀ l, P l.
Proof.
  intros H0 H1 H2 l. cut (P l ∧ ∀ a, P (a :: l)); [tauto|].
  induction l as [|b l [IH1 IH2]]; split; auto.
Qed.

Section packetize_facts.
Context (max_num_words : Z).

Lemma append_to_last_concat packed w :
  packed ≠ [] → concat (append_to_last packed w) = concat packed ++ [w].
Proof.
  induction packed as [|pkt [|pkt' rest] IH]; intros Hne; [done| |].
  - simpl. by rewrite !app_nil_r.
  - change (append_to_last (pkt :: pkt' :: rest) w)
      with (pkt :: append_to_last (pkt' :: rest) w).
    cbn [concat]. rewrite IH by done. simpl. by rewrite app_assoc.
Qed.

Lemma append_to_last_nonempty packed w :
  packed ≠ [] → append_to_last packed w ≠ [].
Proof. by destruct packed as [|? [|??]]. Qed.

Lemma add_word_concat packed w :
  packed ≠ [] → concat (add_word max_num_words packed w) = concat packed ++ [w].
Proof.
  intros Hne. unfold add_word. case_bool_decide.
  - rewrite append_to_last_concat by (by destruct packed).
    rewrite concat_app. simpl. by rewrite !app_nil_r.
  - by apply append_to_last_concat.
Qed.

Lemma add_word_nonempty packed w :
  packed ≠ [] → add_word max_num_words packed w ≠ [].
Proof.
  intros Hne. unfold add_word. case_bool_decide.
  - apply append_to_last_nonempty. by destruct packed.
  - by apply append_to_last_nonempty.
Qed.

Lemma foldl_add_word_concat packed ws :
  packed ≠ [] →
  foldl (add_word max_num_words) packed ws ≠ []
  ∧ concat (foldl (add_word max_num_words) packed ws) = concat packed ++ ws.
Proof.
  revert packed. induction ws as [|w ws IH]; intros packed Hne; simpl.
  - by rewrite app_nil_r.
  - destruct (IH (add_word max_num_words packed w)) as [? ->];
      [by apply add_word_nonempty|].
    split; [done|]. rewrite add_word_concat by done. by rewrite <- app_assoc.
Qed.

Lemma pack_bytes_concat packed payload :
  packed ≠ [] →
  concat (pack_bytes max_num_words packed payload)
  = concat packed ++ byte_pairs payload.
Proof.
  revert packed. induction payload as [|v|lo hi rest IH] using list_pair_ind;
    intros packed Hne.
  - simpl. by rewrite app_nil_r.
  - simpl. by apply add_word_concat.
  - cbn [pack_bytes byte_pairs]. rewrite IH by (by apply add_word_nonempty).
    rewrite add_word_concat by done. by rewrite <- app_assoc.
Qed.

End packetize_facts.

(** Joining a low part of [n] bits with a high part shifted by [n]. *)
Lemma lor_shiftl_add lo hi n :
  0 ≤ n → 0 ≤ lo < 2 ^ n → Z.lor lo (Z.shiftl hi n) = lo + hi * 2 ^ n.
Proof.
  intros Hn Hlo.
  assert (Hland : Z.land lo (Z.shiftl hi n) = 0).
  { apply Z.bits_inj'. intros i Hi. rewrite Z.land_spec, Z.bits_0.
    destruct (decide (i < n)).
    - rewrite Z.shiftl_spec_low by lia. apply andb_false_r.
    - rewrite <- (Z.mod_small lo (2 ^ n)) by lia.
      rewrite Z.mod_pow2_bits_high by lia. done. }
  rewrite <- Z.lxor_lor by done. rewrite <- Z.add_nocarry_lxor by done.
  by rewrite Z.shiftl_mul_pow2.
Qed.

Lemma byte_pair_low lo hi :
  0 ≤ lo < 256 → 0 ≤ hi < 256 →
  Z.land (Z.lor (Z.shiftl hi 8) lo) 0xff = lo
  ∧ Z.land (Z.shiftr (Z.lor (Z.shiftl hi 8) lo) 8) 0xff = hi.
Proof.
  intros Hlo Hhi. rewrite Z.lor_comm, (lor_shiftl_add lo hi 8) by lia.
  change 0xff with (Z.ones 8). rewrite !Z.land_ones by lia.
  rewrite Z.shiftr_div_pow2 by lia. change (2 ^ 8) with 256.
  split.
  - rewrite Z.mod_add by lia. apply Z.mod_small; lia.
  - rewrite Z.div_add by lia. rewrite (Z.div_small lo) by lia.
    apply Z.mod_small; lia.
Qed.

Lemma word_pair_value v :
  0 ≤ v < 2 ^ 32 →
  Z.lor (Z.land (Z.shiftr v (0 * 16)) 0xffff)
        (Z.shiftl (Z.land (Z.shiftr v (1 * 16)) 0xffff) 16) = v.
Proof.
  intros Hv. change 0xffff with (Z.ones 16). rewrite !Z.land_ones by lia.
  rewrite !Z.shiftr_div_pow2 by lia. change (2 ^ (0 * 16)) with 1.
  change (2 ^ (1 * 16)) with 65536. change (2 ^ 16) with 65536.
  rewrite Z.div_1_r.
  rewrite lor_shiftl_add; [|lia|apply Z.mod_pos_bound; lia].
  change (2 ^ 16) with 65536.
  rewrite (Z.mod_small (v / 65536)).
  - pose proof (Z.div_mod v 65536 ltac:(lia)). lia.
  - split; [apply Z.div_pos; lia|apply Z.div_lt_upper_bound; lia].
Qed.

Lemma unpack_bytes_pairs payload :
  Forall (λ v, 0 ≤ v < 256) payload →
  (v ← byte_pairs payload; [Z.land v 0xff; Z.land (Z.shiftr v 8) 0xff])
  = payload ++ (if Nat.odd (length payload) then [0] else []).
Proof.
  induction payload as [|v|lo hi rest IH] using list_pair_ind; intros Hall.
  - done.
  - apply Forall_cons in Hall as [Hv _]. simpl.
    change 0xff with (Z.ones 8). rewrite !Z.land_ones by lia.
    rewrite Z.shiftr_div_pow2 by lia. change (2 ^ 8) with 256.
    rewrite Z.mod_small by lia. rewrite Z.div_small by lia. done.
  - apply Forall_cons in Hall as [Hlo Hall].
    apply Forall_cons in Hall as [Hhi Hall].
    cbn [byte_pairs]. rewrite bind_cons, IH by done.
    destruct (byte_pair_low lo hi Hlo Hhi) as [-> ->]. done.
Qed.

Lemma unpack_words32_pairs payload :
  Forall (λ v, 0 ≤ v < 2 ^ 32) payload →
  unpack_words32
    (v ← payload; value_words v)
  = Some payload.
Proof.
  induction payload as [|v rest IH]; intros Hall; [done|].
  apply Forall_cons in Hall as [Hv Hall].
  rewrite bind_cons. unfold value_words at 1. cbn [app unpack_words32].
  rewrite IH by done. simpl. by rewrite word_pair_value.
Qed.

Lemma foldl_pack_value_concat max_num_words packed payload :
  packed ≠ [] →
  concat (foldl (pack_value max_num_words 32) packed payload)
  = concat packed
    ++ (v ← payload; value_words v).
Proof.
  revert packed. induction payload as [|v rest IH]; intros packed Hne.
  - simpl. by rewrite app_nil_r.
  - cbn [foldl]. unfold pack_value at 2.
    change (seqZ 0 (32 / 16)) with [0; 1].
    destruct (foldl_add_word_concat max_num_words
                (add_word max_num_words packed (Z.land (Z.shiftr v (0 * 16)) 0xffff))
                []) as [_ _].
    { by apply add_word_nonempty. }
    cbn [foldl]. rewrite IH by (by do 2 apply add_word_nonempty).
    rewrite !add_word_concat by (by repeat apply add_word_nonempty).
    rewrite bind_cons. unfold value_words at 2. by rewrite <- !app_assoc.
Qed.

Lemma clamp_id maxval payload :
  Forall (λ v, 0 ≤ v ≤ maxval) payload →
  (λ v, if bool_decide (v > maxval) then maxval else v) <$> payload = payload.
Proof.
  induction 1 as [|v l Hv _ IH]; [done|]. cbn [fmap list_fmap].
  rewrite bool_decide_false by lia. by f_equal.
Qed.

(** The stream for each of the three widths. *)
Lemma flit_stream_8 noc_width maxlen payload :
  Forall (λ v, 0 ≤ v < 2 ^ 8) payload →
  flit_stream noc_width payload 8 maxlen
  = Z.of_nat (length payload) :: byte_pairs payload.
Proof.
  intros Hall. unfold flit_stream, _packetize. simpl.
  rewrite clamp_id by (eapply Forall_impl; [done|simpl; lia]).
  rewrite pack_bytes_concat by done. simpl.
  by rewrite Z.quot_mul by lia.
Qed.

Lemma flit_stream_16 noc_width maxlen payload :
  Forall (λ v, 0 ≤ v < 2 ^ 16) payload →
  flit_stream noc_width payload 16 maxlen
  = Z.of_nat (length payload) * 2 :: payload.
Proof.
  intros Hall. unfold flit_stream, _packetize. simpl.
  rewrite clamp_id by (eapply Forall_impl; [done|simpl; lia]).
  destruct (foldl_add_word_concat (maxlen * (noc_width / 16))
              [[Z.quot (Z.of_nat (length payload) * 16) 8]] payload) as [_ ->];
    [done|].
  simpl. f_equal.
  replace (Z.of_nat (length payload) * 16) with (Z.of_nat (length payload) * 2 * 8) by lia.
  by rewrite Z.quot_mul by lia.
Qed.

Lemma flit_stream_32 noc_width maxlen payload :
  flit_stream noc_width payload 32 maxlen
  = Z.of_nat (length payload) * 4 :: 0
    :: (v ← payload; value_words v).
Proof.
  unfold flit_stream, _packetize. simpl.
  rewrite foldl_pack_value_concat by done. simpl. f_equal.
  replace (Z.of_nat (length payload) * 32) with (Z.of_nat (length payload) * 4 * 8) by lia.
  by rewrite Z.quot_mul by lia.
Qed.

Lemma unpack_tdm_8 l :
  _unpack_payload l TDM 8
  = Some (v ← l; [Z.land v 0xff; Z.land (Z.shiftr v 8) 0xff]).
Proof. reflexivity. Qed.

Lemma unpack_tdm_16 l : _unpack_payload l TDM 16 = Some l.
Proof. reflexivity. Qed.

Lemma unpack_tdm_32 l :
  _unpack_payload l TDM 32 = (u ← unpack_words32 l; Some u).
Proof. reflexivity. Qed.

(** C5 (amended): what unpacking the stream of [_packetize] gives at the
    three widths, for the payload lengths of the specification.  At widths
    16 and 32 it is the byte count followed by the values.  At width 8 the
    byte count comes as two bytes, low byte first, and an odd number of
    values is followed by a zero byte. *)
Theorem packetize_unpack (noc_width maxlen width : Z) (payload : list Z) :
  width ∈ [8; 16; 32] →
  length payload ∈ [0; 1; 2; 9; 17]%nat →
  Forall (λ v, 0 ≤ v < 2 ^ width) payload →
  _unpack_payload (flit_stream noc_width payload width maxlen) TDM width
  = Some (if bool_decide (width = 8)
          then Z.of_nat (length payload) :: 0 :: payload
               ++ (if Nat.odd (length payload) then [0] else [])
          else Z.of_nat (length payload) * (width / 8) :: payload).
Proof.
  intros Hw Hlen Hall.
  assert (Hsmall : 0 ≤ Z.of_nat (length payload) < 256).
  { set_unfold in Hlen. lia. }
  set_unfold in Hw. destruct Hw as [->|[->|[->|[]]]].
  - rewrite flit_stream_8, unpack_tdm_8 by done.
    rewrite bind_cons, unpack_bytes_pairs by done.
    change 0xff with (Z.ones 8). rewrite !Z.land_ones by lia.
    rewrite Z.shiftr_div_pow2 by lia. change (2 ^ 8) with 256.
    rewrite Z.mod_small by lia. rewrite Z.div_small by lia. done.
  - by rewrite flit_stream_16, unpack_tdm_16.
  - rewrite flit_stream_32, unpack_tdm_32. cbn [unpack_words32].
    rewrite unpack_words32_pairs by done. simpl. do 3 f_equal.
    rewrite Z.shiftl_mul_pow2 by lia. simpl. apply Z.lor_0_r.
Qed.

Lemma packetize_unpack_witness :
  _unpack_payload (flit_stream 32 [5; 6] 8 4) TDM 8 = Some [2; 0; 5; 6].
Proof.
  apply (packetize_unpack 32 4 8 [5; 6]).
  - set_solver.
  - set_solver.
  - repeat constructor; lia.
Defined.

(** C5 as stated fails at width 8: one value 5 comes back as the four
    values 1, 0, 5, 0.  Read as a BE packet, the stream loses its first two
    words to the header. *)
Lemma packetize_unpack_one_byte :
  8 ∈ [8; 16; 32] ∧ length [5] ∈ [0; 1; 2; 9; 17]%nat ∧ 0 ≤ 5 < 2 ^ 8
  ∧ flit_stream 32 [5] 8 4 = [1; 5]
  ∧ _unpack_payload [1; 5] TDM 8 = Some [1; 0; 5; 0]
  ∧ ¬ roundtrip_exact TDM 32 [5] 8 4
  ∧ ¬ roundtrip_exact BE 32 [5] 8 4.
Proof.
  split; [set_solver|]. split; [set_solver|]. split; [lia|].
  repeat split; try done; intros H; discriminate H.
Qed.

Lemma field_ok_spec field v :
  field_ok field v = true ↔ ∀ x, field = Some x → x = v.
Proof.
  destruct field as [y|]; simpl; [|by split].
  rewrite bool_decide_eq_true. split; [by intros -> ? [= <-]|]. intros H. by apply H.
Qed.

Lemma client_selected_spec b type ep pkt_class src :
  client_selected b type ep pkt_class src = true
  ↔ code_accepts b type ep pkt_class src.
Proof.
  unfold client_selected, code_accepts, filter_matches.
  destruct (b_type b) as [[t f]|]; [|done].
  repeat case_bool_decide; rewrite ?andb_true_iff, ?field_ok_spec; naive_solver.
Qed.

(** [_unpack_payload] does not raise on the payload that [receive_event]
    passes: an even number of words, at least two. *)
Lemma unpack_words32_even l :
  Nat.even (length l) = true → is_Some (unpack_words32 l).
Proof.
  induction l as [|v|lo hi rest IH] using list_pair_ind; simpl; intros Hl;
    [done..|].
  destruct IH as [u ->]; [done|]. by eexists.
Qed.

Lemma unpack_payload_total payload_lst type width :
  Nat.even (length payload_lst) = true → (2 ≤ length payload_lst)%nat →
  is_Some (_unpack_payload payload_lst type width).
Proof.
  intros Heven Hlen. destruct payload_lst as [|p0 [|p1 rest]]; simpl in Hlen;
    [lia..|].
  unfold _unpack_payload. case_bool_decide; [done|].
  rewrite !py_get_nonneg by lia.
  assert (is_Some (unpack_words32 rest)) as [u Hu]
    by (by apply unpack_words32_even).
  assert (is_Some (unpack_words32 (p0 :: p1 :: rest))) as [u' Hu']
    by (by apply unpack_words32_even).
  destruct (bool_decide (type = BE));
    cbn -[unpack_words32 Z.mul Z.shiftl Z.lor Z.land Z.modulo];
    repeat case_bool_decide; try done.
  - simpl. rewrite drop_0, Hu. done.
  - rewrite Hu'. done.
Qed.

Lemma deliver_serves type ep pkt_class src payload_lst binds :
  Nat.even (length payload_lst) = true → (2 ≤ length payload_lst)%nat →
  Forall (λ kv : Z * option bind, is_Some kv.2) binds →
  let ds := deliver type ep pkt_class src payload_lst binds in
  sublist (d_client <$> ds) binds.*1
  ∧ (∀ cl, cl ∈ d_client <$> ds ↔
       ∃ b, (cl, Some b) ∈ binds ∧ code_accepts b type ep pkt_class src)
  ∧ Forall (λ d, d_type d = type ∧ d_ep d = ep
                 ∧ ∃ b, (d_client d, Some b) ∈ binds
                        ∧ _unpack_payload payload_lst type (b_width b)
                          = Some (d_payload d)) ds.
Proof.
  intros Heven Hlen. induction 1 as [|[cl [b|]] binds Hb Hall IH];
    [| |by destruct Hb].
  - simpl. split; [done|]. split; [|done]. intros cl. set_solver.
  - destruct IH as (IH1 & IH2 & IH3). cbn [deliver].
    destruct (unpack_payload_total payload_lst type (b_width b)) as [u Hu];
      [done..|].
    rewrite Hu.
    pose proof (client_selected_spec b type ep pkt_class src) as Hacc_b.
    destruct (client_selected b type ep pkt_class src) eqn:Hsel.
    + cbn [fmap list_fmap d_client]. split; [by apply sublist_skip|].
      split.
      * intros cl'. rewrite elem_of_cons, IH2. split.
        -- intros [->|(b' & Hin & Hacc)].
           ++ exists b. split; [left|by apply Hacc_b].
           ++ exists b'. split; [by right|done].
        -- intros (b' & Hin & Hacc). apply elem_of_cons in Hin as [Heq|Hin].
           ++ left. congruence.
           ++ right. eauto.
      * constructor.
        -- simpl. split; [done|]. split; [done|]. exists b. split; [left|done].
        -- eapply Forall_impl; [exact IH3|]. simpl.
           intros d (? & ? & b' & ? & ?). split; [done|]. split; [done|].
           exists b'. split; [by right|done].
    + split; [by apply sublist_cons|]. split.
      * intros cl'. rewrite IH2. split.
        -- intros (b' & Hin & Hacc). exists b'. split; [by right|done].
        -- intros (b' & Hin & Hacc). apply elem_of_cons in Hin as [Heq|Hin].
           ++ assert (b' = b) as -> by congruence.
              apply Hacc_b in Hacc. done.
           ++ eauto.
      * eapply Forall_impl; [exact IH3|]. simpl.
        intros d (? & ? & b' & ? & ?). split; [done|]. split; [done|].
        exists b'. split; [by right|done].
Qed.

(** C6 (amended): for a well-formed data packet and a gateway whose
    registered clients are all bound, [receive_event] serves exactly the
    clients whose bind has no filter for the type of the packet, or has one
    that matches the packet in every field it has. *)
Theorem receive_event_serves (gw : NoCGateway) (payload : list Z)
    (src ep : Z) :
  (3 ≤ length payload)%nat → (Z.of_nat (length payload) - 1) mod 2 = 0 →
  Forall (λ kv : Z * option bind, is_Some kv.2) (gw_cl_binds gw) →
  (pkt_type payload = BE →
     pkt_source gw payload = Found src ep ∧ pkt_class payload ≠ CTRL_MSG) →
  (pkt_type payload ≠ BE → ep = pkt_ep payload) →
  serves_accepted code_accepts gw payload
    (pkt_type payload) ep (pkt_class payload) src.
Proof.
  intros Hlen Hodd Hbound Hbe Htdm.
  assert (Nat.even (length (drop 1 payload)) = true ∧ (2 ≤ length (drop 1 payload))%nat)
    as [Heven Hlen'].
  { rewrite length_drop. split; [|lia].
    apply Nat.even_spec. destruct (Nat.Even_or_Odd (length payload - 1)) as [|[k Hk]]; [done|].
    exfalso. replace (Z.of_nat (length payload) - 1) with (2 * Z.of_nat k + 1) in Hodd by lia.
    rewrite Z.add_comm, Z.mul_comm, Z.mod_add in Hodd by lia. done. }
  unfold serves_accepted, receive_event.
  rewrite bool_decide_false by lia. rewrite bool_decide_false by (by intros []).
  assert (pkt_type payload = BE ∨ pkt_type payload = TDM) as [Ht|Ht].
  { unfold pkt_type. set (x := Z.shiftr _ 15).
    change (Z.land x 1) with (Z.land x (Z.ones 1)).
    rewrite Z.land_ones by lia. change (2 ^ 1) with 2.
    pose proof (Z.mod_pos_bound x 2 ltac:(lia)). unfold BE, TDM. lia. }
  - destruct (Hbe Ht) as [-> Hclass]. rewrite Ht.
    rewrite bool_decide_true by done. rewrite bool_decide_false by done.
    eexists. split; [done|]. by apply deliver_serves.
  - rewrite Ht. rewrite bool_decide_false by done.
    rewrite <- (Htdm ltac:(by rewrite Ht)).
    eexists. split; [done|].
    destruct (deliver_serves TDM ep 0 0 (drop 1 payload) (gw_cl_binds gw))
      as (H1 & H2 & H3); [done..|].
    split; [done|]. split; [|done].
    intros cl. rewrite H2. unfold code_accepts, filter_matches.
    split; intros (b & ? & Hacc); exists b; (split; [done|]);
      destruct (b_type b) as [[t f]|]; naive_solver.
Qed.

Lemma receive_event_serves_witness :
  serves_accepted code_accepts two_client_gateway [0; 0; 0] BE 0 0 0.
Proof.
  apply (receive_event_serves two_client_gateway [0; 0; 0] 0 0).
  - simpl. lia.
  - reflexivity.
  - repeat constructor; by eexists.
  - intros _. split; [reflexivity|]. by vm_compute.
  - intros H. by destruct H.
Defined.

(** C6 as stated fails for a client bound to the other type: the BE packet
    is handed to client 0, which is bound to TDM. *)
Lemma receive_event_serves_other_type :
  pkt_type [0; 0; 0] = BE ∧ pkt_class [0; 0; 0] ≠ CTRL_MSG
  ∧ receive_event two_client_gateway [0; 0; 0]
    = Some (two_client_gateway,
            [mkDelivery 0 BE 0 [0] (Some 0); mkDelivery 1 BE 0 [0] (Some 0)])
  ∧ ¬ serves_accepted spec_accepts two_client_gateway [0; 0; 0] BE 0 0 0.
Proof.
  assert (Hrun0 : receive_event two_client_gateway [0; 0; 0]
    = Some (two_client_gateway,
            [mkDelivery 0 BE 0 [0] (Some 0); mkDelivery 1 BE 0 [0] (Some 0)]))
    by reflexivity.
  split; [done|]. split; [by vm_compute|]. split; [done|].
  intros (ds & Hrun & _ & Hiff & _).
  rewrite Hrun0 in Hrun. injection Hrun as <-.
  destruct (proj1 (Hiff 0)) as (b & Hin & Hacc); [by left|].
  simpl in Hin. apply elem_of_cons in Hin as [[= ->]|Hin].
  - destruct Hacc as [Hty _]. discriminate Hty.
  - apply elem_of_cons in Hin as [[=]|Hin]. by apply elem_of_nil in Hin.
Qed.

(** Decomposing a run that returns. *)
Ltac run_inv :=
  repeat match goal with
  | H : (_ ≫= _) _ = Some _ |- _ =>
      let H1 := fresh "Hrun" in
      apply run_bind_Some in H as (? & ? & H1 & H)
  | H : mret _ _ = Some _ |- _ => rewrite run_ret in H
  | H : gets _ _ = Some _ |- _ => rewrite run_gets in H
  | H : modify _ _ = Some _ |- _ => rewrite run_modify in H
  | H : reads _ _ = Some _ |- _ => apply run_reads_Some in H as [H ?]
  | H : raise _ = Some _ |- _ => discriminate H
  | H : None = Some _ |- _ => discriminate H
  | H : false = true |- _ => discriminate H
  | H : true = false |- _ => discriminate H
  | H : Some _ = Some _ |- _ => injection H as H
  | H : (_, _) = (_, _) |- _ => injection H as ??
  | _ => progress subst
  end.

Lemma table_entry_read_only node ni port slot :
  read_only (table_entry node ni port slot).
Proof. unfold table_entry, node_ep. repeat preserves_step. Qed.

Lemma check_path_hops_read_only link rest slot :
  read_only (check_path_hops link rest slot).
Proof.
  revert slot. induction rest as [|c_node rest IH]; intros slot; simpl.
  - repeat preserves_step.
  - repeat (preserves_step || apply table_entry_read_only || apply IH).
Qed.

Lemma check_path_insane_read_only path start_slot link ep_src ep_dest :
  read_only (check_path_insane path start_slot link ep_src ep_dest).
Proof. unfold check_path_insane. repeat preserves_step. Qed.

Lemma check_path_read_only path start_slot link ep_src ep_dest :
  read_only (check_path path start_slot link ep_src ep_dest).
Proof.
  unfold check_path.
  repeat (preserves_step || apply table_entry_read_only
          || apply check_path_hops_read_only
          || apply check_path_insane_read_only).
Qed.

Lemma get_free_slots_from_read_only path ep_src ep_dest link numslots slots acc :
  read_only (get_free_slots_from path ep_src ep_dest link numslots slots acc).
Proof.
  revert acc. induction slots as [|slot rest IH]; intros acc; simpl.
  - repeat preserves_step.
  - repeat (preserves_step || apply check_path_read_only || apply IH).
Qed.

Lemma get_free_slots_read_only path ep_src ep_dest link numslots :
  read_only (get_free_slots path ep_src ep_dest link numslots).
Proof.
  unfold get_free_slots.
  repeat (preserves_step || apply get_free_slots_from_read_only).
Qed.

Lemma get_free_ep_read_only node out : read_only (get_free_ep node out).
Proof. unfold get_free_ep. repeat preserves_step. Qed.

Lemma node_ep_read_only node ep : read_only (node_ep node ep).
Proof. unfold table_entry, node_ep. repeat preserves_step. Qed.

(** C9: [check_path], [get_free_slots] and [get_free_ep] leave the whole
    state of [TDMinfo], the endpoint table and every entry of the slot
    tables, as it was, for all arguments. *)
Theorem tdm_queries_leave_state (ti : TDMinfo) :
  (∀ path start_slot link ep_src ep_dest,
     match check_path path start_slot link ep_src ep_dest ti with
     | Some (_, ti') => ti' = ti
     | None => True
     end)
  ∧ (∀ path ep_src ep_dest link numslots,
       match get_free_slots path ep_src ep_dest link numslots ti with
       | Some (_, ti') => ti' = ti
       | None => True
       end)
  ∧ (∀ node out,
       match get_free_ep node out ti with
       | Some (_, ti') => ti' = ti
       | None => True
       end).
Proof.
  split; [|split]; intros.
  - destruct (check_path _ _ _ _ _ ti) as [[r ti']|] eqn:Hrun; [|done].
    symmetry. by eapply check_path_read_only.
  - destruct (get_free_slots _ _ _ _ _ ti) as [[r ti']|] eqn:Hrun; [|done].
    symmetry. by eapply get_free_slots_read_only.
  - destruct (get_free_ep _ _ ti) as [[r ti']|] eqn:Hrun; [|done].
    symmetry. by eapply get_free_ep_read_only.
Qed.

Lemma table_entry_run node ni port slot ti e ti' :
  table_entry node ni port slot ti = Some (e, ti') ↔
  entry_at ti (node, ni, port, slot) = Some e ∧ ti' = ti.
Proof. unfold table_entry. by rewrite run_reads_Some. Qed.

(** The state after a query is the state before it. *)
Ltac same_state H lem :=
  match type of H with
  | _ ?s = Some (_, ?s') =>
      is_var s'; tryif constr_eq s s' then fail else
        assert (s' = s) as -> by (symmetry; eapply lem; exact H)
  end.

Ltac ti_inv :=
  repeat (run_inv; try match goal with
  | H : table_entry _ _ _ _ _ = Some _ |- _ =>
      apply table_entry_run in H as [H ->]
  | H : check_path_insane _ _ _ _ _ _ = Some (_, ?s') |- _ =>
      same_state H check_path_insane_read_only
  | H : check_path_hops _ _ _ _ = Some (_, ?s') |- _ =>
      same_state H check_path_hops_read_only
  | H : check_path _ _ _ _ _ _ = Some (_, ?s') |- _ =>
      same_state H check_path_read_only
  | H : get_free_slots_from _ _ _ _ _ _ _ _ = Some (_, ?s') |- _ =>
      same_state H get_free_slots_from_read_only
  | H : get_free_slots _ _ _ _ _ _ = Some (_, ?s') |- _ =>
      same_state H get_free_slots_read_only
  | H : get_free_ep _ _ _ = Some (_, ?s') |- _ =>
      same_state H get_free_ep_read_only
  | H : node_ep _ _ _ = Some (_, ?s') |- _ =>
      same_state H node_ep_read_only
  end).

Lemma empty_entry (e : slot_entry) : e.1 = EMPTY → e = (EMPTY, e.2).
Proof. destruct e as [cfg pid]. simpl. by intros ->. Qed.

Lemma check_path_hops_free link rest slot ti slot' ti' :
  check_path_hops link rest slot ti = Some ((true, slot'), ti') →
  let r := hop_subscripts (ti_x_dim ti) (ti_slot_table_size ti) link rest slot in
  slot' = r.2 ∧ all_empty ti r.1.
Proof.
  revert slot. induction rest as [|c_node rest IH]; intros slot Hrun.
  - simpl in *. run_inv. split; [done|constructor].
  - cbn [check_path_hops] in Hrun. ti_inv.
    match goal with
    | He : entry_at _ _ = Some ?e |- _ =>
        case_bool_decide as Hne; [by run_inv|];
        apply empty_entry in Hne; rewrite Hne in He
    end.
    apply IH in Hrun as [-> Hall]. cbn [hop_subscripts]. split; [done|].
    constructor; [by eexists|done].
Qed.

(** What [check_path] has found when it returns [True]. *)
Lemma check_path_free ti path link ep_src ep_dest slot :
  path_free ti path link ep_src ep_dest slot →
  path ≠ []
  ∧ all_empty ti (path_subscripts (ti_x_dim ti) (ti_slot_table_size ti) path link slot)
  ∧ check_path_insane path slot link ep_src ep_dest ti = Some (false, ti).
Proof.
  unfold path_free, check_path. intros Hrun. ti_inv.
  match goal with
  | H : (if ?b then _ else _) _ = Some (?r, _) |- _ =>
      destruct r as [free slot']; destruct b eqn:Hfree; ti_inv
  end.
  2: { case_bool_decide; ti_inv. }
  case_bool_decide as He1; [by ti_inv|]. ti_inv.
  match goal with
  | H : (if ?insane then _ else _) = true |- _ =>
      destruct insane; [done|]; apply bool_decide_eq_true in H as He0
  end.
  match goal with
  | H : check_path_hops _ _ _ _ = Some _ |- _ =>
      apply check_path_hops_free in H as [-> Hall]
  end.
  match goal with
  | H0 : py_get path 0 = Some ?p0, H1 : py_get path (-1) = Some ?p1,
    E0 : entry_at _ (?p0, _, _, _) = Some ?e0,
    E1 : entry_at _ (?p1, _, _, _) = Some ?e1 |- _ =>
      rewrite py_get_nonneg in H0 by lia; rewrite py_get_last in H1;
      change (path !! Z.to_nat 0) with (path !! 0%nat) in H0;
      rewrite <- head_lookup in H0;
      apply empty_entry in He0; apply empty_entry in He1;
      rewrite He0 in E0; rewrite He1 in E1;
      split; [by destruct path|]; split; [|done];
      unfold path_subscripts; rewrite H0, H1;
      constructor; [by eexists|];
      apply Forall_app; split; [done|];
      constructor; [by eexists|constructor]
  end.
Qed.

Section get_free_slots_facts.
Context (ti : TDMinfo) (path : list Z) (ep_src ep_dest link numslots : Z).

Local Abbreviation free_b := (slot_is_free ti path link ep_src ep_dest).
Local Abbreviation scan := (get_free_slots_from path ep_src ep_dest link numslots).

Lemma check_path_slot_is_free slot avail ti' :
  check_path path slot link ep_src ep_dest ti = Some (avail, ti') →
  ti' = ti ∧ free_b slot = avail.
Proof.
  intros Hrun. ti_inv. split; [done|]. unfold slot_is_free. rewrite Hrun.
  by destruct avail.
Qed.

Lemma slot_is_free_path_free slot :
  free_b slot = true ↔ path_free ti path link ep_src ep_dest slot.
Proof.
  unfold slot_is_free, path_free.
  destruct (check_path _ _ _ _ _ ti) as [[[] ti']|] eqn:Hrun; ti_inv;
    split; congruence.
Qed.

(** The loop returns nothing or a list of the requested length that
    extends the slots found so far by free slots, in their order. *)
Lemma get_free_slots_from_shape slots acc r ti' :
  scan slots acc ti = Some (r, ti') →
  r = [] ∨ (Z.of_nat (length r) = numslots
            ∧ ∃ k, r = acc ++ take k (filter (λ s, free_b s = true) slots)).
Proof.
  revert acc. induction slots as [|slot rest IH]; intros acc Hrun.
  - simpl in Hrun. run_inv. by left.
  - cbn [get_free_slots_from] in Hrun.
    apply run_bind_Some in Hrun as (avail & ti1 & Hc & Hrun).
    apply check_path_slot_is_free in Hc as [-> <-].
    rewrite filter_cons. destruct (free_b slot) eqn:Hfree.
    + rewrite decide_True by done. case_bool_decide as Hlen; run_inv.
      * right. split; [done|]. by exists 1%nat.
      * apply IH in Hrun as [->|[Hr [k ->]]]; [by left|]. right.
        split; [done|]. exists (S k). by rewrite <- app_assoc.
    + rewrite decide_False by done. case_bool_decide as Hlen; run_inv.
      * right. split; [done|]. exists 0%nat. by rewrite take_0, app_nil_r.
      * apply IH in Hrun as [->|[Hr [k ->]]]; [by left|]. right.
        split; [done|]. by exists k.
Qed.



End get_free_slots_facts.




Global Instance ids_advance_preorder : PreOrder ids_advance.
Proof.
  split.
  - intros c. unfold ids_advance. repeat split; try lia; auto.
  - intros c1 c2 c3 (?&?&Hp&Hc) (?&?&Hp'&Hc'). repeat split; try lia.
    + intros pid Hin. destruct (Hp' pid Hin) as [Hin'|]; [|right; lia].
      destruct (Hp pid Hin'); [by left|right; lia].
    + intros chid Hin. destruct (Hc' chid Hin) as [Hin'|]; [|right; lia].
      destruct (Hc chid Hin'); [by left|right; lia].
Qed.

Global Instance same_on_preorder {S B} (f : S → B) : PreOrder (same_on f).
Proof. split; [by intros ?|]. intros ??? H1 H2. unfold same_on in *. congruence. Qed.

Lemma on_tdm_info_run {A} (m : M TDMinfo A) c r c' :
  on_tdm_info m c = Some (r, c') ↔
  ∃ ti', m (cm_tdm_info c) = Some (r, ti') ∧ c' = cm_set_tdm_info ti' c.
Proof.
  unfold on_tdm_info. destruct (m (cm_tdm_info c)) as [[x ti]|].
  - split; [intros [= <- <-]; by eauto|]. by intros (? & [= <- <-] & ->).
  - split; [done|]. by intros (? & ? & ?).
Qed.

Lemma cm_set_tdm_info_same c : cm_set_tdm_info (cm_tdm_info c) c = c.
Proof. by destruct c. Qed.

Lemma on_tdm_info_read_only {A} (m : M TDMinfo A) :
  read_only m → read_only (on_tdm_info m).
Proof.
  intros Hm c r c' (ti' & Hrun & ->)%on_tdm_info_run.
  apply Hm in Hrun as <-. by rewrite cm_set_tdm_info_same.
Qed.

Lemma preserves_on_tdm_info {A} (R : relation CtrlModClient) (m : M TDMinfo A) :
  (∀ c ti, R c (cm_set_tdm_info ti c)) → preserves R (on_tdm_info m).
Proof. intros HR c r c' (ti' & Hrun & ->)%on_tdm_info_run. apply HR. Qed.

(** One step of a proof that a method of the client preserves a relation
    that does not look at [tdm_info] and at the packets sent. *)
Ltac ctrl_step :=
  first
    [ preserves_step
    | apply preserves_on_tdm_info; intros [] ?; done
    | apply preserves_modify; intros []; done ].

Section ctrl_frames.
Context (R : relation CtrlModClient) `{!PreOrder R}.
Context (Hinfo : ∀ c ti, R c (cm_set_tdm_info ti c)).
Context (Hsent : ∀ c l, R c (cm_set_sent l c)).

Lemma preserves_event_send sub_mod words : preserves R (event_send sub_mod words).
Proof. apply preserves_modify. intros c. apply Hsent. Qed.

Lemma preserves_configure_slot_table node port slot config pid ni :
  preserves R (_configure_slot_table node port slot config pid ni).
Proof.
  unfold _configure_slot_table. cbv zeta. apply preserves_bind; [done| |intros ?].
  - apply preserves_event_send.
  - by apply preserves_on_tdm_info.
Qed.

Lemma preserves_write_path_hops clear pid link rest currslot in_port :
  preserves R (write_path_hops clear pid link rest currslot in_port).
Proof.
  revert currslot in_port. induction rest as [|c_node rest IH];
    intros currslot in_port; simpl.
  - by apply preserves_ret.
  - repeat (preserves_step || apply preserves_configure_slot_table || apply IH).
Qed.

Lemma preserves_write_path_slot clear pid path link ep_src ep_dest slot :
  preserves R (write_path_slot clear pid path link ep_src ep_dest slot).
Proof.
  unfold write_path_slot.
  repeat (preserves_step || apply preserves_configure_slot_table
          || apply preserves_write_path_hops).
Qed.

Lemma preserves_configure_ep_link node ep link enable :
  preserves R (_configure_ep_link node ep link enable).
Proof. apply preserves_event_send. Qed.

Context (Hnewp : ∀ c tp,
  R c (cm_set_nxt_pid (cm_nxt_pid c + 1)
         (cm_set_tdm_paths (<[cm_nxt_pid c := tp]> (cm_tdm_paths c)) c))).
Context (Hdelp : ∀ c pid,
  R c (cm_set_tdm_paths (delete pid (cm_tdm_paths c)) c)).

Lemma preserves_configure_tdm_path path start_slots ep_src ep_dest link :
  preserves R (_configure_tdm_path path start_slots ep_src ep_dest link).
Proof.
  unfold _configure_tdm_path.
  apply (preserves_gets_modify2 R cm_nxt_pid
           (λ pid c, cm_set_tdm_paths (<[pid := _]> (cm_tdm_paths c)) c)
           (λ c, cm_set_nxt_pid (cm_nxt_pid c + 1) c)).
  - intros c. exact (Hnewp c _).
  - intros pid.
    repeat (preserves_step || apply preserves_write_path_slot
            || apply preserves_configure_ep_link).
Qed.

Lemma preserves_clear_tdm_path pid : preserves R (_clear_tdm_path pid).
Proof.
  unfold _clear_tdm_path. apply preserves_bind; [done|by apply preserves_gets|].
  intros tp. destruct pid as [pid|], tp as [tp|]; try by apply preserves_ret.
  cbv zeta.
  repeat (preserves_step || apply preserves_write_path_slot
          || apply preserves_configure_ep_link).
  apply preserves_modify. intros c. apply Hdelp.
Qed.

Context (Halterp : ∀ c f pid,
  R c (cm_set_tdm_paths (alter f pid (cm_tdm_paths c)) c)).
Context (Halterc : ∀ c f chid,
  R c (cm_set_tdm_channels (alter f chid (cm_tdm_channels c)) c)).
Context (Hdelc : ∀ c chid,
  R c (cm_set_tdm_channels (delete chid (cm_tdm_channels c)) c)).
Context (Hnewc : ∀ c ch ti,
  R c (cm_set_nxt_chid (cm_nxt_chid c + 1)
         (cm_set_tdm_info ti
            (cm_set_tdm_channels (<[cm_nxt_chid c := ch]> (cm_tdm_channels c)) c)))).

Lemma preserves_set_channel chid ch : preserves R (set_channel chid ch).
Proof. apply preserves_modify. intros c. apply Halterc. Qed.

Lemma preserves_delete_tdm_channel chid : preserves R (delete_tdm_channel chid).
Proof.
  unfold delete_tdm_channel. apply preserves_bind; [done|by apply preserves_gets|].
  intros [ch|]; [|by apply preserves_ret].
  repeat (preserves_step || apply preserves_clear_tdm_path).
  apply preserves_modify. intros c. apply Hdelc.
Qed.

Lemma preserves_remove_path_from_channel chid path_idx :
  preserves R (remove_path_from_channel chid path_idx).
Proof.
  unfold remove_path_from_channel.
  repeat (preserves_step || apply preserves_clear_tdm_path
          || apply preserves_set_channel).
Qed.

Lemma preserves_add_path_to_channel chid path_idx path :
  preserves R (add_path_to_channel chid path_idx path).
Proof.
  unfold add_path_to_channel.
  repeat (preserves_step || apply preserves_clear_tdm_path
          || apply preserves_set_channel || apply preserves_configure_tdm_path
          || (by apply preserves_on_tdm_info)).
Qed.

Lemma preserves_attach_path chid pid : preserves R (attach_path chid pid).
Proof.
  unfold attach_path. repeat (preserves_step || apply preserves_set_channel).
  apply preserves_modify. intros ?. apply Halterp.
Qed.

Lemma preserves_new_channel src dest ep_src ep_dest numslots pids :
  preserves R (new_channel src dest ep_src ep_dest numslots pids).
Proof.
  intros c r c' Hrun. unfold new_channel in Hrun.
  apply run_bind_Some in Hrun as (chid & s1 & [= <- <-] & Hrun).
  apply run_bind_Some in Hrun as ([] & s2 & [= <-] & Hrun).
  apply run_bind_Some in Hrun as (? & s3 & (ti' & _ & ->)%on_tdm_info_run & Hrun).
  apply run_bind_Some in Hrun as ([] & s4 & [= <-] & Hrun).
  match type of Hrun with _ ?s = Some _ => trans s end.
  { exact (Hnewc c (TDMChannel_new src dest ep_src ep_dest numslots) ti'). }
  revert Hrun. apply preserves_bind; [done| |intros ?; by apply preserves_ret].
  destruct pids as [[pid_A pid_B]|]; [|by apply preserves_ret].
  apply preserves_bind; [done|apply preserves_attach_path|].
  intros ?. apply preserves_attach_path.
Qed.

Lemma preserves_create_tdm_channel src dest numslots autopaths :
  preserves R (create_tdm_channel src dest numslots autopaths).
Proof.
  unfold create_tdm_channel.
  repeat (first [apply preserves_new_channel | preserves_step
                 | apply preserves_configure_tdm_path
                 | by apply preserves_on_tdm_info]).
Qed.

Lemma preserves_run_operation o : preserves R (run_operation o).
Proof.
  destruct o; simpl.
  - apply preserves_bind; [done|apply preserves_create_tdm_channel|].
    intros ?. by apply preserves_ret.
  - apply preserves_delete_tdm_channel.
  - apply preserves_bind; [done|apply preserves_add_path_to_channel|].
    intros ?. by apply preserves_ret.
  - apply preserves_remove_path_from_channel.
Qed.

End ctrl_frames.

(** Decomposing a run of a method of the client; the queries on
    [tdm_info] leave the client as it is. *)
Ltac ctrl_inv :=
  repeat (ti_inv; try match goal with
  | H : on_tdm_info _ _ = Some _ |- _ =>
      let ti' := fresh "ti" in
      apply on_tdm_info_run in H as (ti' & H & ->)
  | H : context [cm_set_tdm_info (cm_tdm_info ?c) ?c] |- _ =>
      rewrite (cm_set_tdm_info_same c) in H
  | |- context [cm_set_tdm_info (cm_tdm_info ?c) ?c] =>
      rewrite (cm_set_tdm_info_same c)
  end).

Lemma ids_advance_run_operation o : preserves ids_advance (run_operation o).
Proof.
  apply preserves_run_operation; try apply _; unfold ids_advance.
  - intros c ti. simpl. repeat split; try lia; auto.
  - intros c l. simpl. repeat split; try lia; auto.
  - intros c tp. simpl. repeat split; try lia; auto.
    intros pid Hin. destruct (decide (pid = cm_nxt_pid c)) as [->|];
      [right; lia|left]. by rewrite lookup_insert_ne in Hin.
  - intros c pid. simpl. repeat split; try lia; auto.
    intros pid' Hin. left. destruct (decide (pid' = pid)) as [->|].
    + rewrite lookup_delete_eq in Hin. by destruct Hin.
    + by rewrite lookup_delete_ne in Hin.
  - intros c f pid. simpl. repeat split; try lia; auto.
    intros pid' Hin. left. by apply lookup_alter_is_Some in Hin.
  - intros c f chid. simpl. repeat split; try lia; auto.
    intros chid' Hin. left. by apply lookup_alter_is_Some in Hin.
  - intros c chid. simpl. repeat split; try lia; auto.
    intros chid' Hin. left. destruct (decide (chid' = chid)) as [->|].
    + rewrite lookup_delete_eq in Hin. by destruct Hin.
    + by rewrite lookup_delete_ne in Hin.
  - intros c ch ti. simpl. repeat split; try lia; auto.
    intros chid Hin. destruct (decide (chid = cm_nxt_chid c)) as [->|];
      [right; lia|left]. by rewrite lookup_insert_ne in Hin.
Qed.

(** [_configure_tdm_path] and [_clear_tdm_path] do not touch the channels
    and their counter, nor the dimensions. *)
Lemma configure_tdm_path_same_on {B} (f : CtrlModClient → B) path start_slots
    ep_src ep_dest link :
  (∀ c ti, f (cm_set_tdm_info ti c) = f c) →
  (∀ c l, f (cm_set_sent l c) = f c) →
  (∀ c ps, f (cm_set_tdm_paths ps c) = f c) →
  (∀ c n, f (cm_set_nxt_pid n c) = f c) →
  preserves (same_on f)
    (_configure_tdm_path path start_slots ep_src ep_dest link).
Proof.
  intros H1 H2 H3 H4. apply preserves_configure_tdm_path; try apply _;
    unfold same_on; intros; by rewrite ?H4, ?H3, ?H2, ?H1.
Qed.

Lemma clear_tdm_path_same_on {B} (f : CtrlModClient → B) pid :
  (∀ c ti, f (cm_set_tdm_info ti c) = f c) →
  (∀ c l, f (cm_set_sent l c) = f c) →
  (∀ c ps, f (cm_set_tdm_paths ps c) = f c) →
  preserves (same_on f) (_clear_tdm_path pid).
Proof.
  intros H1 H2 H3.
  apply (preserves_clear_tdm_path (same_on f)); try apply _;
    unfold same_on; intros; by rewrite ?H3, ?H2, ?H1.
Qed.

Lemma attach_path_nxt_chid chid pid :
  preserves (same_on cm_nxt_chid) (attach_path chid pid).
Proof.
  unfold attach_path, set_channel.
  repeat (preserves_step || (apply preserves_modify; by intros [])).
Qed.

Lemma new_channel_returns src dest ep_src ep_dest numslots pids c chid c' :
  new_channel src dest ep_src ep_dest numslots pids c = Some (chid, c') →
  chid = cm_nxt_chid c ∧ cm_nxt_chid c' = chid + 1.
Proof.
  unfold new_channel. intros Hrun.
  apply run_bind_Some in Hrun as (? & s1 & [= <- <-] & Hrun).
  apply run_bind_Some in Hrun as ([] & s2 & [= <-] & Hrun).
  apply run_bind_Some in Hrun as (? & s3 & (ti' & _ & ->)%on_tdm_info_run & Hrun).
  apply run_bind_Some in Hrun as ([] & s4 & [= <-] & Hrun).
  apply run_bind_Some in Hrun as ([] & s5 & Hrun & [= <- <-]).
  split; [done|].
  assert (Hm : preserves (same_on cm_nxt_chid)
    (match pids with
     | Some (pid_A, pid_B) =>
         _ ← attach_path (cm_nxt_chid c) pid_A; attach_path (cm_nxt_chid c) pid_B
     | None => mret tt
     end)).
  { destruct pids as [[pid_A pid_B]|]; [|by apply preserves_ret, _].
    apply preserves_bind; [apply _|apply attach_path_nxt_chid|].
    intros ?. apply attach_path_nxt_chid. }
  apply Hm in Hrun. unfold same_on in Hrun. simpl in Hrun. lia.
Qed.

(** What [create_tdm_channel] returns: an error code and the client as it
    was, or the value of the counter, which goes up by one. *)
Lemma create_tdm_channel_returns src dest numslots autopaths c r c' :
  create_tdm_channel src dest numslots autopaths c = Some (r, c') →
  ((r = -1 ∨ r = -2) ∧ c' = c)
  ∨ (r = cm_nxt_chid c ∧ cm_nxt_chid c' = r + 1).
Proof.
  unfold create_tdm_channel. intros Hrun. ctrl_inv.
  case_match; [ctrl_inv; left; by eauto|].
  destruct autopaths.
  - ctrl_inv. case_bool_decide; [by ctrl_inv|]. cbv zeta in Hrun. ctrl_inv.
    case_match; [ctrl_inv; left; by eauto|]. right.
    apply run_bind_Some in Hrun as (pid_A & cA & HA & Hrun).
    apply run_bind_Some in Hrun as (pid_B & cB & HB & Hrun).
    apply new_channel_returns in Hrun as [-> ->].
    apply (configure_tdm_path_same_on cm_nxt_chid) in HA; [|by intros []..].
    apply (configure_tdm_path_same_on cm_nxt_chid) in HB; [|by intros []..].
    unfold same_on in *. split; congruence.
  - right. by apply new_channel_returns in Hrun.
Qed.

(** C4: [create_tdm_channel] with [autopaths=True] that returns an error
    code leaves the whole state of the client, the tables, the endpoint
    table, the channels, the paths, the counters and the packets sent, as
    it was before the call. *)
Theorem create_tdm_channel_fails_atomically (src dest numslots : Z)
    (c : CtrlModClient) (r : Z) (c' : CtrlModClient) :
  0 ≤ cm_nxt_chid c →
  create_tdm_channel src dest numslots true c = Some (r, c') →
  r < 0 →
  (r = -1 ∨ r = -2) ∧ c' = c.
Proof.
  intros Hchid Hrun Hr.
  apply create_tdm_channel_returns in Hrun as [?|[-> _]]; [done|lia].
Qed.

Lemma create_tdm_channel_fails_atomically_witness :
  (-1 = -1 ∨ -1 = -2)
  ∧ state_after (create_tdm_channel 0 3 1 true) busy_client = busy_client.
Proof.
  apply (create_tdm_channel_fails_atomically 0 3 1 busy_client (-1)).
  - vm_compute. discriminate.
  - apply run_result_of. vm_compute. reflexivity.
  - lia.
Defined.

Lemma configure_tdm_path_returns path start_slots ep_src ep_dest link c pid c' :
  _configure_tdm_path path start_slots ep_src ep_dest link c = Some (pid, c') →
  pid = cm_nxt_pid c ∧ cm_nxt_pid c' = pid + 1.
Proof.
  unfold _configure_tdm_path. intros Hrun.
  apply run_bind_Some in Hrun as (? & s1 & [= <- <-] & Hrun).
  apply run_bind_Some in Hrun as ([] & s2 & [= <-] & Hrun).
  apply run_bind_Some in Hrun as ([] & s3 & [= <-] & Hrun).
  apply run_bind_Some in Hrun as ([] & s4 & Hslots & Hrun).
  apply run_bind_Some in Hrun as (p0 & s5 & [_ ->]%run_reads_Some & Hrun).
  apply run_bind_Some in Hrun as ([] & s6 & Hlink & [= <- <-]).
  split; [done|].
  assert (same_on cm_nxt_pid
    (cm_set_nxt_pid (cm_nxt_pid c + 1)
       (cm_set_tdm_paths
          (<[cm_nxt_pid c := TDMPath_new path start_slots link ep_src ep_dest]>
             (cm_tdm_paths c)) c)) s4) as Hs.
  { revert Hslots. apply preserves_for_each; [apply _|]. intros slot.
    apply preserves_write_path_slot; [apply _|by intros []..]. }
  assert (same_on cm_nxt_pid s4 s6) as Hs'.
  { revert Hlink. unfold _configure_ep_link, event_send.
    apply preserves_modify. by intros []. }
  unfold same_on in *. simpl in *. lia.
Qed.

(** C10: along any sequence of operations the two counters do not go
    down, and an id in use after it was in use before it or is not below
    the counter of before.  The channel id that a later
    [create_tdm_channel] returns and the path id that a later
    [_configure_tdm_path] allocates are the counters, which then go up by
    one: they are above every id handed out before. *)
Theorem ids_never_reused (ops : list operation) (c c' : CtrlModClient) :
  0 ≤ cm_nxt_chid c →
  for_each ops run_operation c = Some (tt, c') →
  ids_advance c c'
  ∧ (∀ src dest numslots autopaths chid c'',
       create_tdm_channel src dest numslots autopaths c' = Some (chid, c'') →
       0 ≤ chid →
       chid = cm_nxt_chid c' ∧ cm_nxt_chid c'' = chid + 1
       ∧ cm_nxt_chid c ≤ chid)
  ∧ (∀ path start_slots ep_src ep_dest link pid c'',
       _configure_tdm_path path start_slots ep_src ep_dest link c'
       = Some (pid, c'') →
       pid = cm_nxt_pid c' ∧ cm_nxt_pid c'' = pid + 1 ∧ cm_nxt_pid c ≤ pid).
Proof.
  intros Hchid Hrun.
  assert (Hadv : ids_advance c c').
  { revert Hrun. apply preserves_for_each; [apply _|].
    apply ids_advance_run_operation. }
  split; [done|]. destruct Hadv as (Hp & Hc & _). split.
  - intros src dest numslots autopaths chid c'' Hcreate Hpos.
    apply create_tdm_channel_returns in Hcreate as [[? _]|[-> ->]]; lia.
  - intros path start_slots ep_src ep_dest link pid c'' Hconf.
    apply configure_tdm_path_returns in Hconf as [-> ->]. lia.
Qed.

Lemma ids_never_reused_witness :
  ids_advance small_client
    (state_after
       (for_each [Create 0 3 1 true; Delete 0; Create 0 3 1 false] run_operation)
       small_client).
Proof.
  eapply (ids_never_reused [Create 0 3 1 true; Delete 0; Create 0 3 1 false]
            small_client).
  - vm_compute. discriminate.
  - apply run_result_of. vm_compute. reflexivity.
Defined.

Lemma table_step_none clear t : table_step clear (λ _, False) t t.
Proof. split; [done|]. intros k. destruct clear; [right|right]; done || tauto. Qed.

Lemma table_step_iff clear (K K' : table_key → Prop) t t' :
  (∀ k, K k ↔ K' k) → table_step clear K t t' → table_step clear K' t t'.
Proof.
  intros HK [Hdom Hk]. split; [done|]. intros k. specialize (Hk k).
  destruct clear; rewrite <- HK; done.
Qed.

Lemma table_step_trans clear (K1 K2 : table_key → Prop) t t1 t2 :
  table_step clear K1 t t1 → table_step clear K2 t1 t2 →
  table_step clear (λ k, K1 k ∨ K2 k) t t2.
Proof.
  intros [Hd1 H1] [Hd2 H2]. split.
  - intros k. by rewrite Hd2, Hd1.
  - intros k. specialize (H1 k). specialize (H2 k). destruct clear.
    + destruct H2 as [[Hk2 ->]|[Hk2 ->]]; [left; tauto|].
      destruct H1 as [[Hk1 ->]|[Hk1 ->]]; [left; tauto|right; tauto].
    + destruct H2 as [?| ->]; [tauto|]. destruct H1 as [?| ->]; tauto.
Qed.

Lemma table_step_insert clear k0 v t :
  is_Some (t !! k0) →
  table_step clear (λ k, k = k0) t
    (<[k0 := if clear then (EMPTY, None) else v]> t).
Proof.
  intros Hk0. split.
  - intros k. destruct (decide (k = k0)) as [->|].
    + rewrite lookup_insert_eq. split; [done|by eexists].
    + by rewrite lookup_insert_ne.
  - intros k. destruct (decide (k = k0)) as [->|].
    + destruct clear; [left|left]; by rewrite ?lookup_insert_eq.
    + destruct clear; [right|right]; by rewrite lookup_insert_ne.
Qed.

(** Writing a path and clearing it gives back a table in which its
    entries were empty. *)
Lemma table_step_restore (K : table_key → Prop) t0 t1 t2 :
  table_step false K t0 t1 → table_step true K t1 t2 →
  (∀ k, K k → t0 !! k = Some (EMPTY, None)) →
  t2 = t0.
Proof.
  intros [_ Hw] [_ Hc] Hempty. apply map_eq. intros k.
  destruct (Hc k) as [[HK ->]|[HK ->]]; [symmetry; by apply Hempty|].
  by destruct (Hw k).
Qed.

(** Without the assumption on path ids: the entries that were empty are
    empty again, and the ids they carried are gone. *)
Lemma table_step_restore_ids (K : table_key → Prop) t0 t1 t2 :
  table_step false K t0 t1 → table_step true K t1 t2 →
  (∀ k, K k → ∃ pid, t0 !! k = Some (EMPTY, pid)) →
  restored_up_to_ids t0 t2.
Proof.
  intros [_ Hw] [_ Hc] Hempty k.
  destruct (Hc k) as [[HK ->]|[HK ->]].
  - destruct (Hempty k HK) as [[pid|] ->]; [right; by exists pid|by left].
  - left. by destruct (Hw k).
Qed.

Lemma restored_clean t t' :
  restored_up_to_ids t t' → table_clean t → t' = t.
Proof.
  intros Hr Hclean. apply map_eq. intros k.
  destruct (Hr k) as [|(pid & Hk & _)]; [done|].
  by specialize (Hclean k _ Hk eq_refl).
Qed.

Lemma with_table_with_table t1 p1 t2 p2 c :
  with_table t2 p2 (with_table t1 p1 c) = with_table t2 (p1 ++ p2) c.
Proof. unfold with_table. destruct c. simpl. by rewrite app_assoc. Qed.

Lemma with_table_same c : with_table (cm_table c) [] c = c.
Proof.
  unfold with_table, cm_table. destruct c as [??????? [] ?]. simpl.
  by rewrite app_nil_r.
Qed.

Lemma entry_at_with_table t pkts c sub :
  entry_at (cm_tdm_info (with_table t pkts c)) sub
  = (k ← sub_key (cm_tdm_info c) sub; t !! k).
Proof. done. Qed.

Lemma all_present_with_table t pkts c subs :
  (∀ k, is_Some (t !! k) ↔ is_Some (cm_table c !! k)) →
  all_present (cm_tdm_info c) subs →
  all_present (cm_tdm_info (with_table t pkts c)) subs.
Proof.
  intros Hdom Hall. unfold all_present in *.
  rewrite Forall_forall in Hall |- *. intros sub Hsub.
  specialize (Hall sub Hsub). rewrite entry_at_with_table.
  unfold entry_at, sub_key in *.
  destruct (table_index _ _ _ _ _) as [k|]; simpl in *; [|done].
  by apply Hdom.
Qed.

Lemma configure_slot_table_run node port slot config pid ni c :
  is_Some (entry_at (cm_tdm_info c) (node, ni, port, slot)) →
  ∃ k pkt,
    sub_key (cm_tdm_info c) (node, ni, port, slot) = Some k
    ∧ is_Some (cm_table c !! k)
    ∧ _configure_slot_table node port slot config pid ni c
      = Some (tt, with_table (<[k := (config, pid)]> (cm_table c)) [pkt] c).
Proof.
  intros [e He]. unfold entry_at in He.
  simpl in He.
  destruct (table_index (cm_tdm_info c) node ni port slot) as [k|] eqn:Hk;
    simpl in He; [|done]. eexists k, _. split; [done|]. split; [by eexists|].
  unfold _configure_slot_table. cbv zeta. rewrite run_bind.
  unfold event_send at 1. rewrite run_modify.
  unfold on_tdm_info, set_table_entry. simpl.
  rewrite Hk. simpl. unfold cm_table in *. rewrite He. simpl.
  unfold with_table. by destruct c.
Qed.

Lemma keys_of_nil ti k : keys_of ti [] k ↔ False.
Proof. split; [|done]. intros (sub & Hin & _). by apply elem_of_nil in Hin. Qed.

Lemma keys_of_cons ti sub subs k0 k :
  sub_key ti sub = Some k0 →
  keys_of ti (sub :: subs) k ↔ k = k0 ∨ keys_of ti subs k.
Proof.
  intros Hk0. unfold keys_of. split.
  - intros (sub' & Hin & Hk). apply elem_of_cons in Hin as [->|Hin].
    + left. congruence.
    + right. eauto.
  - intros [->|(sub' & Hin & Hk)].
    + exists sub. split; [left|done].
    + exists sub'. split; [by right|done].
Qed.

Lemma keys_of_app ti subs1 subs2 k :
  keys_of ti (subs1 ++ subs2) k ↔ keys_of ti subs1 k ∨ keys_of ti subs2 k.
Proof.
  unfold keys_of. split.
  - intros (sub & Hin & Hk). apply elem_of_app in Hin as [Hin|Hin]; eauto.
  - intros [(sub & Hin & Hk)|(sub & Hin & Hk)]; exists sub;
      (split; [apply elem_of_app; by eauto|done]).
Qed.

Lemma write_path_hops_run clear pid link rest currslot in_port c :
  (clear = true → pid = None) →
  let r := hop_subscripts (cm_x_dim c) (cm_slot_table_size c) link rest currslot in
  all_present (cm_tdm_info c) r.1 →
  ∃ t' pkts,
    write_path_hops clear pid link rest currslot in_port c
    = Some (r.2, with_table t' pkts c)
    ∧ table_step clear (keys_of (cm_tdm_info c) r.1) (cm_table c) t'.
Proof.
  intros Hpid. revert currslot in_port c.
  induction rest as [|c_node rest IH]; intros currslot in_port c r Hall.
  - exists (cm_table c), []. simpl. rewrite with_table_same. split; [done|].
    eapply table_step_iff; [|apply table_step_none].
    intros k. by rewrite keys_of_nil.
  - subst r. cbn [hop_subscripts] in Hall |- *.
    apply Forall_cons in Hall as [Hhead Hall].
    set (out_port := match rest with
                     | [] => link + 4
                     | n_node :: _ => out_port_to (cm_x_dim c) c_node n_node
                     end) in *.
    destruct (configure_slot_table_run c_node out_port currslot
                (if clear then EMPTY else in_port) pid false c Hhead)
      as (k0 & pkt & Hk0 & Hpresent & Hrun).
    set (c1 := with_table _ [pkt] c) in Hrun.
    destruct (IH ((currslot + 1) mod cm_slot_table_size c)
                (in_port_after out_port) c1) as (t' & pkts & Hrest & Hstep).
    { apply all_present_with_table; [|done].
      intros k. change (cm_table c1) with (<[k0 := (if clear then EMPTY else in_port, pid)]> (cm_table c)) || idtac.
      rewrite lookup_insert_is_Some'. split; [by intros [<-|]|by right]. }
    exists t', ([pkt] ++ pkts). split.
    + cbn [write_path_hops]. rewrite run_bind, run_gets. cbv beta iota.
      rewrite run_bind, run_gets. cbv beta iota zeta.
      fold out_port. rewrite run_bind, Hrun. cbv beta iota.
      change (cm_slot_table_size c1) with (cm_slot_table_size c) in Hrest.
      change (cm_x_dim c1) with (cm_x_dim c) in Hrest.
      rewrite Hrest. unfold c1. by rewrite with_table_with_table.
    + change (cm_slot_table_size c1) with (cm_slot_table_size c) in Hstep.
      change (cm_x_dim c1) with (cm_x_dim c) in Hstep.
      change (keys_of (cm_tdm_info c1)) with (keys_of (cm_tdm_info c)) in Hstep.
      eapply table_step_iff;
        [|eapply (table_step_trans clear (λ k, k = k0)); [|exact Hstep]].
      * intros k. cbv beta. cbn [fst]. by rewrite (keys_of_cons _ _ _ k0 k Hk0).
      * change (cm_table c1)
          with (<[k0 := (if clear then EMPTY else in_port, pid)]> (cm_table c)).
        assert ((if clear then EMPTY else in_port, pid)
                = if clear then (EMPTY, None) else (in_port, pid)) as ->
          by (destruct clear; [by rewrite Hpid|done]).
        by apply table_step_insert.
Qed.

(** ** Runs that write the slot table *)

Lemma table_run_iff {A} clear (K K' : table_key → Prop) (m : M CtrlModClient A) c r :
  (∀ k, K k ↔ K' k) → table_run clear K m c r → table_run clear K' m c r.
Proof.
  intros HK (t' & pkts & Hrun & Hstep). exists t', pkts. split; [done|].
  by eapply table_step_iff.
Qed.

Lemma table_run_pure {A} clear (m : M CtrlModClient A) c r :
  m c = Some (r, c) → table_run clear (λ _, False) m c r.
Proof.
  intros Hrun. exists (cm_table c), []. rewrite with_table_same.
  split; [done|apply table_step_none].
Qed.

Lemma table_run_bind {A B} clear (K1 K2 : table_key → Prop)
    (m : M CtrlModClient A) (f : A → M CtrlModClient B) c x r :
  table_run clear K1 m c x →
  (∀ t' pkts, (∀ k, is_Some (t' !! k) ↔ is_Some (cm_table c !! k)) →
     table_run clear K2 (f x) (with_table t' pkts c) r) →
  table_run clear (λ k, K1 k ∨ K2 k) (m ≫= f) c r.
Proof.
  intros (t1 & p1 & Hrun1 & Hstep1) Hf.
  destruct (Hf t1 p1 (proj1 Hstep1)) as (t2 & p2 & Hrun2 & Hstep2).
  exists t2, (p1 ++ p2). rewrite run_bind, Hrun1, Hrun2, with_table_with_table.
  split; [done|]. by eapply table_step_trans.
Qed.

Lemma table_run_configure_slot_table clear node port slot config pid ni c :
  (clear = true → config = EMPTY ∧ pid = None) →
  is_Some (entry_at (cm_tdm_info c) (node, ni, port, slot)) →
  table_run clear (keys_of (cm_tdm_info c) [(node, ni, port, slot)])
    (_configure_slot_table node port slot config pid ni) c tt.
Proof.
  intros Hclear Hsome.
  destruct (configure_slot_table_run node port slot config pid ni c Hsome)
    as (k0 & pkt & Hk0 & Hpresent & Hrun).
  eexists _, _. split; [exact Hrun|].
  apply (table_step_iff clear (λ k, k = k0)).
  { intros k. rewrite (keys_of_cons _ _ _ k0 k Hk0), keys_of_nil. tauto. }
  assert ((config, pid) = if clear then (EMPTY, None) else (config, pid)) as ->.
  { destruct clear; [|done]. by destruct Hclear as [-> ->]. }
  by apply table_step_insert.
Qed.

Lemma head_last_nonempty {A} (l : list A) :
  l ≠ [] → ∃ a b, head l = Some a ∧ last l = Some b.
Proof.
  intros Hne. destruct l as [|a l]; [done|]. exists a.
  destruct (last (a :: l)) as [b|] eqn:Hb; [by eauto|].
  by apply last_None in Hb.
Qed.

Lemma py_get_head {A} (l : list A) : py_get l 0 = head l.
Proof. rewrite py_get_nonneg by lia. by destruct l. Qed.

Lemma all_present_domain t pkts c subs :
  (∀ k, is_Some (t !! k) ↔ is_Some (cm_table c !! k)) →
  all_present (cm_tdm_info c) subs ↔
  all_present (cm_tdm_info (with_table t pkts c)) subs.
Proof.
  intros Hdom. split; [by apply all_present_with_table|].
  unfold all_present. rewrite !Forall_forall. intros Hall sub Hsub.
  specialize (Hall sub Hsub). rewrite entry_at_with_table in Hall.
  unfold entry_at, sub_key in *.
  destruct (table_index _ _ _ _ _) as [k|]; simpl in *; [|done].
  by apply Hdom.
Qed.

Lemma entry_present_domain t pkts c sub :
  (∀ k, is_Some (t !! k) ↔ is_Some (cm_table c !! k)) →
  is_Some (entry_at (cm_tdm_info c) sub) →
  is_Some (entry_at (cm_tdm_info (with_table t pkts c)) sub).
Proof.
  intros Hdom Hsome.
  assert (Hall : all_present (cm_tdm_info c) [sub]) by by constructor.
  apply (all_present_domain t pkts c _ Hdom) in Hall.
  by apply Forall_cons in Hall as [? _].
Qed.

Lemma write_path_slot_run clear pid path link ep_src ep_dest slot c :
  (clear = true → pid = None) →
  dims_agree c →
  path ≠ [] →
  all_present (cm_tdm_info c)
    (path_subscripts (ti_x_dim (cm_tdm_info c))
       (ti_slot_table_size (cm_tdm_info c)) path link slot) →
  table_run clear
    (keys_of (cm_tdm_info c)
       (path_subscripts (ti_x_dim (cm_tdm_info c))
          (ti_slot_table_size (cm_tdm_info c)) path link slot))
    (write_path_slot clear pid path link ep_src ep_dest slot) c tt.
Proof.
  intros Hpid [Hx Hs] Hne Hall.
  destruct (head_last_nonempty path Hne) as (p0 & p1 & Hp0 & Hp1).
  unfold path_subscripts in *. rewrite Hp0, Hp1 in *. cbv zeta in *.
  rewrite <- Hx, <- Hs in *.
  apply Forall_cons in Hall as [Hfirst Hall].
  apply Forall_app in Hall as [Hhops Hlast].
  apply Forall_cons in Hlast as [Hlast _].
  unfold write_path_slot.
  set (subs := hop_subscripts (cm_x_dim c) (cm_slot_table_size c) link path slot)
    in *.
  set (ti := cm_tdm_info c) in *.
  apply (table_run_iff clear
    (λ k, False ∨ keys_of ti [(p0, true, link, slot)] k
          ∨ keys_of ti subs.1 k
          ∨ False ∨ keys_of ti [(p1, true, link + 2, subs.2)] k)).
  { intros k. change (?a :: ?l ++ ?r) with ([a] ++ l ++ r).
    rewrite !keys_of_app. tauto. }
  apply table_run_bind with p0.
  { apply table_run_pure. unfold reads. by rewrite py_get_head, Hp0. }
  intros t1 q1 Hd1. apply table_run_bind with tt.
  { apply (table_run_configure_slot_table clear p0 link slot _ pid true
             (with_table t1 q1 c)).
    - intros ->. by rewrite Hpid.
    - by apply entry_present_domain. }
  intros t2 q2 Hd2. rewrite with_table_with_table.
  assert (Hd12 : ∀ k, is_Some (t2 !! k) ↔ is_Some (cm_table c !! k)).
  { intros k. by rewrite Hd2, <- Hd1. }
  apply table_run_bind with subs.2.
  { apply (write_path_hops_run clear pid link path slot (link + 4)
             (with_table t2 (q1 ++ q2) c)); [done|].
    by apply (all_present_domain t2 _ c _ Hd12). }
  intros t3 q3 Hd3. rewrite with_table_with_table.
  assert (Hd13 : ∀ k, is_Some (t3 !! k) ↔ is_Some (cm_table c !! k)).
  { intros k. by rewrite Hd3, <- Hd12. }
  apply table_run_bind with p1.
  { apply table_run_pure. unfold reads. by rewrite py_get_last, Hp1. }
  intros t4 q4 Hd4. rewrite with_table_with_table.
  apply (table_run_configure_slot_table clear p1 (link + 2) subs.2 _ pid true
           (with_table t4 _ c)).
  - intros ->. by rewrite Hpid.
  - apply entry_present_domain; [|done].
    intros k. by rewrite Hd4, <- Hd13.
Qed.

Lemma path_keys_nil ti path link k : path_keys ti path link [] k ↔ False.
Proof. split; [|done]. intros (slot & Hin & _). by apply elem_of_nil in Hin. Qed.

Lemma path_keys_cons ti path link slot slots k :
  path_keys ti path link (slot :: slots) k ↔
  keys_of ti (path_subscripts (ti_x_dim ti) (ti_slot_table_size ti)
                path link slot) k
  ∨ path_keys ti path link slots k.
Proof.
  unfold path_keys. split.
  - intros (s & Hin & Hk). apply elem_of_cons in Hin as [->|Hin]; eauto.
  - intros [Hk|(s & Hin & Hk)].
    + exists slot. split; [left|done].
    + exists s. split; [by right|done].
Qed.

Lemma path_present_domain t pkts c path link slots :
  (∀ k, is_Some (t !! k) ↔ is_Some (cm_table c !! k)) →
  path_present (cm_tdm_info c) path link slots →
  path_present (cm_tdm_info (with_table t pkts c)) path link slots.
Proof.
  intros Hdom. unfold path_present. rewrite !Forall_forall.
  intros Hall slot Hslot. apply (all_present_domain t pkts c _ Hdom).
  by apply Hall.
Qed.

Lemma write_path_slots_run clear pid path link ep_src ep_dest slots c :
  (clear = true → pid = None) →
  dims_agree c →
  path ≠ [] →
  path_present (cm_tdm_info c) path link slots →
  table_run clear (path_keys (cm_tdm_info c) path link slots)
    (for_each slots (write_path_slot clear pid path link ep_src ep_dest)) c tt.
Proof.
  intros Hpid Hdims Hne. revert c Hdims.
  induction slots as [|slot slots IH]; intros c Hdims Hall.
  - eapply table_run_iff; [|by apply table_run_pure].
    intros k. by rewrite path_keys_nil.
  - apply Forall_cons in Hall as [Hslot Hall]. cbn [for_each].
    eapply table_run_iff; [intros k; symmetry; apply path_keys_cons|].
    apply table_run_bind with tt; [by apply write_path_slot_run|].
    intros t1 q1 Hd1.
    apply (IH (with_table t1 q1 c)); [done|].
    by apply path_present_domain.
Qed.

Lemma with_table_with_paths t pkts ps n c :
  with_table t pkts (with_paths ps n c) = with_paths ps n (with_table t pkts c).
Proof. by destruct c. Qed.

(** [_configure_tdm_path] stores the path under the next pid and writes
    its entries. *)
Lemma configure_tdm_path_run path start_slots ep_src ep_dest link c :
  dims_agree c →
  path ≠ [] →
  path_present (cm_tdm_info c) path link start_slots →
  ∃ t' pkts,
    _configure_tdm_path path start_slots ep_src ep_dest link c
    = Some (cm_nxt_pid c,
            with_paths
              (<[cm_nxt_pid c := TDMPath_new path start_slots link ep_src ep_dest]>
                 (cm_tdm_paths c))
              (cm_nxt_pid c + 1) (with_table t' pkts c))
    ∧ table_step false (path_keys (cm_tdm_info c) path link start_slots)
        (cm_table c) t'.
Proof.
  intros Hdims Hne Hall. unfold _configure_tdm_path.
  rewrite run_bind, run_gets. cbv beta iota.
  rewrite run_bind, run_modify. cbv beta iota.
  rewrite run_bind, run_modify. cbv beta iota.
  set (c1 := cm_set_nxt_pid _ _).
  destruct (write_path_slots_run false (Some (cm_nxt_pid c)) path link ep_src
              ep_dest start_slots c1) as (t' & pkts & Hrun & Hstep); try done.
  rewrite run_bind, Hrun. cbv beta iota.
  destruct (head_last_nonempty path Hne) as (p0 & _ & Hp0 & _).
  rewrite run_bind. unfold reads at 1. rewrite py_get_head, Hp0. cbv beta iota.
  rewrite run_bind. unfold _configure_ep_link, event_send at 1.
  rewrite run_modify. cbv beta iota. rewrite run_ret.
  eexists t', (pkts ++ [_]). split; [|exact Hstep].
  f_equal. f_equal. unfold c1, with_paths, with_table. destruct c. simpl.
  by rewrite app_assoc.
Qed.

(** [_clear_tdm_path] of a stored path clears its entries and forgets the
    path. *)
Lemma clear_tdm_path_run pid tp c :
  dims_agree c →
  cm_tdm_paths c !! pid = Some tp →
  p_path tp ≠ [] →
  path_present (cm_tdm_info c) (p_path tp) (p_link tp) (p_slots tp) →
  ∃ t' pkts,
    _clear_tdm_path (Some pid) c
    = Some (true, cm_set_tdm_paths (delete pid (cm_tdm_paths c))
                    (with_table t' pkts c))
    ∧ table_step true
        (path_keys (cm_tdm_info c) (p_path tp) (p_link tp) (p_slots tp))
        (cm_table c) t'.
Proof.
  intros Hdims Htp Hne Hall. unfold _clear_tdm_path.
  rewrite run_bind, run_gets. cbv beta iota. simpl. rewrite Htp. cbv zeta.
  destruct (head_last_nonempty _ Hne) as (p0 & _ & Hp0 & _).
  rewrite run_bind. unfold reads at 1. rewrite py_get_head, Hp0. cbv beta iota.
  rewrite run_bind. unfold _configure_ep_link, event_send at 1.
  rewrite run_modify. cbv beta iota.
  set (c1 := cm_set_sent _ c).
  destruct (write_path_slots_run true None (p_path tp) (p_link tp) (p_ep_src tp)
              (p_ep_dest tp) (p_slots tp) c1) as (t' & pkts & Hrun & Hstep);
    try done.
  rewrite run_bind, Hrun. cbv beta iota.
  rewrite run_bind, run_modify. cbv beta iota. rewrite run_ret.
  eexists t', ([_] ++ pkts). split; [|exact Hstep].
  f_equal. f_equal. unfold c1, with_table. destruct c. simpl.
  by rewrite <- app_assoc.
Qed.

(** ** [add_path_to_channel] with the route of the other path *)

Lemma shares_hop_self (p : list Z) : (2 ≤ length p)%nat → shares_hop p p = true.
Proof.
  intros Hlen. unfold shares_hop. apply existsb_exists. exists 0%nat. split.
  - apply in_seq. lia.
  - apply existsb_exists. exists 0%nat. split; [apply in_seq; lia|].
    by rewrite !bool_decide_eq_true_2.
Qed.

Lemma valid_alternative_path_same_route tp tp' :
  p_path tp' = p_path tp → (2 ≤ length (p_path tp))%nat →
  valid_alternative_path tp tp' = Some false.
Proof.
  intros Heq Hlen. unfold valid_alternative_path. case_match; [done|].
  rewrite Heq. destruct (head_last_nonempty (p_path tp)) as (a & b & Ha & Hb).
  { intros Hnil. rewrite Hnil in Hlen. simpl in Hlen. lia. }
  rewrite py_get_head, py_get_last, Ha, Hb. simpl.
  rewrite !bool_decide_eq_false_2 by (intros Hne; by apply Hne).
  by rewrite shares_hop_self.
Qed.

(** The slots that [get_free_slots] returns are free. *)
Lemma get_free_slots_free ti path ep_src ep_dest link numslots r ti' :
  get_free_slots path ep_src ep_dest link numslots ti = Some (r, ti') →
  ti' = ti ∧ Forall (path_free ti path link ep_src ep_dest) r.
Proof.
  intros Hrun. split; [symmetry; by eapply get_free_slots_read_only|].
  unfold get_free_slots in Hrun. rewrite run_bind, run_gets in Hrun.
  apply get_free_slots_from_shape in Hrun as [->|[_ [k ->]]]; [constructor|].
  simpl. apply Forall_forall. intros s Hs.
  apply elem_of_take in Hs as (i & Hs & _).
  apply list_elem_of_lookup_2, list_elem_of_filter in Hs as [Hfree _].
  by apply slot_is_free_path_free.
Qed.

(** The entries of a path with free slots exist and are [(EMPTY, None)]
    in a clean table. *)
Lemma path_free_present ti path link ep_src ep_dest slots :
  Forall (path_free ti path link ep_src ep_dest) slots →
  path_present ti path link slots.
Proof.
  unfold path_present. intros Hslots.
  eapply Forall_impl; [exact Hslots|]. intros slot Hfree. cbv beta.
  apply check_path_free in Hfree as (_ & Hall & _).
  unfold all_present, all_empty in *.
  eapply Forall_impl; [exact Hall|]. intros sub [pid ->]. by eexists.
Qed.

Lemma path_free_reads_empty ti path link ep_src ep_dest slots k :
  Forall (path_free ti path link ep_src ep_dest) slots →
  path_keys ti path link slots k →
  ∃ pid, ti_table_config ti !! k = Some (EMPTY, pid).
Proof.
  intros Hfree (slot & Hslot & sub & Hsub & Hk).
  rewrite Forall_forall in Hfree.
  apply Hfree, check_path_free in Hslot as (_ & Hall & _).
  unfold all_empty in Hall. rewrite Forall_forall in Hall.
  destruct (Hall sub Hsub) as [pid He]. unfold entry_at in He.
  unfold sub_key in Hk. rewrite Hk in He. simpl in He. by exists pid.
Qed.

Lemma path_free_empty ti path link ep_src ep_dest slots k :
  table_clean (ti_table_config ti) →
  Forall (path_free ti path link ep_src ep_dest) slots →
  path_keys ti path link slots k →
  ti_table_config ti !! k = Some (EMPTY, None).
Proof.
  intros Hclean Hfree (slot & Hslot & sub & Hsub & Hk).
  rewrite Forall_forall in Hfree.
  apply Hfree, check_path_free in Hslot as (_ & Hall & _).
  unfold all_empty in Hall. rewrite Forall_forall in Hall.
  destruct (Hall sub Hsub) as [pid He]. unfold entry_at in He.
  unfold sub_key in Hk. rewrite Hk in He. simpl in He.
  rewrite He. f_equal. f_equal. by apply (Hclean k _ He).
Qed.

(** Configuring a path on free slots of a clean table and clearing it
    again gives back the table. *)
Lemma configure_clear_restores ti path link ep_src ep_dest slots t1 t2 :
  table_clean (ti_table_config ti) →
  Forall (path_free ti path link ep_src ep_dest) slots →
  table_step false (path_keys ti path link slots) (ti_table_config ti) t1 →
  table_step true (path_keys ti path link slots) t1 t2 →
  t2 = ti_table_config ti.
Proof.
  intros Hclean Hfree Hw Hc. eapply table_step_restore; [exact Hw|exact Hc|].
  intros k. by eapply path_free_empty.
Qed.

(** C3: when the other path of the channel has the route [path] (with at
    least one hop) and the slot [path_idx] of the channel is free,
    [add_path_to_channel] returns 1 if [get_free_slots] finds start slots
    for the route and 2 if it finds none.  In both cases the endpoint
    table, the channels and the paths are as before the call, and every
    entry of the slot table is as before, except that an entry that read
    [EMPTY] while it carried a path id has lost the id; when no entry is of
    that kind the slot table is as before. *)
Theorem add_path_to_channel_same_route (chid path_idx : Z) (path : list Z)
    (c : CtrlModClient) (ch : TDMChannel) (pid_alt : Z) (tp_alt : TDMPath)
    (start_slots : list Z) (ti' : TDMinfo) :
  dims_agree c →
  cm_tdm_paths c !! cm_nxt_pid c = None →
  cm_tdm_channels c !! chid = Some ch →
  py_get (ch_paths ch) path_idx = Some None →
  py_get (ch_pids ch) ((path_idx + 1) mod 2) = Some (Some pid_alt) →
  cm_tdm_paths c !! pid_alt = Some tp_alt →
  p_path tp_alt = path →
  (2 ≤ length path)%nat →
  get_free_slots path (ch_ep_src ch) (ch_ep_dest ch) path_idx (ch_numslots ch)
    (cm_tdm_info c) = Some (start_slots, ti') →
  ∃ c',
    add_path_to_channel chid path_idx path c
    = Some (if bool_decide (start_slots = []) then 2 else 1, c')
    ∧ restored_up_to_ids (cm_table c) (cm_table c')
    ∧ (table_clean (cm_table c) → cm_table c' = cm_table c)
    ∧ ti_nodes (cm_tdm_info c') = ti_nodes (cm_tdm_info c)
    ∧ cm_tdm_channels c' = cm_tdm_channels c
    ∧ cm_tdm_paths c' = cm_tdm_paths c.
Proof.
  intros Hdims Hfresh Hch Hidx Halt Htp Hroute Hlen Hslots.
  pose proof (get_free_slots_free _ _ _ _ _ _ _ _ Hslots) as [-> Hfree].
  unfold add_path_to_channel.
  rewrite run_bind. unfold reads at 1. rewrite Hch. cbv beta iota.
  rewrite run_bind. unfold reads at 1. rewrite Hidx. cbv beta iota.
  rewrite bool_decide_eq_true_2 by done. cbv zeta.
  rewrite run_bind. unfold on_tdm_info at 1. rewrite Hslots. cbv beta iota.
  rewrite cm_set_tdm_info_same.
  destruct start_slots as [|slot slots].
  { exists c. split; [done|]. split; [by left|done]. }
  rewrite bool_decide_eq_true_2 by (simpl; lia).
  rewrite (bool_decide_eq_false_2 (_ = [])) by done.
  set (start_slots := slot :: slots) in *.
  assert (Hne : path ≠ []) by (intros ->; simpl in Hlen; lia).
  destruct (configure_tdm_path_run path start_slots (ch_ep_src ch)
              (ch_ep_dest ch) path_idx c Hdims Hne)
    as (t1 & pkts1 & Hconf & Hwrite); [by eapply path_free_present|].
  rewrite run_bind, Hconf. cbv beta iota.
  set (pid := cm_nxt_pid c) in *.
  set (tp := TDMPath_new path start_slots path_idx (ch_ep_src ch) (ch_ep_dest ch))
    in *.
  set (c1 := with_paths _ _ _).
  assert (Hpid : cm_tdm_paths c1 !! pid = Some tp) by apply lookup_insert_eq.
  assert (Hpid_alt : cm_tdm_paths c1 !! pid_alt = Some tp_alt).
  { unfold c1. simpl. rewrite lookup_insert_ne; [done|]. intros <-. congruence. }
  rewrite run_bind. unfold reads at 1. rewrite Halt. cbv beta iota.
  rewrite run_bind. unfold reads at 1. rewrite Hpid_alt, Hpid.
  cbn [mbind option_bind].
  rewrite (valid_alternative_path_same_route tp_alt tp)
    by (by rewrite ?Hroute). cbv beta iota.
  rewrite run_bind, run_ret. cbv beta iota.
  destruct (clear_tdm_path_run pid tp c1) as (t2 & pkts2 & Hclear & Hwipe);
    [done|done|done| |].
  { apply (path_present_domain t1 pkts1 c); [apply Hwrite|].
    by eapply path_free_present. }
  rewrite run_bind, Hclear. cbv beta iota. rewrite run_ret.
  assert (Hrestored : restored_up_to_ids (cm_table c) t2).
  { eapply table_step_restore_ids; [exact Hwrite|exact Hwipe|].
    intros k. by eapply path_free_reads_empty. }
  eexists. split; [done|].
  split; [exact Hrestored|]. split; [|split; [done|split; [done|]]].
  - intros Hclean. change (t2 = cm_table c). by apply restored_clean.
  - simpl. by apply delete_insert_id.
Qed.

Lemma add_path_to_channel_same_route_witness :
  ∃ c', add_path_to_channel 0 1 [0; 1; 3] pruned_client = Some (1, c')
        ∧ restored_up_to_ids (cm_table pruned_client) (cm_table c')
        ∧ cm_table c' = cm_table pruned_client.
Proof.
  assert (Hclean : table_clean (cm_table pruned_client)).
  { unfold table_clean. apply (bool_decide_unpack _). vm_compute. exact I. }
  edestruct (add_path_to_channel_same_route 0 1 [0; 1; 3] pruned_client)
    as (c' & Hrun & Hids & Htable & _).
  - by vm_compute.
  - vm_compute. reflexivity.
  - vm_compute. reflexivity.
  - vm_compute. reflexivity.
  - vm_compute. reflexivity.
  - vm_compute. reflexivity.
  - vm_compute. reflexivity.
  - vm_compute. lia.
  - apply run_result_of. vm_compute. reflexivity.
  - exists c'. split; [exact Hrun|]. split; [exact Hids|exact (Htable Hclean)].
Defined.

(** Three clients on which the call does not return 1 with the table of
    before.  In a table of four slots with a channel of three slots the
    route of the first path has one free start slot left on the second
    link: no path is configured and the result is 2.  A route of one node
    has no hop to share: the path is attached and the result is 0.  And
    where the endpoint index 15 is stored in the first slot, that slot
    reads as free: the result is 1, but the entry has lost its path id. *)
Lemma add_path_to_channel_same_route_exceptions :
  ¬ same_route_overlaps crowded_client 0 1 [0; 1; 3]
  ∧ ¬ same_route_overlaps loop_client 0 1 [0]
  ∧ ¬ same_route_overlaps wide_client 0 1 [0; 1].
Proof.
  split; [|split].
  - intros Hclaim. destruct Hclaim as (c' & Hrun & _).
    + eexists _, _, _.
      split; [|split; [|split; [|split]]]; vm_compute; reflexivity.
    + apply result_of_run in Hrun. vm_compute in Hrun. discriminate Hrun.
  - intros Hclaim. destruct Hclaim as (c' & Hrun & _).
    + eexists _, _, _.
      split; [|split; [|split; [|split]]]; vm_compute; reflexivity.
    + apply result_of_run in Hrun. vm_compute in Hrun. discriminate Hrun.
  - intros Hclaim. destruct Hclaim as (c' & Hrun & Htable).
    + eexists _, _, _.
      split; [|split; [|split; [|split]]]; vm_compute; reflexivity.
    + apply state_after_run in Hrun. subst c'.
      assert (Hentry :
        cm_table (state_after (add_path_to_channel 0 1 [0; 1]) wide_client)
          !! (0, true, 1, 0)
        = cm_table wide_client !! (0, true, 1, 0)) by (by rewrite Htable).
      vm_compute in Hentry. discriminate Hentry.
Qed.

(** ** Subscripts *)

Lemma py_get_py_set {A} (l l' : list A) i j x :
  py_set l i x = Some l' →
  py_get l' j
  = if bool_decide (py_index (Z.of_nat (length l)) j
                    = py_index (Z.of_nat (length l)) i)
    then Some x else py_get l j.
Proof.
  unfold py_set, py_get. intros Hset.
  destruct (py_index _ i) as [n|] eqn:Hi; [|done]. injection Hset as <-.
  rewrite length_insert.
  destruct (py_index _ j) as [m|] eqn:Hj; simpl.
  - apply py_index_Some in Hi as [Hn _]. apply py_index_Some in Hj as [Hm _].
    destruct (decide (m = n)) as [->|Hne].
    + rewrite bool_decide_eq_true_2 by done. apply list_lookup_insert_eq. lia.
    + rewrite bool_decide_eq_false_2 by congruence.
      apply list_lookup_insert_ne. lia.
  - done.
Qed.

Lemma py_set_length {A} (l l' : list A) i x :
  py_set l i x = Some l' → length l' = length l.
Proof.
  unfold py_set. destruct (py_index _ i); [|done]. intros [= <-].
  apply length_insert.
Qed.

Lemma py_set_is_Some {A} (l : list A) i x :
  is_Some (py_set l i x) ↔ is_Some (py_get l i).
Proof.
  unfold py_set, py_get. destruct (py_index _ i) as [n|] eqn:Hi; simpl.
  - split; [|by eauto]. intros _. apply lookup_lt_is_Some.
    apply py_index_Some in Hi. lia.
  - split; by intros [? ?].
Qed.

(** ** Reading and writing the slot table *)

(** X1: after [set_table_entry] returns, the entry reads back as the pair
    written, under the same subscripts and under all subscripts that
    Python's rule for negative subscripts maps to the same entry; every
    other entry reads as before, and the endpoint table is unchanged. *)
Theorem set_table_entry_read (node : Z) (ni : bool) (port slot config : Z)
    (pid : option Z) (ti ti' : TDMinfo) :
  set_table_entry node ni port slot config pid ti = Some (tt, ti') →
  (∀ node' ni' port' slot',
     table_index ti node' ni' port' slot' = table_index ti node ni port slot →
     result_of (table_entry node' ni' port' slot') ti' = Some (config, pid))
  ∧ (∀ node' ni' port' slot',
       table_index ti node' ni' port' slot' ≠ table_index ti node ni port slot →
       result_of (table_entry node' ni' port' slot') ti'
       = result_of (table_entry node' ni' port' slot') ti)
  ∧ ti_nodes ti' = ti_nodes ti.
Proof.
  unfold set_table_entry. intros Hrun.
  destruct (table_index ti node ni port slot) as [k|] eqn:Hk; [|done].
  simpl in Hrun. destruct (ti_table_config ti !! k) as [e|] eqn:He; [|done].
  injection Hrun as <-. split; [|split; [|done]].
  - intros node' ni' port' slot' Heq. unfold result_of, table_entry, reads.
    change (table_index (ti_set_table _ ti)) with (table_index ti).
    rewrite Heq. simpl. by rewrite lookup_insert_eq.
  - intros node' ni' port' slot' Hne. unfold result_of, table_entry, reads.
    change (table_index (ti_set_table _ ti)) with (table_index ti).
    destruct (table_index ti node' ni' port' slot') as [k'|] eqn:Hk'; simpl.
    + rewrite lookup_insert_ne by congruence.
      by destruct (ti_table_config ti !! k').
    + done.
Qed.

Lemma set_table_entry_read_witness :
  result_of (table_entry (-1) true (-3) (-2))
    (state_after (set_table_entry 3 true 1 2 7 (Some 5)) small_info)
  = Some (7, Some 5).
Proof.
  eapply (set_table_entry_read 3 true 1 2 7 (Some 5) small_info).
  - apply run_result_of. vm_compute. reflexivity.
  - vm_compute. reflexivity.
Defined.

(** ** Endpoints *)

Lemma first_free_ep_spec out eps start :
  let r := first_free_ep out eps start in
  (r = -1 ∧ Forall (ep_taken out) eps ∨
   start ≤ r < start + Z.of_nat (length eps)
   ∧ (∃ e, eps !! Z.to_nat (r - start) = Some e ∧ ¬ ep_taken out e)
   ∧ Forall (ep_taken out) (take (Z.to_nat (r - start)) eps))
  ∨ (start < 0 ∧ r = -1).
Proof.
  revert start. induction eps as [|e eps IH]; intros start; simpl.
  - left. left. split; [done|constructor].
  - case_bool_decide as Hfree.
    + destruct (decide (start = -1)) as [->|Hs]; [right; lia|].
      left. right. split; [lia|]. rewrite Z.sub_diag. simpl.
      split; [|constructor]. exists e. split; [done|].
      unfold ep_taken. by intros ?.
    + destruct (IH (start + 1)) as [[[Hr Hall]|(Hr & (e' & He' & Hfree') & Hall)]|Hneg].
      * left. left. split; [done|]. by constructor.
      * left. right. split; [lia|].
        replace (Z.to_nat (first_free_ep out eps (start + 1) - start))
          with (S (Z.to_nat (first_free_ep out eps (start + 1) - (start + 1))))
          by lia.
        simpl. split; [by eauto|]. by constructor.
      * destruct (decide (start < 0)); [right; lia|lia].
Qed.

(** X2: [get_free_ep] raises only when the node has no endpoint list;
    otherwise it leaves the mirror as it is and returns the smallest index
    of an endpoint that is free in the direction asked for, or -1 when all
    endpoints of the node are taken in that direction. *)
Theorem get_free_ep_first (node : Z) (out : bool) (ti : TDMinfo) :
  match get_free_ep node out ti with
  | Some (ep, ti') =>
      ti' = ti
      ∧ ∃ eps, py_get (ti_nodes ti) node = Some eps
        ∧ if bool_decide (ep = -1) then Forall (ep_taken out) eps
          else 0 ≤ ep < Z.of_nat (length eps)
               ∧ (∃ e, eps !! Z.to_nat ep = Some e ∧ ¬ ep_taken out e)
               ∧ Forall (ep_taken out) (take (Z.to_nat ep) eps)
  | None => py_get (ti_nodes ti) node = None
  end.
Proof.
  unfold get_free_ep. rewrite run_bind. unfold reads.
  destruct (py_get (ti_nodes ti) node) as [eps|]; [|done].
  rewrite run_ret. split; [done|]. exists eps. split; [done|].
  destruct (first_free_ep_spec out eps 0) as [[[-> Hall]|(Hr & He & Hall)]|[? _]];
    [done| |lia].
  rewrite Z.sub_0_r in He, Hall. rewrite bool_decide_eq_false_2 by lia.
  split; [lia|done].
Qed.

Lemma node_ep_result node ep ti :
  result_of (node_ep node ep) ti
  = (eps ← py_get (ti_nodes ti) node; py_get eps ep).
Proof.
  unfold result_of, node_ep, reads.
  by destruct (py_get (ti_nodes ti) node ≫= _).
Qed.

Lemma ep_index_Some ti node ep eps e :
  py_get (ti_nodes ti) node = Some eps → py_get eps ep = Some e →
  ∃ n j, ep_index ti node ep = Some (n, j)
         ∧ py_index (Z.of_nat (length (ti_nodes ti))) node = Some n
         ∧ ti_nodes ti !! Z.to_nat n = Some eps
         ∧ py_index (Z.of_nat (length eps)) ep = Some j.
Proof.
  intros (n & Hn & Heps)%py_get_Some (j & Hj & He)%py_get_Some.
  exists n, j. unfold ep_index. rewrite Hn. simpl. rewrite Heps. simpl.
  by rewrite Hj.
Qed.

(** Replacing [nodes[node][ep]] by [f] of itself. *)
Lemma set_node_ep_read node ep f ti ti' :
  set_node_ep node ep f ti = Some (tt, ti') →
  ∃ e, result_of (node_ep node ep) ti = Some e
       ∧ ti' = ti_set_nodes (ti_nodes ti') ti
       ∧ nodes_shape (ti_nodes ti') = nodes_shape (ti_nodes ti)
       ∧ (∀ node' ep',
            ep_index ti' node' ep' = ep_index ti node' ep'
            ∧ result_of (node_ep node' ep') ti'
              = if bool_decide (ep_index ti node' ep' = ep_index ti node ep)
                then Some (f e)
                else result_of (node_ep node' ep') ti).
Proof.
  unfold set_node_ep. intros Hrun.
  destruct (py_get (ti_nodes ti) node) as [eps|] eqn:Hn; [|done].
  simpl in Hrun. destruct (py_get eps ep) as [e|] eqn:He; [|done].
  simpl in Hrun. destruct (py_set eps ep (f e)) as [eps'|] eqn:Hs1; [|done].
  simpl in Hrun. destruct (py_set (ti_nodes ti) node eps') as [nodes'|] eqn:Hs2;
    [|done].
  injection Hrun as <-. exists e. rewrite node_ep_result, Hn. simpl.
  split; [done|]. split; [done|]. simpl.
  destruct (ep_index_Some ti node ep eps e Hn He) as (n & j & Hidx & Hin & Heps & Hij).
  split.
  { unfold nodes_shape. unfold py_set in Hs1, Hs2. rewrite Hin in Hs2.
    rewrite Hij in Hs1. injection Hs1 as <-. injection Hs2 as <-.
    rewrite list_fmap_insert, length_insert. apply list_insert_id.
    by rewrite list_lookup_fmap, Heps. }
  pose proof (py_set_length _ _ _ _ Hs1) as Hlen1.
  pose proof (py_set_length _ _ _ _ Hs2) as Hlen2.
  intros node' ep'. rewrite !node_ep_result. simpl.
  rewrite (py_get_py_set _ _ _ node' _ Hs2), Hidx, Hin.
  unfold ep_index at 1 2. simpl. rewrite Hlen2.
  assert (Hrow : ∀ m, nodes' !! Z.to_nat m
                      = if bool_decide (m = n) then
                          (if bool_decide (0 ≤ m) then Some eps' else nodes' !! Z.to_nat m)
                        else if bool_decide (0 ≤ m) then ti_nodes ti !! Z.to_nat m
                             else nodes' !! Z.to_nat m).
  { intros m. unfold py_set in Hs2. rewrite Hin in Hs2. injection Hs2 as <-.
    apply py_index_Some in Hin as [Hn0 _].
    repeat case_bool_decide; subst; try done.
    - apply list_lookup_insert_eq. lia.
    - apply list_lookup_insert_ne. lia. }
  destruct (py_index (Z.of_nat (length (ti_nodes ti))) node') as [n'|] eqn:Hn';
    simpl.
  2: { assert (ep_index ti node' ep' = None) as ->
         by (unfold ep_index; by rewrite Hn').
       split; [done|]. by rewrite bool_decide_eq_false_2. }
  assert (Hget : py_get (ti_nodes ti) node' = ti_nodes ti !! Z.to_nat n')
    by (unfold py_get; by rewrite Hn').
  assert (Hidx' : ep_index ti node' ep'
                  = (eps ← ti_nodes ti !! Z.to_nat n';
                     e ← py_index (Z.of_nat (length eps)) ep'; Some (n', e)))
    by (unfold ep_index; by rewrite Hn').
  rewrite Hget, Hidx'.
  pose proof (py_index_Some _ _ _ Hn') as [Hn'0 _].
  rewrite Hrow, (bool_decide_eq_true_2 (0 ≤ n')) by lia.
  destruct (decide (n' = n)) as [->|Hne].
  - rewrite !bool_decide_eq_true_2 by done. rewrite Heps. simpl.
    rewrite Hlen1, (py_get_py_set _ _ _ ep' _ Hs1), Hij.
    destruct (py_index (Z.of_nat (length eps)) ep') as [j'|] eqn:Hj'; simpl.
    + split; [done|]. destruct (decide (j' = j)) as [->|Hnej].
      * by rewrite !bool_decide_eq_true_2.
      * by rewrite !bool_decide_eq_false_2 by congruence.
    + done.
  - rewrite !(bool_decide_eq_false_2 (n' = n)) by done.
    rewrite (bool_decide_eq_false_2 (Some n' = Some n)) by congruence.
    split; [done|].
    case_bool_decide as Heq; [|done]. exfalso.
    destruct (ti_nodes ti !! Z.to_nat n') as [r|]; simpl in Heq; [|done].
    destruct (py_index _ ep'); simpl in Heq; [|done]. congruence.
Qed.

Lemma node_ep_via_index node ep ti :
  result_of (node_ep node ep) ti
  = (loc ← ep_index ti node ep;
     eps ← ti_nodes ti !! Z.to_nat loc.1; eps !! Z.to_nat loc.2).
Proof.
  rewrite node_ep_result. unfold ep_index, py_get.
  destruct (py_index _ node) as [n|]; simpl; [|done].
  destruct (ti_nodes ti !! Z.to_nat n) as [eps|] eqn:Hn; simpl; [|done].
  destruct (py_index _ ep); simpl; [|done]. by rewrite Hn.
Qed.

Lemma node_ep_same_index node ep node' ep' ti :
  ep_index ti node ep = ep_index ti node' ep' →
  result_of (node_ep node ep) ti = result_of (node_ep node' ep') ti.
Proof. intros Heq. by rewrite !node_ep_via_index, Heq. Qed.

Lemma node_ep_index_Some node ep ti e :
  result_of (node_ep node ep) ti = Some e → is_Some (ep_index ti node ep).
Proof.
  rewrite node_ep_via_index. destruct (ep_index ti node ep); [by eauto|done].
Qed.

Lemma node_ep_run node ep ti e ti' :
  node_ep node ep ti = Some (e, ti') ↔
  result_of (node_ep node ep) ti = Some e ∧ ti' = ti.
Proof.
  unfold result_of, node_ep, reads.
  destruct (py_get (ti_nodes ti) node ≫= _); simpl; [|by split; [|intros []]].
  split; [by intros [= -> ->]|by intros [[= ->] ->]].
Qed.

Lemma assign_ep_spec (src dest ep_src ep_dest chid : Z)
    (ti : TDMinfo) (ok : bool) (ti' : TDMinfo) :
  assign_ep src dest ep_src ep_dest chid ti = Some (ok, ti') →
  ti_table_config ti' = ti_table_config ti
  ∧ nodes_shape (ti_nodes ti') = nodes_shape (ti_nodes ti)
  ∧ ∃ a, result_of (node_ep src ep_src) ti = Some a
    ∧ if ok then
        a.1 = None
        ∧ (∃ b, result_of (node_ep dest ep_dest) ti = Some b ∧ b.2 = None)
        ∧ ∀ node ep,
            ep_index ti' node ep = ep_index ti node ep
            ∧ result_of (node_ep node ep) ti'
              = (λ e, (if bool_decide (ep_index ti node ep = ep_index ti src ep_src)
                       then Some chid else e.1,
                       if bool_decide (ep_index ti node ep
                                       = ep_index ti dest ep_dest)
                       then Some chid else e.2))
                <$> result_of (node_ep node ep) ti
      else
        ti' = ti
        ∧ (a.1 ≠ None
           ∨ ∃ b, result_of (node_ep dest ep_dest) ti = Some b ∧ b.2 ≠ None).
Proof.
  unfold assign_ep. intros Hrun.
  apply run_bind_Some in Hrun as (a & ti0 & [Ha ->]%node_ep_run & Hrun).
  case_bool_decide as Hafree.
  2: { injection Hrun as <- <-. split; [done|]. split; [done|]. exists a.
       by eauto. }
  apply run_bind_Some in Hrun as (b & ti0 & [Hb ->]%node_ep_run & Hrun).
  case_bool_decide as Hbfree.
  2: { injection Hrun as <- <-. split; [done|]. split; [done|]. exists a.
       split; [done|]. split; [done|]. right. by eauto. }
  apply run_bind_Some in Hrun as ([] & ti1 & Hset1 & Hrun).
  apply run_bind_Some in Hrun as ([] & ti2 & Hset2 & Hrun).
  injection Hrun as <- <-.
  apply set_node_ep_read in Hset1 as (a' & Ha' & Hti1 & Hsh1 & Hread1).
  apply set_node_ep_read in Hset2 as (b' & Hb' & Hti2 & Hsh2 & Hread2).
  assert (a' = a) as -> by congruence.
  split; [by rewrite Hti2, Hti1|]. split; [congruence|]. exists a. split; [done|].
  split; [done|]. split; [by eauto|]. intros node ep.
  destruct (Hread1 node ep) as [Hi1 Hr1]. destruct (Hread2 node ep) as [Hi2 Hr2].
  destruct (Hread1 dest ep_dest) as [Hid Hrd]. rewrite Hb' in Hrd.
  split; [congruence|]. rewrite Hr2, Hi1, Hid, Hr1.
  pose proof (node_ep_index_Some _ _ _ _ Ha) as [isrc His].
  pose proof (node_ep_index_Some _ _ _ _ Hb) as [idst Hid'].
  set (i := ep_index ti node ep) in *.
  set (isrc' := ep_index ti src ep_src) in *.
  set (idst' := ep_index ti dest ep_dest) in *.
  destruct (decide (i = idst')) as [Hd|Hd].
  - rewrite (bool_decide_eq_true_2 (i = idst')) by done.
    rewrite (node_ep_same_index _ _ _ _ _ Hd), Hb. simpl.
    destruct (decide (i = isrc')) as [Hs|Hs].
    + rewrite (bool_decide_eq_true_2 (i = isrc')) by done.
      rewrite bool_decide_eq_true_2 in Hrd by congruence.
      by injection Hrd as ->.
    + rewrite (bool_decide_eq_false_2 (i = isrc')) by done.
      rewrite bool_decide_eq_false_2 in Hrd by congruence.
      rewrite Hb in Hrd. by injection Hrd as ->.
  - rewrite !(bool_decide_eq_false_2 (i = idst')) by done.
    destruct (decide (i = isrc')) as [Hs|Hs].
    + rewrite !(bool_decide_eq_true_2 (i = isrc')) by done.
      by rewrite (node_ep_same_index _ _ _ _ _ Hs), Ha.
    + rewrite !(bool_decide_eq_false_2 (i = isrc')) by done.
      by destruct (result_of (node_ep node ep) ti) as [[]|].
Qed.

Lemma assign_ep_dims src dest ep_src ep_dest chid ti ok ti' :
  assign_ep src dest ep_src ep_dest chid ti = Some (ok, ti') →
  ti_x_dim ti' = ti_x_dim ti ∧ ti_y_dim ti' = ti_y_dim ti
  ∧ ti_num_ep ti' = ti_num_ep ti
  ∧ ti_slot_table_size ti' = ti_slot_table_size ti.
Proof.
  unfold assign_ep. intros Hrun.
  apply run_bind_Some in Hrun as (a & ? & [_ ->]%node_ep_run & Hrun).
  case_bool_decide; [|by injection Hrun as _ <-].
  apply run_bind_Some in Hrun as (b & ? & [_ ->]%node_ep_run & Hrun).
  case_bool_decide; [|by injection Hrun as _ <-].
  apply run_bind_Some in Hrun as ([] & ti1 & Hset1 & Hrun).
  apply run_bind_Some in Hrun as ([] & ti2 & Hset2 & Hrun).
  injection Hrun as _ <-.
  apply set_node_ep_read in Hset1 as (_ & _ & Heq1 & _).
  apply set_node_ep_read in Hset2 as (_ & _ & Heq2 & _).
  rewrite Heq2. simpl. rewrite Heq1. done.
Qed.

(** X3: [assign_ep] leaves the dimensions, the slot table and the number
    of endpoints of every node as they are.  When it returns [True], the outgoing side of
    [nodes[src][ep_src]] and the incoming side of [nodes[dest][ep_dest]]
    were free, they now hold [chid], and every other side of every endpoint
    is as before.  When it returns [False], one of the two sides was taken
    and nothing has changed. *)
Theorem assign_ep_all_or_nothing (src dest ep_src ep_dest chid : Z)
    (ti : TDMinfo) (ok : bool) (ti' : TDMinfo) :
  assign_ep src dest ep_src ep_dest chid ti = Some (ok, ti') →
  (ti_x_dim ti' = ti_x_dim ti ∧ ti_y_dim ti' = ti_y_dim ti
   ∧ ti_num_ep ti' = ti_num_ep ti
   ∧ ti_slot_table_size ti' = ti_slot_table_size ti)
  ∧ ti_table_config ti' = ti_table_config ti
  ∧ nodes_shape (ti_nodes ti') = nodes_shape (ti_nodes ti)
  ∧ ∃ a, result_of (node_ep src ep_src) ti = Some a
    ∧ if ok then
        a.1 = None
        ∧ (∃ b, result_of (node_ep dest ep_dest) ti = Some b ∧ b.2 = None)
        ∧ ∀ node ep,
            ep_index ti' node ep = ep_index ti node ep
            ∧ result_of (node_ep node ep) ti'
              = (λ e, (if bool_decide (ep_index ti node ep = ep_index ti src ep_src)
                       then Some chid else e.1,
                       if bool_decide (ep_index ti node ep
                                       = ep_index ti dest ep_dest)
                       then Some chid else e.2))
                <$> result_of (node_ep node ep) ti
      else
        ti' = ti
        ∧ (a.1 ≠ None
           ∨ ∃ b, result_of (node_ep dest ep_dest) ti = Some b ∧ b.2 ≠ None).
Proof.
  intros Hrun. split.
  - by eapply assign_ep_dims.
  - by apply assign_ep_spec.
Qed.

Lemma assign_ep_all_or_nothing_witness :
  ti_table_config (state_after (assign_ep 0 3 0 0 5) small_info)
  = ti_table_config small_info.
Proof.
  exact (proj1 (proj2 (assign_ep_all_or_nothing 0 3 0 0 5 small_info true _
                  ltac:(apply run_result_of; vm_compute; reflexivity)))).
Defined.

Lemma get_free_ep_result node out ti :
  result_of (get_free_ep node out) ti
  = (eps ← py_get (ti_nodes ti) node; Some (first_free_ep out eps 0)).
Proof.
  unfold result_of, get_free_ep. rewrite run_bind. unfold reads.
  by destruct (py_get (ti_nodes ti) node).
Qed.

Lemma row_lookup ti node eps (j : nat) :
  py_get (ti_nodes ti) node = Some eps →
  (j < length eps)%nat →
  result_of (node_ep node (Z.of_nat j)) ti = eps !! j.
Proof.
  intros Hrow Hj. rewrite node_ep_result, Hrow. simpl.
  rewrite py_get_nonneg by lia. by rewrite Nat2Z.id.
Qed.

Lemma nodes_shape_row (nodes nodes' : list (list (option Z * option Z))) node eps :
  nodes_shape nodes' = nodes_shape nodes →
  py_get nodes node = Some eps →
  ∃ eps', py_get nodes' node = Some eps' ∧ length eps' = length eps.
Proof.
  unfold nodes_shape. intros Hshape (n & Hn & Heps)%py_get_Some.
  assert (Hlen : length nodes' = length nodes).
  { by rewrite <- (length_fmap length nodes'), Hshape, length_fmap. }
  assert (Hrow : (length <$> nodes') !! Z.to_nat n = Some (length eps)).
  { by rewrite Hshape, list_lookup_fmap, Heps. }
  rewrite list_lookup_fmap in Hrow.
  destruct (nodes' !! Z.to_nat n) as [eps'|] eqn:Heps'; [|done].
  injection Hrow as Hrow. exists eps'. split; [|done].
  unfold py_get. rewrite Hlen, Hn. done.
Qed.

Lemma set_node_ep_is_Some node ep f ti e :
  result_of (node_ep node ep) ti = Some e →
  ∃ ti', set_node_ep node ep f ti = Some (tt, ti').
Proof.
  rewrite node_ep_result. unfold set_node_ep. intros Hread.
  destruct (py_get (ti_nodes ti) node) as [eps|] eqn:Hrow; [|done].
  simpl in *. rewrite Hread. simpl.
  destruct (proj2 (py_set_is_Some eps ep (f e)) ltac:(by eauto)) as [eps' ->].
  simpl.
  destruct (proj2 (py_set_is_Some (ti_nodes ti) node eps') ltac:(by eauto))
    as [nodes' ->].
  by eauto.
Qed.

(** The first free endpoint after the endpoints up to [e0] are taken. *)
Lemma free_ep_after out node e0 ti ti' :
  result_of (get_free_ep node out) ti = Some e0 → e0 ≠ -1 →
  nodes_shape (ti_nodes ti') = nodes_shape (ti_nodes ti) →
  (∀ ep a a', result_of (node_ep node ep) ti = Some a →
     result_of (node_ep node ep) ti' = Some a' →
     ep_taken out a → ep_taken out a') →
  (∀ a', result_of (node_ep node e0) ti' = Some a' → ep_taken out a') →
  ∃ r, result_of (get_free_ep node out) ti' = Some r ∧ (r = -1 ∨ e0 < r).
Proof.
  rewrite !get_free_ep_result. intros Hfree Hne Hshape Hkeep Hnow.
  destruct (py_get (ti_nodes ti) node) as [eps|] eqn:Hrow; [|done].
  injection Hfree as <-.
  destruct (nodes_shape_row _ _ _ _ Hshape Hrow) as (eps' & Hrow' & Hlen).
  rewrite Hrow'. simpl. eexists. split; [done|].
  destruct (first_free_ep_spec out eps 0) as [[[? _]|(Hr & _ & Hall)]|[? _]];
    [done| |lia].
  rewrite Z.sub_0_r in Hall.
  destruct (first_free_ep_spec out eps' 0)
    as [[[? _]|(Hr' & (e' & He' & Hfree') & _)]|[? _]]; [by left| |lia].
  rewrite Z.sub_0_r in He'. right.
  destruct (decide (first_free_ep out eps 0 < first_free_ep out eps' 0))
    as [|Hle]; [done|]. exfalso. apply Hfree'.
  set (r := first_free_ep out eps 0) in *.
  set (r' := first_free_ep out eps' 0) in *.
  assert (Hread' : result_of (node_ep node r') ti' = Some e').
  { rewrite <- (Z2Nat.id r') by lia. rewrite (row_lookup _ _ eps') by (done || lia).
    done. }
  destruct (decide (r' = r)) as [Heq|Hlt].
  - apply Hnow. by rewrite <- Heq.
  - destruct (eps !! Z.to_nat r') as [e|] eqn:He.
    2: { apply lookup_ge_None in He. lia. }
    eapply (Hkeep r' e e'); [|done|].
    + rewrite <- (Z2Nat.id r') by lia.
      rewrite (row_lookup _ _ eps) by (done || lia). done.
    + rewrite Forall_forall in Hall. apply Hall.
      apply (list_elem_of_lookup_2 _ (Z.to_nat r')).
      rewrite lookup_take_lt by lia. done.
Qed.

Lemma assign_ep_runs src dest ep_src ep_dest chid ti a b :
  result_of (node_ep src ep_src) ti = Some a → a.1 = None →
  result_of (node_ep dest ep_dest) ti = Some b → b.2 = None →
  ∃ ti', assign_ep src dest ep_src ep_dest chid ti = Some (true, ti').
Proof.
  intros Ha Hafree Hb Hbfree. unfold assign_ep.
  rewrite run_bind, (proj2 (node_ep_run src ep_src ti a ti)) by done.
  rewrite bool_decide_eq_true_2 by done.
  rewrite run_bind, (proj2 (node_ep_run dest ep_dest ti b ti)) by done.
  rewrite bool_decide_eq_true_2 by done.
  destruct (set_node_ep_is_Some src ep_src (λ e, (Some chid, e.2)) ti a Ha)
    as [ti1 Hset1].
  rewrite run_bind, Hset1.
  apply set_node_ep_read in Hset1 as (a1 & _ & _ & _ & Hread1).
  destruct (Hread1 dest ep_dest) as [_ Hb1]. rewrite Hb in Hb1.
  assert (∃ b1, result_of (node_ep dest ep_dest) ti1 = Some b1) as [b1 Hb1'].
  { rewrite Hb1. case_bool_decide; by eauto. }
  destruct (set_node_ep_is_Some dest ep_dest (λ e, (e.1, Some chid)) ti1 b1 Hb1')
    as [ti2 Hset2].
  rewrite run_bind, Hset2. by eauto.
Qed.

Lemma free_ep_found node out ti e0 :
  result_of (get_free_ep node out) ti = Some e0 → e0 ≠ -1 →
  ∃ a, result_of (node_ep node e0) ti = Some a ∧ ¬ ep_taken out a.
Proof.
  rewrite get_free_ep_result. intros Hfree Hne.
  destruct (py_get (ti_nodes ti) node) as [eps|] eqn:Hrow; [|done].
  injection Hfree as <-.
  destruct (first_free_ep_spec out eps 0) as [[[? _]|(Hr & (a & Ha & Hfree) & _)]|[? _]];
    [done| |lia].
  rewrite Z.sub_0_r in Ha. exists a. split; [|done].
  rewrite <- (Z2Nat.id (first_free_ep out eps 0)) by lia.
  rewrite (row_lookup _ _ eps) by (done || lia). done.
Qed.

Lemma not_taken_free out (a : option Z * option Z) :
  ¬ ep_taken out a → (if out then a.1 else a.2) = None.
Proof. unfold ep_taken. destruct (if out then a.1 else a.2); [|done]. by intros []. Qed.

(** Assigning the endpoints that [get_free_ep] has returned. *)
Lemma assign_free_eps src dest chid ti e1 e2 :
  result_of (get_free_ep src true) ti = Some e1 →
  result_of (get_free_ep dest false) ti = Some e2 →
  e1 ≠ -1 → e2 ≠ -1 →
  ∃ ti',
    assign_ep src dest e1 e2 chid ti = Some (true, ti')
    ∧ (∃ r1, result_of (get_free_ep src true) ti' = Some r1 ∧ (r1 = -1 ∨ e1 < r1))
    ∧ (∃ r2, result_of (get_free_ep dest false) ti' = Some r2
             ∧ (r2 = -1 ∨ e2 < r2)).
Proof.
  intros Hsrc Hdest Hne1 Hne2.
  destruct (free_ep_found _ _ _ _ Hsrc Hne1) as (a & Ha & Hafree%not_taken_free).
  destruct (free_ep_found _ _ _ _ Hdest Hne2) as (b & Hb & Hbfree%not_taken_free).
  destruct (assign_ep_runs src dest e1 e2 chid ti a b) as [ti' Hrun]; try done.
  exists ti'. split; [done|].
  apply assign_ep_spec in Hrun as (_ & Hshape & a' & _ & _ & _ & Hread).
  split.
  - apply (free_ep_after true src e1 ti ti'); try done.
    + intros ep x x' Hx Hx'. destruct (Hread src ep) as [_ Hr].
      rewrite Hx, Hx' in Hr. injection Hr as ->. unfold ep_taken. simpl.
      by destruct (bool_decide (_ = ep_index ti src e1)).
    + intros x' Hx'. destruct (Hread src e1) as [_ Hr]. rewrite Ha, Hx' in Hr.
      injection Hr as ->. unfold ep_taken. simpl.
      by rewrite bool_decide_eq_true_2.
  - apply (free_ep_after false dest e2 ti ti'); try done.
    + intros ep x x' Hx Hx'. destruct (Hread dest ep) as [_ Hr].
      rewrite Hx, Hx' in Hr. injection Hr as ->. unfold ep_taken. simpl.
      by destruct (bool_decide (_ = ep_index ti dest e2)).
    + intros x' Hx'. destruct (Hread dest e2) as [_ Hr]. rewrite Hb, Hx' in Hr.
      injection Hr as ->. unfold ep_taken. simpl.
      by rewrite bool_decide_eq_true_2.
Qed.

(** X4: the endpoints that [get_free_ep] returns for a source and a
    destination are accepted by [assign_ep], which leaves the slot table as
    it is, and afterwards [get_free_ep] returns for the same nodes and
    directions a larger index or -1: an assigned endpoint is not handed out
    again. *)
Theorem assigned_endpoints_not_offered (src dest chid : Z) (ti : TDMinfo)
    (e1 e2 : Z) :
  result_of (get_free_ep src true) ti = Some e1 →
  result_of (get_free_ep dest false) ti = Some e2 →
  e1 ≠ -1 → e2 ≠ -1 →
  ∃ ti',
    assign_ep src dest e1 e2 chid ti = Some (true, ti')
    ∧ ti_table_config ti' = ti_table_config ti
    ∧ (∃ r1, result_of (get_free_ep src true) ti' = Some r1 ∧ (r1 = -1 ∨ e1 < r1))
    ∧ (∃ r2, result_of (get_free_ep dest false) ti' = Some r2
             ∧ (r2 = -1 ∨ e2 < r2)).
Proof.
  intros Hsrc Hdest Hne1 Hne2.
  destruct (assign_free_eps src dest chid ti e1 e2 Hsrc Hdest Hne1 Hne2)
    as (ti' & Hrun & Hr1 & Hr2).
  exists ti'. split; [done|]. split; [|by split].
  by apply assign_ep_spec in Hrun as [? _].
Qed.

Lemma assigned_endpoints_not_offered_witness :
  ∃ ti', assign_ep 0 3 0 0 5 small_info = Some (true, ti')
         ∧ ti_table_config ti' = ti_table_config small_info
         ∧ (∃ r1, result_of (get_free_ep 0 true) ti' = Some r1 ∧ (r1 = -1 ∨ 0 < r1))
         ∧ (∃ r2, result_of (get_free_ep 3 false) ti' = Some r2
                  ∧ (r2 = -1 ∨ 0 < r2)).
Proof.
  apply (assigned_endpoints_not_offered 0 3 5 small_info 0 0).
  - vm_compute. reflexivity.
  - vm_compute. reflexivity.
  - lia.
  - lia.
Defined.

(** ** TDMChannel: adding and clearing a path *)

Lemma py_get_py_set_same {A} (l l' : list A) i x :
  py_set l i x = Some l' → py_get l' i = Some x.
Proof.
  intros Hset. rewrite (py_get_py_set _ _ _ i _ Hset).
  by rewrite bool_decide_eq_true_2.
Qed.

Lemma py_set_py_set_back {A} (l l1 l2 : list A) i x y :
  py_get l i = Some y → py_set l i x = Some l1 → py_set l1 i y = Some l2 →
  l2 = l.
Proof.
  unfold py_get, py_set. intros Hy H1 H2.
  destruct (py_index _ i) as [n|] eqn:Hn; [|done]. simpl in *.
  injection H1 as <-. rewrite length_insert, Hn in H2. simpl in H2.
  injection H2 as <-. rewrite list_insert_insert_eq. by apply list_insert_id.
Qed.

(** X5: [add_path] either returns -1 and leaves the channel as it is, or
    it returns the index that [get_free_path_idx] gives, a slot of [paths]
    that was free, and stores the path and its pid there; [clear_path] of
    that index then returns the pid and restores [paths], and [pids] is as
    before with [None] at the index. *)
Theorem add_path_clear_path (self : TDMChannel) (path : TDMPath) (pid idx : Z)
    (ch' : TDMChannel) :
  add_path self path pid = Some (idx, ch') →
  if bool_decide (0 ≤ idx) then
    _check_valid_path_parameters self path = Some true
    ∧ get_free_path_idx self = Some idx
    ∧ py_get (ch_paths self) idx = Some None
    ∧ py_get (ch_paths ch') idx = Some (Some pid)
    ∧ py_get (ch_pids ch') idx = Some (Some pid)
    ∧ ∃ ch'',
        clear_path ch' idx = Some (Some pid, ch'')
        ∧ ch_paths ch'' = ch_paths self
        ∧ (∀ p, py_get (ch_pids self) idx = Some p →
             py_set (ch_pids self) idx None = Some (ch_pids ch''))
  else idx = -1 ∧ ch' = self.
Proof.
  unfold add_path, get_free_path_idx. intros Hrun.
  destruct (_check_valid_path_parameters self path) as [[]|] eqn:Hok;
    simpl in Hrun; [| |done].
  2: { by injection Hrun as <- <-. }
  destruct (py_get (ch_paths self) 0) as [p0|] eqn:Hp0; simpl in *; [|done].
  assert (∃ i, (if bool_decide (p0 = None) then Some 0
                else p1 ← py_get (ch_paths self) 1;
                     Some (if bool_decide (p1 = None) then 1 else -1)) = Some i
               ∧ (i = -1 ∨ 0 ≤ i ∧ py_get (ch_paths self) i = Some None))
    as (i & Hi & Hfree).
  { destruct (decide (p0 = None)) as [->|H0].
    { rewrite bool_decide_eq_true_2 by done. exists 0.
      split; [done|]. right. by split; [lia|]. }
    rewrite (bool_decide_eq_false_2 (p0 = None)) in Hrun |- * by done.
    destruct (py_get (ch_paths self) 1) as [p1|] eqn:Hp1; [|done]. simpl.
    destruct (decide (p1 = None)) as [->|H1].
    - rewrite bool_decide_eq_true_2 by done. exists 1.
      split; [done|]. right. by split; [lia|].
    - rewrite bool_decide_eq_false_2 by done. exists (-1).
      split; [done|]. by left. }
  rewrite Hi in Hrun |- *. simpl in Hrun.
  destruct Hfree as [->|[Hpos Hfree]].
  { rewrite bool_decide_eq_false_2 in Hrun by lia. by injection Hrun as <- <-. }
  rewrite bool_decide_eq_true_2 in Hrun by lia.
  destruct (py_set (ch_paths self) i (Some pid)) as [paths|] eqn:Hs1; [|done].
  simpl in Hrun.
  destruct (py_set (ch_pids self) i (Some pid)) as [pids|] eqn:Hs2; [|done].
  simpl in Hrun.
  destruct (py_set (ch_errors self) i None) as [errors|] eqn:Hs3; [|done].
  injection Hrun as <- <-. rewrite bool_decide_eq_true_2 by done.
  split; [done|]. split; [done|]. split; [done|]. simpl.
  split; [by eapply py_get_py_set_same|].
  split; [by eapply py_get_py_set_same|].
  unfold clear_path. simpl. rewrite (py_get_py_set_same _ _ _ _ Hs2). simpl.
  destruct (proj2 (py_set_is_Some paths i None)) as [paths' Hs1'].
  { rewrite (py_get_py_set_same _ _ _ _ Hs1). by eauto. }
  destruct (proj2 (py_set_is_Some pids i None)) as [pids' Hs2'].
  { rewrite (py_get_py_set_same _ _ _ _ Hs2). by eauto. }
  destruct (proj2 (py_set_is_Some errors i None)) as [errors' Hs3'].
  { rewrite (py_get_py_set_same _ _ _ _ Hs3). by eauto. }
  rewrite Hs1', Hs2', Hs3'. simpl. eexists. split; [done|]. simpl.
  split; [by eapply py_set_py_set_back|].
  intros p Hp. clear -Hs2 Hs2'. unfold py_set in *.
  destruct (py_index (Z.of_nat (length (ch_pids self))) i) as [n|] eqn:Hn;
    [|done].
  simpl in *. injection Hs2 as <-. rewrite length_insert, Hn in Hs2'.
  simpl in Hs2'. injection Hs2' as <-. by rewrite list_insert_insert_eq.
Qed.

Lemma add_path_clear_path_witness :
  ∃ ch'',
    clear_path
      (mkTDMChannel [Some 4; Some 7] [Some 4; Some 7] [Some false; None] 0 3 0 0 1)
      1
    = Some (Some 7, ch'')
    ∧ ch_paths ch'' = [Some 4; None].
Proof.
  pose proof (add_path_clear_path
    (mkTDMChannel [Some 4; None] [Some 4; None] [Some false; Some false] 0 3 0 0 1)
    (TDMPath_new [0; 2; 3] [2] 1 0 0) 7 1 _ eq_refl)
    as (_ & _ & _ & _ & _ & ch'' & Hclear & Hpaths & _).
  exists ch''. by split.
Defined.

(** ** TDMPath: alternative paths *)

Lemma existsb_swap {A B} (f : A → B → bool) (l1 : list A) (l2 : list B) :
  existsb (λ x, existsb (λ y, f x y) l2) l1
  = existsb (λ y, existsb (λ x, f x y) l1) l2.
Proof.
  apply Bool.eq_iff_eq_true. rewrite !existsb_exists. split.
  - intros (x & Hx & (y & Hy & Hf)%existsb_exists). exists y. split; [done|].
    apply existsb_exists. by eauto.
  - intros (y & Hy & (x & Hx & Hf)%existsb_exists). exists x. split; [done|].
    apply existsb_exists. by eauto.
Qed.

Lemma existsb_ext_in {A} (f g : A → bool) l :
  (∀ x, f x = g x) → existsb f l = existsb g l.
Proof. intros Hfg. induction l as [|x l IH]; simpl; [done|]. by rewrite Hfg, IH. Qed.

Lemma bool_decide_eq_sym {A} `{EqDecision A} (x y : A) :
  bool_decide (x = y) = bool_decide (y = x).
Proof. by apply bool_decide_ext. Qed.

Lemma bool_decide_ne_sym {A} `{EqDecision A} (x y : A) :
  bool_decide (x ≠ y) = bool_decide (y ≠ x).
Proof. by apply bool_decide_ext. Qed.

Lemma shares_hop_sym (p q : list Z) : shares_hop p q = shares_hop q p.
Proof.
  unfold shares_hop. rewrite existsb_swap. apply existsb_ext_in. intros i.
  apply existsb_ext_in. intros j.
  by rewrite (bool_decide_eq_sym (p !! j)), (bool_decide_eq_sym (p !! S j)).
Qed.

(** X6: [valid_alternative_path] gives the same answer, and raises for the
    same pairs, when the two paths are exchanged. *)
Theorem valid_alternative_path_symmetric (p q : TDMPath) :
  valid_alternative_path p q = valid_alternative_path q p.
Proof.
  unfold valid_alternative_path.
  rewrite (bool_decide_ne_sym (length (p_slots p))),
    (bool_decide_eq_sym (p_link p)), (bool_decide_ne_sym (p_ep_src p)),
    (bool_decide_ne_sym (p_ep_dest p)).
  case_match; [done|].
  destruct (py_get (p_path p) 0) as [a0|], (py_get (p_path q) 0) as [b0|];
    simpl; try done.
  rewrite (bool_decide_ne_sym a0). case_bool_decide; [done|].
  destruct (py_get (p_path p) (-1)) as [a1|], (py_get (p_path q) (-1)) as [b1|];
    simpl; try done.
  rewrite (bool_decide_ne_sym a1). case_bool_decide; [done|].
  by rewrite shares_hop_sym.
Qed.

(** ** TDMinfo: the initial state and [reset] *)

Lemma elem_of_all_table_keys (k : table_key) x_dim y_dim size :
  k ∈ all_table_keys x_dim y_dim size ↔
  0 ≤ k.1.1.1 < x_dim * y_dim
  ∧ 0 ≤ k.1.2 < (if k.1.1.2 then 4 else 6)
  ∧ 0 ≤ k.2 < size.
Proof.
  unfold all_table_keys. destruct k as [[[n ni] i] s]. cbn [fst snd].
  rewrite list_elem_of_bind. split.
  - intros (n' & (i' & Hk & Hi%elem_of_seqZ)%list_elem_of_bind & Hn%elem_of_seqZ).
    apply elem_of_app in Hk as [Hk|Hk].
    + apply list_elem_of_fmap in Hk as (s' & [= -> -> -> ->] & Hs%elem_of_seqZ).
      lia.
    + case_bool_decide; [|by apply elem_of_nil in Hk].
      apply list_elem_of_fmap in Hk as (s' & [= -> -> -> ->] & Hs%elem_of_seqZ).
      lia.
  - intros (Hn & Hi & Hs). exists n. split; [|apply elem_of_seqZ; lia].
    apply list_elem_of_bind. exists i.
    split; [|apply elem_of_seqZ; destruct ni; lia].
    apply elem_of_app. destruct ni.
    + right. rewrite bool_decide_eq_true_2 by lia.
      apply list_elem_of_fmap. exists s. split; [done|apply elem_of_seqZ; lia].
    + left. apply list_elem_of_fmap. exists s.
      split; [done|apply elem_of_seqZ; lia].
Qed.

Lemma py_index_in_range len i : 0 ≤ i < len → py_index len i = Some i.
Proof. intros Hi. unfold py_index. by rewrite bool_decide_eq_true_2. Qed.

Lemma table_index_key ti (k : table_key) :
  k ∈ all_table_keys (ti_x_dim ti) (ti_y_dim ti) (ti_slot_table_size ti) →
  table_index ti k.1.1.1 k.1.1.2 k.1.2 k.2 = Some k.
Proof.
  intros (Hn & Hi & Hs)%elem_of_all_table_keys. unfold table_index.
  rewrite !py_index_in_range by done. by destruct k as [[[??]?]?].
Qed.

Lemma ti_set_table_twice t t' ti :
  ti_set_table t' (ti_set_table t ti) = ti_set_table t' ti.
Proof. done. Qed.

Lemma ti_set_table_same ti : ti_set_table (ti_table_config ti) ti = ti.
Proof. by destruct ti. Qed.

(** The loop of [reset] over the slot tables. *)
Lemma reset_table_run (keys : list table_key) ti :
  (∀ k, k ∈ keys → table_index ti k.1.1.1 k.1.1.2 k.1.2 k.2 = Some k
                   ∧ is_Some (ti_table_config ti !! k)) →
  for_each keys (λ k : table_key,
    match k with
    | (n, ni, i, s) => set_table_entry n ni i s EMPTY None
    end) ti
  = Some (tt, ti_set_table
                (foldl (λ t k, <[k := (EMPTY, None)]> t) (ti_table_config ti) keys)
                ti).
Proof.
  revert ti. induction keys as [|k keys IH]; intros ti Hkeys.
  - simpl. by rewrite ti_set_table_same.
  - destruct (Hkeys k ltac:(left)) as [Hk [e He]].
    cbn [for_each foldl]. rewrite run_bind.
    destruct k as [[[n ni] i] s]. cbn [fst snd] in Hk.
    unfold set_table_entry at 1. rewrite Hk. simpl. rewrite He. simpl.
    rewrite IH.
    + done.
    + intros k' Hk'. destruct (Hkeys k' ltac:(by right)) as [Hidx Hsome].
      split; [done|]. simpl. rewrite lookup_insert_is_Some'. by right.
Qed.

Lemma lookup_foldl_insert {A} (keys : list table_key) (x : A)
    (t : gmap table_key A) k :
  foldl (λ t k, <[k := x]> t) t keys !! k
  = if decide (k ∈ keys) then Some x else t !! k.
Proof.
  revert t. induction keys as [|k' keys IH]; intros t; cbn [foldl].
  - rewrite decide_False; [done|]. by intros ?%elem_of_nil.
  - rewrite IH. destruct (decide (k ∈ keys)) as [Hin|Hnin].
    + rewrite decide_True by by right. done.
    + destruct (decide (k = k')) as [->|Hne].
      * rewrite decide_True by by left. apply lookup_insert_eq.
      * rewrite decide_False by (intros [?|?]%elem_of_cons; done).
        by apply lookup_insert_ne.
Qed.

Lemma py_get_at {A} (l : list A) (i : Z) x :
  0 ≤ i → l !! Z.to_nat i = Some x → py_get l i = Some x.
Proof. intros Hi Hx. by rewrite py_get_nonneg. Qed.

Lemma py_set_at {A} (l : list A) (i : Z) x y :
  0 ≤ i → l !! Z.to_nat i = Some y →
  py_set l i x = Some (<[Z.to_nat i := x]> l).
Proof.
  intros Hi Hy. unfold py_set. apply lookup_lt_Some in Hy.
  rewrite py_index_in_range by lia. done.
Qed.

Lemma set_node_ep_at n ep f ti row e :
  0 ≤ n → ti_nodes ti !! Z.to_nat n = Some row →
  0 ≤ ep → row !! Z.to_nat ep = Some e →
  set_node_ep n ep f ti
  = Some (tt, ti_set_nodes
                (<[Z.to_nat n := <[Z.to_nat ep := f e]> row]> (ti_nodes ti)) ti).
Proof.
  intros Hn Hrow Hep He. unfold set_node_ep.
  rewrite (py_get_at _ _ _ Hn Hrow). simpl.
  rewrite (py_get_at _ _ _ Hep He). simpl.
  rewrite (py_set_at _ _ _ _ Hep He). simpl.
  by rewrite (py_set_at _ _ _ _ Hn Hrow).
Qed.

Lemma ti_set_nodes_twice ns ns' ti :
  ti_set_nodes ns' (ti_set_nodes ns ti) = ti_set_nodes ns' ti.
Proof. done. Qed.

Lemma ti_set_nodes_same ti : ti_set_nodes (ti_nodes ti) ti = ti.
Proof. by destruct ti. Qed.

(** The loop of [reset] over the endpoints [j], ..., [j + m - 1] of node
    [n]. *)
Lemma reset_row_run n (m : nat) (j : nat) ti row :
  0 ≤ n → ti_nodes ti !! Z.to_nat n = Some row →
  (j + m ≤ length row)%nat →
  for_each (seqZ (Z.of_nat j) (Z.of_nat m))
    (λ ep, set_node_ep n ep (λ _, (None, None))) ti
  = Some (tt, ti_set_nodes
                (<[Z.to_nat n := take j row ++ replicate m (None, None)
                                 ++ drop (j + m) row]> (ti_nodes ti)) ti).
Proof.
  intros Hn. revert j ti row. induction m as [|m IH]; intros j ti row Hrow Hlen.
  - simpl. rewrite Nat.add_0_r, take_drop, list_insert_id by done.
    by rewrite ti_set_nodes_same.
  - rewrite seqZ_cons by lia. cbn [for_each]. rewrite run_bind.
    destruct (row !! j) as [e|] eqn:He.
    2: { apply lookup_ge_None in He. lia. }
    rewrite (set_node_ep_at n (Z.of_nat j) _ ti row e) by (rewrite ?Nat2Z.id; done || lia).
    rewrite Nat2Z.id.
    replace (Z.succ (Z.of_nat j)) with (Z.of_nat (S j)) by lia.
    replace (Z.pred (Z.of_nat (S m))) with (Z.of_nat m) by lia.
    rewrite (IH (S j) _ (<[j := (None, None)]> row)).
    + rewrite ti_set_nodes_twice. simpl. rewrite list_insert_insert_eq.
      do 3 f_equal.
      rewrite (take_S_r _ _ (None, None))
        by (apply list_lookup_insert_eq; apply lookup_lt_Some in He; lia).
      rewrite take_insert_ge by lia. rewrite <- app_assoc. simpl.
      rewrite drop_insert_lt by lia.
      by replace (j + S m)%nat with (S (j + m)) by lia.
    + simpl. apply list_lookup_insert_eq. apply lookup_lt_Some in Hrow. lia.
    + rewrite length_insert. lia.
Qed.

Lemma seqZ_to_nat m n : seqZ m n = seqZ m (Z.of_nat (Z.to_nat n)).
Proof.
  destruct (decide (0 ≤ n)); [by rewrite Z2Nat.id|].
  rewrite !seqZ_nil by lia. done.
Qed.

(** The body of the loop of [reset] over the nodes. *)
Lemma reset_node_run n ti row e :
  0 ≤ n → ti_nodes ti !! Z.to_nat n = Some row →
  ti_num_ep ti !! Z.to_nat n = Some e → length row = Z.to_nat e →
  (num ← reads (λ ti, ti_num_ep ti !! Z.to_nat n);
   for_each (seqZ 0 num) (λ ep, set_node_ep n ep (λ _, (None, None)))) ti
  = Some (tt, ti_set_nodes
                (<[Z.to_nat n := replicate (length row) (None, None)]>
                   (ti_nodes ti)) ti).
Proof.
  intros Hn Hrow He Hlen. rewrite run_bind. unfold reads. rewrite He.
  rewrite (seqZ_to_nat 0 e), <- Hlen.
  pose proof (reset_row_run n (length row) 0 ti row Hn Hrow ltac:(lia)) as Hrun.
  change (Z.of_nat 0) with 0 in Hrun. rewrite Hrun.
  rewrite take_0, Nat.add_0_l, drop_all, app_nil_r. done.
Qed.

Lemma reset_nodes_run (m a : nat) ti :
  (∀ i, (a ≤ i < a + m)%nat →
     ∃ row e, ti_nodes ti !! i = Some row ∧ ti_num_ep ti !! i = Some e
              ∧ length row = Z.to_nat e) →
  for_each (seqZ (Z.of_nat a) (Z.of_nat m)) (λ n,
    num ← reads (λ ti, ti_num_ep ti !! Z.to_nat n);
    for_each (seqZ 0 num) (λ ep, set_node_ep n ep (λ _, (None, None)))) ti
  = Some (tt, ti_set_nodes
                (take a (ti_nodes ti)
                 ++ ((λ row, replicate (length row) (None, None))
                       <$> take m (drop a (ti_nodes ti)))
                 ++ drop (a + m) (ti_nodes ti)) ti).
Proof.
  revert a ti. induction m as [|m IH]; intros a ti Hrows.
  - simpl. rewrite Nat.add_0_r, take_drop. by rewrite ti_set_nodes_same.
  - rewrite seqZ_cons by lia. cbn [for_each]. rewrite run_bind.
    destruct (Hrows a ltac:(lia)) as (row & e & Hrow & He & Hlen).
    rewrite (reset_node_run (Z.of_nat a) ti row e)
      by (rewrite ?Nat2Z.id; done || lia).
    rewrite Nat2Z.id.
    replace (Z.succ (Z.of_nat a)) with (Z.of_nat (S a)) by lia.
    replace (Z.pred (Z.of_nat (S m))) with (Z.of_nat m) by lia.
    rewrite IH.
    + rewrite ti_set_nodes_twice. simpl. do 3 f_equal.
      rewrite (take_S_r _ _ (replicate (length row) (None, None)))
        by (apply list_lookup_insert_eq; apply lookup_lt_Some in Hrow; lia).
      rewrite take_insert_ge by lia. rewrite <- app_assoc.
      rewrite !drop_insert_lt by lia.
      rewrite (drop_S _ _ _ Hrow). simpl.
      by replace (a + S m)%nat with (S (a + m)) by lia.
    + intros i Hi. simpl. rewrite list_lookup_insert_ne by lia.
      apply Hrows. lia.
Qed.

Lemma fresh_table_lookup (keys : list table_key) k :
  (list_to_map ((λ k, (k, (EMPTY, None))) <$> keys) : gmap table_key slot_entry)
    !! k
  = if decide (k ∈ keys) then Some (EMPTY, None) else None.
Proof.
  destruct (decide (k ∈ keys)) as [Hin|Hnin].
  - apply elem_of_list_to_map_1'.
    + by intros y (k' & [= -> ->] & _)%list_elem_of_fmap.
    + apply list_elem_of_fmap. by exists k.
  - apply not_elem_of_list_to_map_1. rewrite <- list_fmap_compose.
    by intros (k' & -> & ?)%list_elem_of_fmap.
Qed.

Lemma reset_run (x_dim y_dim : Z) (num_ep : list Z) (size : Z)
    (ti0 ti : TDMinfo) :
  TDMinfo_new x_dim y_dim num_ep size = Some ti0 →
  same_shape ti0 ti →
  TDMinfo_reset ti = Some (tt, ti0).
Proof.
  unfold TDMinfo_new. intros Hnew (Hx & Hy & Hnum & Hsize & Hshape & Hdom & Hdom0).
  destruct (mapM _ _) as [nodes0|] eqn:Hnodes; [|done]. injection Hnew as <-.
  simpl in *. apply mapM_Some in Hnodes.
  pose proof (Forall2_length _ _ _ Hnodes) as Hlen0. rewrite length_seqZ in Hlen0.
  assert (Hlen : length (ti_nodes ti) = length nodes0).
  { unfold nodes_shape in Hshape.
    by rewrite <- (length_fmap length (ti_nodes ti)), Hshape, length_fmap. }
  assert (Hrows : ∀ i, (i < length nodes0)%nat →
    ∃ row e, ti_nodes ti !! i = Some row ∧ num_ep !! i = Some e
             ∧ length row = Z.to_nat e
             ∧ nodes0 !! i = Some (replicate (Z.to_nat e) (None, None))).
  { intros i Hi.
    destruct (Forall2_lookup_l _ _ _ i (Z.of_nat i) Hnodes) as (r0 & Hr0 & He).
    { rewrite lookup_seqZ_lt by lia. done. }
    rewrite Nat2Z.id in He. destruct (num_ep !! i) as [e|]; [|done].
    injection He as <-.
    destruct (ti_nodes ti !! i) as [row|] eqn:Hrow.
    2: { apply lookup_ge_None in Hrow. lia. }
    exists row, e. split; [done|]. split; [done|]. split; [|done].
    assert (Hl : nodes_shape (ti_nodes ti) !! i = Some (length row))
      by (unfold nodes_shape; by rewrite list_lookup_fmap, Hrow).
    rewrite Hshape in Hl. unfold nodes_shape in Hl.
    rewrite list_lookup_fmap, Hr0 in Hl. injection Hl as Hl.
    by rewrite <- Hl, length_replicate. }
  unfold TDMinfo_reset.
  rewrite run_bind, run_gets. cbv beta iota.
  rewrite run_bind, run_gets. cbv beta iota.
  rewrite run_bind, run_gets. cbv beta iota.
  rewrite Hx, Hy, Hsize, run_bind, (seqZ_to_nat 0 (x_dim * y_dim)), Hlen0.
  pose proof (reset_nodes_run (length nodes0) 0 ti) as Hloop.
  change (Z.of_nat 0) with 0 in Hloop. rewrite Hloop; clear Hloop.
  2: { intros i Hi. destruct (Hrows i ltac:(lia)) as (row & e & ? & ? & ? & _).
       exists row, e. by rewrite Hnum. }
  cbv beta iota.
  rewrite take_0, drop_0, Nat.add_0_l, <- Hlen, firstn_all, drop_all, app_nil_r.
  simpl.
  assert (Hn : (λ row : list (option Z * option Z),
                  replicate (length row) (None, None)) <$> ti_nodes ti = nodes0).
  { apply list_eq. intros i. rewrite list_lookup_fmap.
    destruct (decide (i < length nodes0)%nat) as [Hi|Hi].
    - destruct (Hrows i Hi) as (row & e & Hrow & _ & Hl & Hr0).
      rewrite Hrow, Hr0. simpl. by rewrite Hl.
    - rewrite !(proj2 (lookup_ge_None _ _)) by lia. done. }
  rewrite Hn.
  set (ti1 := ti_set_nodes nodes0 ti).
  set (keys := all_table_keys x_dim y_dim size) in *.
  assert (Hin0 : ∀ k, k ∈ keys → is_Some (ti_table_config ti !! k)).
  { intros k Hk.
    apply (Hdom0 k (EMPTY, None)). by rewrite fresh_table_lookup, decide_True. }
  rewrite (reset_table_run keys ti1).
  2: { intros k Hk. split; [|by apply Hin0].
       apply table_index_key. unfold ti1. simpl. by rewrite Hx, Hy, Hsize. }
  f_equal. f_equal. unfold ti1, ti_set_table, ti_set_nodes. simpl.
  rewrite Hx, Hy, Hnum, Hsize. f_equal. apply map_eq. intros k.
  rewrite lookup_foldl_insert, fresh_table_lookup.
  destruct (decide (k ∈ keys)) as [Hk|Hk]; [done|].
  destruct (ti_table_config ti !! k) as [e|] eqn:He; [|done].
  apply Hdom in He. rewrite fresh_table_lookup, decide_False in He by done.
  by destruct He.
Qed.

(** The mutators of the mirror keep its shape. *)
Lemma same_shape_refl ti : same_shape ti ti.
Proof.
  repeat split; try done; intros k e He; by eexists.
Qed.

Lemma same_shape_set_table_entry ti0 ti node ni port slot config pid ti' :
  same_shape ti0 ti →
  set_table_entry node ni port slot config pid ti = Some (tt, ti') →
  same_shape ti0 ti'.
Proof.
  intros (Hx & Hy & Hnum & Hsize & Hshape & Hdom & Hdom0). unfold set_table_entry.
  destruct (table_index ti node ni port slot) as [k|]; [|done]. simpl.
  destruct (ti_table_config ti !! k) as [e|] eqn:He; [|done]. intros [= <-].
  repeat split; try done; simpl.
  - intros k' e'. destruct (decide (k' = k)) as [->|Hne].
    + intros _. by eapply Hdom.
    + rewrite lookup_insert_ne by done. apply Hdom.
  - intros k' e' He'. rewrite lookup_insert_is_Some'. right. by eapply Hdom0.
Qed.

Lemma same_shape_assign_ep ti0 ti src dest ep_src ep_dest chid ok ti' :
  same_shape ti0 ti →
  assign_ep src dest ep_src ep_dest chid ti = Some (ok, ti') →
  same_shape ti0 ti'.
Proof.
  intros (Hx & Hy & Hnum & Hsize & Hshape & Hdom & Hdom0) Hrun.
  pose proof (assign_ep_spec _ _ _ _ _ _ _ _ Hrun) as (Htable & Hsh & _).
  destruct (assign_ep_dims _ _ _ _ _ _ _ _ Hrun) as (? & ? & ? & ?).
  repeat split; try congruence; by rewrite Htable.
Qed.

(** X7: [reset] gives back the mirror as [TDMinfo.__init__] made it, with
    every endpoint free and every entry [(EMPTY, None)], from every mirror
    of the same shape; [set_table_entry] and [assign_ep] keep the shape. *)
Theorem reset_restores (x_dim y_dim : Z) (num_ep : list Z) (size : Z)
    (ti0 ti : TDMinfo) :
  TDMinfo_new x_dim y_dim num_ep size = Some ti0 →
  same_shape ti0 ti →
  TDMinfo_reset ti = Some (tt, ti0)
  ∧ (∀ node ni port slot config pid ti',
       set_table_entry node ni port slot config pid ti = Some (tt, ti') →
       same_shape ti0 ti')
  ∧ (∀ src dest ep_src ep_dest chid ok ti',
       assign_ep src dest ep_src ep_dest chid ti = Some (ok, ti') →
       same_shape ti0 ti').
Proof.
  intros Hnew Hshape. split; [by eapply reset_run|]. split.
  - intros *. by apply same_shape_set_table_entry.
  - intros *. by apply same_shape_assign_ep.
Qed.

Lemma Some_default {A} (o : option A) (d : A) :
  is_Some o → o = Some (default d o).
Proof. by intros [x ->]. Qed.

Lemma reset_restores_witness :
  TDMinfo_reset used_info = Some (tt, small_info).
Proof.
  apply (reset_restores 2 2 [1; 1; 1; 1] 4 small_info used_info).
  - assert (Hnew : is_Some (CtrlModClient_new 4 2 2 [1; 1; 1; 1])).
    { apply (bool_decide_unpack _). vm_compute. exact I. }
    unfold small_info, small_client. destruct Hnew as [c Hc]. rewrite Hc.
    unfold CtrlModClient_new in Hc.
    destruct (TDMinfo_new 2 2 [1; 1; 1; 1] 4) as [ti|]; [|done].
    by injection Hc as <-.
  - unfold same_shape. apply (bool_decide_unpack _). vm_compute. exact I.
Defined.

Global Instance keeps_preorder {S} (P : S → Prop) : PreOrder (keeps P).
Proof.
  split.
  - intros s Hs. exact Hs.
  - intros s1 s2 s3 H12 H23 H1. apply H23, H12, H1.
Qed.

(** ** The ends of the two routes *)

Lemma node_of_coordinates x_dim n : x_dim ≠ 0 → x_dim * (n / x_dim) + n mod x_dim = n.
Proof. intros Hx. symmetry. by apply Z.div_mod. Qed.

Lemma find_path_A_ends x_dim src dest :
  x_dim ≠ 0 →
  head (find_path_A x_dim src dest) = Some src
  ∧ last (find_path_A x_dim src dest) = Some dest.
Proof.
  intros Hx. unfold find_path_A. cbv zeta. split.
  - rewrite find_path_x_y_cons. simpl. by rewrite node_of_coordinates.
  - by rewrite find_path_x_y_last, node_of_coordinates.
Qed.

Lemma last_cons_nonempty {A} (a : A) l : l ≠ [] → last (a :: l) = last l.
Proof. by destruct l. Qed.

Lemma find_path_B_ends x_dim y_dim src dest :
  x_dim ≠ 0 →
  head (find_path_B x_dim y_dim src dest) = Some src
  ∧ last (find_path_B x_dim y_dim src dest) = Some dest.
Proof.
  intros Hx. rewrite find_path_B_cases. cbv zeta.
  pose proof (node_of_coordinates x_dim src Hx) as Hsrc.
  pose proof (node_of_coordinates x_dim dest Hx) as Hdest.
  repeat case_decide.
  - split.
    + rewrite find_path_y_x_cons. simpl. by rewrite Hsrc.
    + by rewrite find_path_y_x_last, Hdest.
  - simpl. rewrite Hsrc. split; [done|]. f_equal.
    destruct H0 as [Hex Hey]. rewrite <- Hsrc, <- Hdest. by rewrite Hex, Hey.
  - split; [simpl; by rewrite Hsrc|].
    rewrite last_cons_nonempty by (rewrite find_path_y_x_cons; done).
    by rewrite find_path_y_x_last, Hdest.
  - split; [simpl; by rewrite Hsrc|].
    rewrite last_cons_nonempty by (rewrite find_path_x_y_cons; done).
    by rewrite find_path_x_y_last, Hdest.
Qed.

(** ** Configuring and clearing a path *)

Lemma configure_then_clear_run path slots ep_src ep_dest link c :
  dims_agree c →
  table_clean (cm_table c) →
  cm_tdm_paths c !! cm_nxt_pid c = None →
  path ≠ [] →
  Forall (path_free (cm_tdm_info c) path link ep_src ep_dest) slots →
  ∃ t1 pkts1 t2 pkts2,
    let tp := TDMPath_new path slots link ep_src ep_dest in
    let c1 := with_paths (<[cm_nxt_pid c := tp]> (cm_tdm_paths c))
                (cm_nxt_pid c + 1) (with_table t1 pkts1 c) in
    _configure_tdm_path path slots ep_src ep_dest link c = Some (cm_nxt_pid c, c1)
    ∧ _clear_tdm_path (Some (cm_nxt_pid c)) c1
      = Some (true, cm_set_tdm_paths (cm_tdm_paths c) (with_table t2 pkts2 c1))
    ∧ t2 = cm_table c.
Proof.
  intros Hdims Hclean Hfresh Hne Hfree.
  destruct (configure_tdm_path_run path slots ep_src ep_dest link c Hdims Hne)
    as (t1 & pkts1 & Hconf & Hwrite); [by eapply path_free_present|].
  set (tp := TDMPath_new path slots link ep_src ep_dest) in *.
  set (c1 := with_paths _ _ _) in Hconf.
  destruct (clear_tdm_path_run (cm_nxt_pid c) tp c1) as (t2 & pkts2 & Hclear & Hwipe);
    [done|apply lookup_insert_eq|done| |].
  { apply (path_present_domain t1 pkts1 c); [apply Hwrite|].
    by eapply path_free_present. }
  exists t1, pkts1, t2, pkts2. cbv zeta. fold tp c1.
  split; [done|]. split.
  - rewrite Hclear. do 3 f_equal. simpl. by apply delete_insert_id.
  - by eapply configure_clear_restores.
Qed.

(** X8: on a clean table, [_configure_tdm_path] of a route on start slots
    that [check_path] reports free stores the path under the next pid, and
    [_clear_tdm_path] of that pid then returns [True] and gives back the
    slot table and the stored paths as they were; the channels, the
    endpoint table and the channel counter are untouched, and the path
    counter has advanced by one. *)
Theorem configure_then_clear (path slots : list Z) (ep_src ep_dest link : Z)
    (c : CtrlModClient) :
  dims_agree c →
  table_clean (cm_table c) →
  cm_tdm_paths c !! cm_nxt_pid c = None →
  path ≠ [] →
  Forall (path_free (cm_tdm_info c) path link ep_src ep_dest) slots →
  ∃ c1 c2,
    _configure_tdm_path path slots ep_src ep_dest link c = Some (cm_nxt_pid c, c1)
    ∧ cm_tdm_paths c1 !! cm_nxt_pid c
      = Some (TDMPath_new path slots link ep_src ep_dest)
    ∧ _clear_tdm_path (Some (cm_nxt_pid c)) c1 = Some (true, c2)
    ∧ cm_table c2 = cm_table c
    ∧ cm_tdm_paths c2 = cm_tdm_paths c
    ∧ cm_tdm_channels c2 = cm_tdm_channels c
    ∧ ti_nodes (cm_tdm_info c2) = ti_nodes (cm_tdm_info c)
    ∧ cm_nxt_chid c2 = cm_nxt_chid c
    ∧ cm_nxt_pid c2 = cm_nxt_pid c + 1.
Proof.
  intros Hdims Hclean Hfresh Hne Hfree.
  destruct (configure_then_clear_run path slots ep_src ep_dest link c)
    as (t1 & pkts1 & t2 & pkts2 & Hconf & Hclear & Htable); try done.
  cbv zeta in *. eexists _, _. split; [exact Hconf|].
  split; [apply lookup_insert_eq|]. split; [exact Hclear|].
  by repeat split.
Qed.

Lemma path_free_result ti path link ep_src ep_dest slot :
  result_of (check_path path slot link ep_src ep_dest) ti = Some true →
  path_free ti path link ep_src ep_dest slot.
Proof.
  unfold result_of, path_free.
  destruct (check_path _ _ _ _ _ ti) as [[r ti']|] eqn:Hrun; [|done].
  intros [= ->]. f_equal. f_equal. symmetry.
  by eapply check_path_read_only.
Qed.

Lemma configure_then_clear_witness :
  ∃ c1 c2,
    _configure_tdm_path [0; 1; 3] [1; 2] 0 0 0 busy_client
    = Some (cm_nxt_pid busy_client, c1)
    ∧ _clear_tdm_path (Some (cm_nxt_pid busy_client)) c1 = Some (true, c2)
    ∧ cm_table c2 = cm_table busy_client.
Proof.
  destruct (configure_then_clear [0; 1; 3] [1; 2] 0 0 0 busy_client)
    as (c1 & c2 & Hconf & _ & Hclear & Htable & _).
  - by vm_compute.
  - unfold table_clean. apply (bool_decide_unpack _). vm_compute. exact I.
  - vm_compute. reflexivity.
  - done.
  - apply Forall_cons. split; [apply path_free_result; vm_compute; reflexivity|].
    apply Forall_cons. split; [apply path_free_result; vm_compute; reflexivity|].
    by apply Forall_nil.
  - exists c1, c2. split; [exact Hconf|]. split; [exact Hclear|exact Htable].
Defined.

(** ** Deleting a channel *)

Lemma delete_tdm_channel_channels chid c c' :
  delete_tdm_channel chid c = Some (tt, c') →
  cm_tdm_channels c' = delete chid (cm_tdm_channels c)
  ∧ cm_nxt_chid c' = cm_nxt_chid c.
Proof.
  unfold delete_tdm_channel. intros Hrun.
  apply run_bind_Some in Hrun as (ch & c0 & [= <- <-] & Hrun).
  destruct (cm_tdm_channels c !! chid) as [ch|] eqn:Hch.
  - apply run_bind_Some in Hrun as ([] & c1 & Hloop & [= <-]).
    assert (Hsame : same_on (λ c, (cm_tdm_channels c, cm_nxt_chid c)) c c1).
    { revert Hloop. apply preserves_for_each; [apply _|]. intros pid.
      apply preserves_bind; [apply _| |intros ?; by apply preserves_ret, _].
      apply clear_tdm_path_same_on; by intros []. }
    unfold same_on in Hsame. injection Hsame as Hc Hn. simpl.
    by rewrite <- Hc, <- Hn.
  - injection Hrun as <-. by rewrite delete_id.
Qed.

(** X9: [delete_tdm_channel] removes the channel and no other, and leaves
    the channel counter as it is, so the id is not given out again; a
    second [delete_tdm_channel] of the same id changes nothing, and
    [add_path_to_channel] and [remove_path_from_channel] raise for the
    deleted id. *)
Theorem delete_tdm_channel_twice (chid : Z) (c c' : CtrlModClient) :
  delete_tdm_channel chid c = Some (tt, c') →
  cm_tdm_channels c' = delete chid (cm_tdm_channels c)
  ∧ cm_nxt_chid c' = cm_nxt_chid c
  ∧ delete_tdm_channel chid c' = Some (tt, c')
  ∧ (∀ path_idx path, add_path_to_channel chid path_idx path c' = None)
  ∧ (∀ path_idx, remove_path_from_channel chid path_idx c' = None).
Proof.
  intros Hrun. apply delete_tdm_channel_channels in Hrun as [Hch Hn].
  assert (Hgone : cm_tdm_channels c' !! chid = None)
    by (rewrite Hch; apply lookup_delete_eq).
  split; [done|]. split; [done|]. split; [|split].
  - unfold delete_tdm_channel. rewrite run_bind, run_gets. cbv beta iota.
    by rewrite Hgone.
  - intros path_idx path. unfold add_path_to_channel. rewrite run_bind.
    unfold reads. by rewrite Hgone.
  - intros path_idx. unfold remove_path_from_channel. rewrite run_bind.
    unfold reads. by rewrite Hgone.
Qed.

Lemma delete_tdm_channel_twice_witness :
  delete_tdm_channel 0 (state_after (delete_tdm_channel 0) busy_client)
  = Some (tt, state_after (delete_tdm_channel 0) busy_client).
Proof.
  assert (Hrun : delete_tdm_channel 0 busy_client
                 = Some (tt, state_after (delete_tdm_channel 0) busy_client))
    by (apply run_result_of; vm_compute; reflexivity).
  exact (proj1 (proj2 (proj2 (delete_tdm_channel_twice 0 busy_client _ Hrun)))).
Defined.

(** ** Fresh ids *)

Lemma ids_below_kept o : preserves (keeps ids_below) (run_operation o).
Proof.
  apply preserves_run_operation; [apply _|..]; unfold keeps.
  - by intros c ti.
  - by intros c l.
  - intros c tp [Hp Hc]. split; [|done]. simpl. intros pid Hin.
    destruct (decide (pid = cm_nxt_pid c)) as [->|Hne]; [lia|].
    rewrite lookup_insert_ne in Hin by done. apply Hp in Hin. lia.
  - intros c pid [Hp Hc]. split; [|done]. simpl. intros pid' Hin.
    apply Hp. destruct (decide (pid' = pid)) as [->|Hne].
    + rewrite lookup_delete_eq in Hin. by destruct Hin.
    + by rewrite lookup_delete_ne in Hin.
  - intros c f pid [Hp Hc]. split; [|done]. simpl. intros pid' Hin.
    apply Hp. by apply lookup_alter_is_Some in Hin.
  - intros c f chid [Hp Hc]. split; [done|]. simpl. intros chid' Hin.
    apply Hc. by apply lookup_alter_is_Some in Hin.
  - intros c chid [Hp Hc]. split; [done|]. simpl. intros chid' Hin.
    apply Hc. destruct (decide (chid' = chid)) as [->|Hne].
    + rewrite lookup_delete_eq in Hin. by destruct Hin.
    + by rewrite lookup_delete_ne in Hin.
  - intros c ch ti [Hp Hc]. split; [done|]. simpl. intros chid Hin.
    destruct (decide (chid = cm_nxt_chid c)) as [->|Hne]; [lia|].
    rewrite lookup_insert_ne in Hin by done. apply Hc in Hin. lia.
Qed.

(** X10: in every state that a sequence of operations reaches from a
    state in which all stored ids are below the two counters (as in the
    client after [set_num_tdm_ep]), all stored ids are below the counters:
    the pid that [_configure_tdm_path] takes next and the channel id that
    [create_tdm_channel] takes next are not in use. *)
Theorem next_ids_are_fresh (ops : list operation) (c c' : CtrlModClient) :
  ids_below c →
  for_each ops run_operation c = Some (tt, c') →
  ids_below c'
  ∧ cm_tdm_paths c' !! cm_nxt_pid c' = None
  ∧ cm_tdm_paths c' !! (cm_nxt_pid c' + 1) = None
  ∧ cm_tdm_channels c' !! cm_nxt_chid c' = None.
Proof.
  intros Hbelow Hrun.
  assert (Hc' : ids_below c').
  { pose proof (preserves_for_each (keeps ids_below) ops run_operation
                  ids_below_kept) as Hkept.
    by apply (Hkept c tt c'). }
  split; [done|]. destruct Hc' as [Hp Hc].
  split; [|split]; apply eq_None_not_Some; intros Hin;
    [apply Hp in Hin|apply Hp in Hin|apply Hc in Hin]; lia.
Qed.

Lemma next_ids_are_fresh_witness :
  let c' := state_after
              (for_each [Create 0 3 1 true; Delete 0; Create 3 0 2 true]
                 run_operation) small_client in
  cm_tdm_paths c' !! cm_nxt_pid c' = None.
Proof.
  assert (Hrun : for_each [Create 0 3 1 true; Delete 0; Create 3 0 2 true]
                   run_operation small_client
                 = Some (tt, state_after
                               (for_each [Create 0 3 1 true; Delete 0;
                                          Create 3 0 2 true] run_operation)
                               small_client))
    by (apply run_result_of; vm_compute; reflexivity).
  assert (Hsmall : ids_below small_client).
  { split; intros k [x Hk]; vm_compute in Hk; discriminate Hk. }
  exact (proj1 (proj2 (next_ids_are_fresh _ _ _ Hsmall Hrun))).
Defined.

(** ** What the operations keep of the mirror *)

Section ctrl_info_frames.
Context (R : relation CtrlModClient) `{!PreOrder R}.
Context (Hframe : ∀ c c',
  cm_tdm_info c' = cm_tdm_info c → cm_x_dim c' = cm_x_dim c →
  cm_y_dim c' = cm_y_dim c → cm_slot_table_size c' = cm_slot_table_size c →
  R c c').
Context (Hset : ∀ c node ni port slot config pid ti',
  set_table_entry node ni port slot config pid (cm_tdm_info c) = Some (tt, ti') →
  R c (cm_set_tdm_info ti' c)).
Context (Hassign : ∀ c src dest e1 e2 chid ok ti',
  assign_ep src dest e1 e2 chid (cm_tdm_info c) = Some (ok, ti') →
  R c (cm_set_tdm_info ti' c)).

Lemma info_modify (f : CtrlModClient → CtrlModClient) :
  (∀ c, cm_tdm_info (f c) = cm_tdm_info c ∧ cm_x_dim (f c) = cm_x_dim c
        ∧ cm_y_dim (f c) = cm_y_dim c
        ∧ cm_slot_table_size (f c) = cm_slot_table_size c) →
  preserves R (modify f).
Proof.
  intros Hf. apply preserves_modify. intros c.
  destruct (Hf c) as (? & ? & ? & ?). by apply Hframe.
Qed.

Lemma info_query {A} (m : M TDMinfo A) :
  read_only m → preserves R (on_tdm_info m).
Proof.
  intros Hm c r c' Hrun. apply (on_tdm_info_read_only m Hm) in Hrun as <-.
  done.
Qed.

Lemma info_event_send sub_mod words : preserves R (event_send sub_mod words).
Proof. apply info_modify. by intros []. Qed.

Lemma info_configure_slot_table node port slot config pid ni :
  preserves R (_configure_slot_table node port slot config pid ni).
Proof.
  unfold _configure_slot_table. cbv zeta.
  apply preserves_bind; [done|apply info_event_send|]. intros _.
  intros c [] c' (ti' & Hrun & ->)%on_tdm_info_run. by eapply Hset.
Qed.

Lemma info_write_path_hops clear pid link rest currslot in_port :
  preserves R (write_path_hops clear pid link rest currslot in_port).
Proof.
  revert currslot in_port. induction rest as [|c_node rest IH];
    intros currslot in_port; simpl.
  - by apply preserves_ret.
  - repeat (preserves_step || apply info_configure_slot_table || apply IH).
Qed.

Lemma info_write_path_slot clear pid path link ep_src ep_dest slot :
  preserves R (write_path_slot clear pid path link ep_src ep_dest slot).
Proof.
  unfold write_path_slot.
  repeat (preserves_step || apply info_configure_slot_table
          || apply info_write_path_hops).
Qed.

Lemma info_configure_tdm_path path start_slots ep_src ep_dest link :
  preserves R (_configure_tdm_path path start_slots ep_src ep_dest link).
Proof.
  unfold _configure_tdm_path, _configure_ep_link.
  repeat (preserves_step || apply info_write_path_slot
          || apply info_event_send || (apply info_modify; by intros [])).
Qed.

Lemma info_clear_tdm_path pid : preserves R (_clear_tdm_path pid).
Proof.
  unfold _clear_tdm_path, _configure_ep_link.
  apply preserves_bind; [done|by apply preserves_gets|].
  intros tp. destruct pid as [pid|], tp as [tp|]; try by apply preserves_ret.
  cbv zeta.
  repeat (preserves_step || apply info_write_path_slot
          || apply info_event_send || (apply info_modify; by intros [])).
Qed.

Lemma info_set_channel chid ch : preserves R (set_channel chid ch).
Proof. apply info_modify. by intros []. Qed.

Lemma info_attach_path chid pid : preserves R (attach_path chid pid).
Proof.
  unfold attach_path.
  repeat (preserves_step || apply info_set_channel
          || (apply info_modify; by intros [])).
Qed.

Lemma info_new_channel src dest ep_src ep_dest numslots pids :
  preserves R (new_channel src dest ep_src ep_dest numslots pids).
Proof.
  unfold new_channel.
  apply preserves_bind; [done|by apply preserves_gets|]. intros chid.
  apply preserves_bind; [done|apply info_modify; by intros []|]. intros _.
  apply preserves_bind; [done| |intros _].
  { intros c r c' (ti' & Hrun & ->)%on_tdm_info_run. by eapply Hassign. }
  repeat (preserves_step || apply info_attach_path
          || (apply info_modify; by intros [])).
Qed.

Lemma info_create_tdm_channel src dest numslots autopaths :
  preserves R (create_tdm_channel src dest numslots autopaths).
Proof.
  unfold create_tdm_channel.
  repeat (first [apply info_new_channel | preserves_step
                 | apply info_configure_tdm_path
                 | apply info_query, get_free_ep_read_only
                 | apply info_query, get_free_slots_read_only]).
Qed.

Lemma info_delete_tdm_channel chid : preserves R (delete_tdm_channel chid).
Proof.
  unfold delete_tdm_channel. apply preserves_bind; [done|by apply preserves_gets|].
  intros [ch|]; [|by apply preserves_ret].
  repeat (preserves_step || apply info_clear_tdm_path
          || (apply info_modify; by intros [])).
Qed.

Lemma info_add_path_to_channel chid path_idx path :
  preserves R (add_path_to_channel chid path_idx path).
Proof.
  unfold add_path_to_channel.
  repeat (first [preserves_step | apply info_clear_tdm_path
                 | apply info_set_channel | apply info_configure_tdm_path
                 | apply info_query, get_free_slots_read_only]).
Qed.

Lemma info_remove_path_from_channel chid path_idx :
  preserves R (remove_path_from_channel chid path_idx).
Proof.
  unfold remove_path_from_channel.
  repeat (preserves_step || apply info_clear_tdm_path || apply info_set_channel).
Qed.

Lemma info_run_operation o : preserves R (run_operation o).
Proof.
  destruct o; simpl.
  - apply preserves_bind; [done|apply info_create_tdm_channel|].
    intros ?. by apply preserves_ret.
  - apply info_delete_tdm_channel.
  - apply preserves_bind; [done|apply info_add_path_to_channel|].
    intros ?. by apply preserves_ret.
  - apply info_remove_path_from_channel.
Qed.

End ctrl_info_frames.

Lemma same_shape_trans ti0 ti1 ti2 :
  same_shape ti0 ti1 → same_shape ti1 ti2 → same_shape ti0 ti2.
Proof.
  intros (Hx & Hy & Hnum & Hsize & Hshape & Hdom & Hdom0)
         (Hx' & Hy' & Hnum' & Hsize' & Hshape' & Hdom' & Hdom0').
  repeat split; try congruence.
  - intros k e He. destruct (Hdom' k e He) as [e1 He1]. by eapply Hdom.
  - intros k e He. destruct (Hdom0 k e He) as [e1 He1]. by eapply Hdom0'.
Qed.

Global Instance mirror_kept_preorder : PreOrder mirror_kept.
Proof.
  split.
  - intros c. split; [apply same_shape_refl|done].
  - intros c1 c2 c3 (Hs & ? & ? & ?) (Hs' & ? & ? & ?).
    split; [by eapply same_shape_trans|]. repeat split; congruence.
Qed.

Lemma mirror_kept_run_operation o : preserves mirror_kept (run_operation o).
Proof.
  apply info_run_operation; [apply _|..].
  - intros c c' Hti Hx Hy Hsize. split; [|done]. rewrite Hti.
    apply same_shape_refl.
  - intros c node ni port slot config pid ti' Hrun. split; [|done]. simpl.
    eapply same_shape_set_table_entry; [apply same_shape_refl|done].
  - intros c src dest e1 e2 chid ok ti' Hrun. split; [|done]. simpl.
    eapply same_shape_assign_ep; [apply same_shape_refl|done].
Qed.

(** X11: no sequence of operations changes the shape of the mirror (its
    dimensions, the number of endpoints of every node and the subscripts
    under which the slot tables have entries) or the dimensions of the
    client; if the client and its mirror agreed on the dimensions before,
    they agree afterwards. *)
Theorem operations_keep_mirror_shape (ops : list operation)
    (c c' : CtrlModClient) :
  for_each ops run_operation c = Some (tt, c') →
  mirror_kept c c' ∧ (dims_agree c → dims_agree c').
Proof.
  intros Hrun.
  assert (Hkept : mirror_kept c c').
  { revert Hrun. apply preserves_for_each; [apply _|].
    apply mirror_kept_run_operation. }
  split; [done|].
  destruct Hkept as ((Hx & _ & _ & Hsize & _) & Hcx & _ & Hcs).
  intros [Hdx Hds]. split; congruence.
Qed.

Lemma operations_keep_mirror_shape_witness :
  dims_agree
    (state_after
       (for_each [Create 0 3 1 true; RemovePath 0 1; AddPath 0 1 [0; 2; 3]]
          run_operation) small_client).
Proof.
  assert (Hrun : for_each [Create 0 3 1 true; RemovePath 0 1;
                           AddPath 0 1 [0; 2; 3]] run_operation small_client
                 = Some (tt, state_after
                               (for_each [Create 0 3 1 true; RemovePath 0 1;
                                          AddPath 0 1 [0; 2; 3]] run_operation)
                               small_client))
    by (apply run_result_of; vm_compute; reflexivity).
  assert (Hdims : dims_agree small_client) by (vm_compute; by split).
  exact (proj2 (operations_keep_mirror_shape _ _ _ Hrun) Hdims).
Defined.

(** ** [reset] of the client *)

Lemma reset_faults_loop (nodes : list Z) c fv :
  for_each nodes (λ node,
    on_client (event_send FAULT_CONFIG [Z.shiftl node 8])) (mkClientState c fv)
  = Some (tt, mkClientState
                (cm_set_sent
                   (cm_sent c
                    ++ ((λ node, [FAULT_CONFIG; Z.shiftl node 8]) <$> nodes)) c)
                fv).
Proof.
  revert c. induction nodes as [|node nodes IH]; intros c.
  - simpl. rewrite app_nil_r. by destruct c.
  - cbn [for_each]. rewrite run_bind. unfold on_client at 1, event_send at 1.
    simpl. rewrite IH. do 3 f_equal. destruct c. simpl.
    by rewrite <- app_assoc.
Qed.

Lemma client_reset_run (size x_dim y_dim : Z) (num_ep : list Z)
    (c0 c : CtrlModClient) (fv : list Z) :
  CtrlModClient_new size x_dim y_dim num_ep = Some c0 →
  mirror_kept c0 c →
  reset (mkClientState c fv)
  = Some (tt, mkClientState
                (cm_set_sent (cm_sent c ++ fault_reset_packets x_dim y_dim) c0)
                (replicate (Z.to_nat (x_dim * y_dim)) 0)).
Proof.
  unfold CtrlModClient_new. intros Hnew (Hshape & Hx & Hy & Hsize).
  destruct (TDMinfo_new x_dim y_dim num_ep size) as [ti0|] eqn:Hti0; [|done].
  injection Hnew as <-. simpl in *.
  pose proof (reset_run _ _ _ _ _ _ Hti0 Hshape) as Hreset.
  unfold reset, _reset_variables, _reset_faults.
  rewrite run_bind, run_bind, run_gets. cbv beta iota.
  rewrite run_bind, run_gets. cbv beta iota.
  rewrite run_bind, run_modify. cbv beta iota.
  rewrite run_bind. unfold on_client at 1. rewrite run_modify. cbv beta iota.
  rewrite run_bind. unfold on_client at 1. rewrite run_modify. cbv beta iota.
  rewrite run_bind. unfold on_client at 1. rewrite run_modify. cbv beta iota.
  rewrite run_bind. unfold on_client at 1. rewrite run_modify. cbv beta iota.
  unfold on_client at 1, on_tdm_info. simpl. rewrite Hreset. cbv beta iota.
  rewrite run_bind, run_gets. cbv beta iota.
  rewrite run_bind, run_gets. cbv beta iota. simpl.
  rewrite Hx, Hy, reset_faults_loop. unfold fault_reset_packets.
  destruct c. simpl in *. by subst.
Qed.

(** X12: [reset] puts the fault vector to zero for every node, the two
    counters to 0, forgets all channels and paths, resets the mirror, and
    sends one fault packet for every node: from every state whose mirror
    has the shape it got in [set_num_tdm_ep] (X11: every state the
    operations reach), the client is again as [set_num_tdm_ep] left it,
    with all endpoints free and all slots empty. *)
Theorem client_reset_restores (size x_dim y_dim : Z) (num_ep : list Z)
    (c0 c : CtrlModClient) (fv : list Z) :
  CtrlModClient_new size x_dim y_dim num_ep = Some c0 →
  mirror_kept c0 c →
  ∃ s',
    reset (mkClientState c fv) = Some (tt, s')
    ∧ cs_fault_vector s' = replicate (Z.to_nat (x_dim * y_dim)) 0
    ∧ cs_client s'
      = cm_set_sent (cm_sent c ++ fault_reset_packets x_dim y_dim) c0
    ∧ cm_tdm_info (cs_client s') = cm_tdm_info c0
    ∧ cm_tdm_channels (cs_client s') = ∅
    ∧ cm_tdm_paths (cs_client s') = ∅
    ∧ cm_nxt_pid (cs_client s') = 0
    ∧ cm_nxt_chid (cs_client s') = 0.
Proof.
  intros Hnew Hkept. eexists. split; [by eapply client_reset_run|].
  unfold CtrlModClient_new in Hnew.
  destruct (TDMinfo_new x_dim y_dim num_ep size) as [ti0|]; [|done].
  injection Hnew as <-. by repeat split.
Qed.

Lemma client_reset_restores_witness :
  ∃ s',
    reset (mkClientState busy_client [0; 2; 0; 1]) = Some (tt, s')
    ∧ cs_fault_vector s' = [0; 0; 0; 0]
    ∧ cs_client s'
      = cm_set_sent (cm_sent busy_client ++ fault_reset_packets 2 2) small_client.
Proof.
  assert (Hnew : CtrlModClient_new 4 2 2 [1; 1; 1; 1] = Some small_client).
  { apply Some_default. apply (bool_decide_unpack _). vm_compute. exact I. }
  assert (Hkept : mirror_kept small_client busy_client).
  { unfold mirror_kept, same_shape. apply (bool_decide_unpack _).
    vm_compute. exact I. }
  destruct (client_reset_restores 4 2 2 [1; 1; 1; 1] small_client busy_client
              [0; 2; 0; 1] Hnew Hkept) as (s' & Hrun & Hfv & Hc & _).
  exists s'. split; [exact Hrun|]. split; [exact Hfv|exact Hc].
Defined.

(** ** Faults *)

Lemma testbit_one_shifted link i :
  0 ≤ link → 0 ≤ i → Z.testbit (Z.shiftl 1 link) i = bool_decide (i = link).
Proof.
  intros Hl Hi. rewrite Z.shiftl_1_l, Z.pow2_bits_eqb by done.
  case_bool_decide; [by apply Z.eqb_eq|]. apply Z.eqb_neq. lia.
Qed.

(** X13: [configure_faults] raises for a node outside the fault vector
    and for a negative link; otherwise it sets or clears exactly bit
    [link] of the fault value of the node and leaves the values of the other
    nodes as they are, and it sends one packet with the node and the low
    byte of the new value. *)
Theorem configure_faults_bit (node link : Z) (set_fault : bool)
    (s s' : ClientState) :
  configure_faults node link set_fault s = Some (tt, s') →
  0 ≤ link
  ∧ ∃ n v v',
      py_index (Z.of_nat (length (cs_fault_vector s))) node = Some n
      ∧ cs_fault_vector s !! Z.to_nat n = Some v
      ∧ cs_fault_vector s' = <[Z.to_nat n := v']> (cs_fault_vector s)
      ∧ (∀ i, 0 ≤ i →
           Z.testbit v' i
           = if bool_decide (i = link) then set_fault else Z.testbit v i)
      ∧ cs_client s'
        = cm_set_sent
            (cm_sent (cs_client s)
             ++ [[FAULT_CONFIG; Z.lor (Z.shiftl node 8) (Z.land v' 0xff)]])
            (cs_client s).
Proof.
  unfold configure_faults. intros Hrun.
  apply run_bind_Some in Hrun as (v & s0 & [Hv ->]%run_reads_Some & Hrun).
  case_bool_decide as Hlink; [done|]. cbv zeta in Hrun.
  apply run_bind_Some in Hrun as (fv & s0 & [Hfv ->]%run_reads_Some & Hrun).
  apply run_bind_Some in Hrun as ([] & s1 & [= <-] & Hrun).
  apply run_bind_Some in Hrun as (v'' & s0 & [Hv'' ->]%run_reads_Some & Hrun).
  simpl in Hv''. rewrite (py_get_py_set_same _ _ _ _ Hfv) in Hv''.
  injection Hv'' as <-.
  unfold on_client, event_send in Hrun. rewrite run_modify in Hrun.
  injection Hrun as <-. simpl.
  split; [lia|].
  apply py_get_Some in Hv as (n & Hn & Hv). unfold py_set in Hfv.
  rewrite Hn in Hfv. injection Hfv as <-.
  eexists n, v, _. repeat split; try done.
  intros i Hi. destruct set_fault.
  - rewrite Z.lor_spec, testbit_one_shifted by lia.
    case_bool_decide; [apply orb_true_r|apply orb_false_r].
  - rewrite Z.land_spec, Z.lnot_spec, testbit_one_shifted by lia.
    case_bool_decide; [apply andb_false_r|apply andb_true_r].
Qed.

Lemma configure_faults_bit_witness :
  0 ≤ 2
  ∧ ∃ n v v',
      py_index 4 (-3) = Some n
      ∧ [0; 5; 0; 0] !! Z.to_nat n = Some v
      ∧ cs_fault_vector
          (state_after (configure_faults (-3) 2 false)
             (mkClientState small_client [0; 5; 0; 0]))
        = <[Z.to_nat n := v']> [0; 5; 0; 0]
      ∧ (∀ i, 0 ≤ i →
           Z.testbit v' i = if bool_decide (i = 2) then false else Z.testbit v i)
      ∧ cs_client
          (state_after (configure_faults (-3) 2 false)
             (mkClientState small_client [0; 5; 0; 0]))
        = cm_set_sent
            (cm_sent small_client
             ++ [[FAULT_CONFIG; Z.lor (Z.shiftl (-3) 8) (Z.land v' 0xff)]])
            small_client.
Proof.
  assert (Hrun : configure_faults (-3) 2 false
                   (mkClientState small_client [0; 5; 0; 0])
                 = Some (tt, state_after (configure_faults (-3) 2 false)
                               (mkClientState small_client [0; 5; 0; 0])))
    by (apply run_result_of; vm_compute; reflexivity).
  exact (configure_faults_bit (-3) 2 false _ _ Hrun).
Defined.

(** ** The slot table stays clean *)

Lemma py_get_elem_of {A} (l : list A) i x : py_get l i = Some x → x ∈ l.
Proof.
  unfold py_get. destruct (py_index _ i) as [n|]; [|done]. simpl.
  apply list_elem_of_lookup_2.
Qed.

(** A start slot that [check_path] accepts comes with endpoints below the
    numbers of endpoints and with a link of at most 1. *)
Lemma path_free_below_empty ti path link ep_src ep_dest slot :
  Forall (λ n, n ≤ EMPTY) (ti_num_ep ti) →
  path_free ti path link ep_src ep_dest slot →
  ep_src ≠ EMPTY ∧ ep_dest ≠ EMPTY ∧ link + 4 ≠ EMPTY.
Proof.
  intros Hnum (_ & _ & Hsane)%check_path_free.
  rewrite Forall_forall in Hnum.
  unfold check_path_insane in Hsane.
  apply run_bind_Some in Hsane as (x_dim & ? & [= <- <-] & Hsane).
  destruct (negb (check_valid_path (ti_x_dim ti) path)); [done|].
  apply run_bind_Some in Hsane as (n0 & ? & [H0 ->]%run_reads_Some & Hsane).
  case_bool_decide as Hsrc; [done|].
  apply run_bind_Some in Hsane as (n1 & ? & [H1 ->]%run_reads_Some & Hsane).
  case_bool_decide as Hdest; [done|].
  apply run_bind_Some in Hsane as (size & ? & [= <- <-] & Hsane).
  injection Hsane as Hsane.
  apply orb_false_iff in Hsane as [Hlink%bool_decide_eq_false _].
  destruct (py_get path 0) as [p0|]; [|done].
  destruct (py_get path (-1)) as [p1|]; [|done]. simpl in H0, H1.
  apply py_get_elem_of, Hnum in H0. apply py_get_elem_of, Hnum in H1.
  unfold EMPTY in *. lia.
Qed.

Lemma clean_frame c c' :
  cm_tdm_info c' = cm_tdm_info c → keeps clean_client c c'.
Proof. unfold keeps, clean_client, cm_table. by intros ->. Qed.

Lemma clean_modify (f : CtrlModClient → CtrlModClient) :
  (∀ c, cm_tdm_info (f c) = cm_tdm_info c) →
  preserves (keeps clean_client) (modify f).
Proof.
  intros Hf. apply preserves_modify. intros c. by apply clean_frame.
Qed.

Lemma clean_query {A} (m : M TDMinfo A) :
  read_only m → preserves (keeps clean_client) (on_tdm_info m).
Proof.
  intros Hm c r c' Hrun. apply (on_tdm_info_read_only m Hm) in Hrun as <-.
  done.
Qed.

Lemma clean_event_send sub_mod words :
  preserves (keeps clean_client) (event_send sub_mod words).
Proof. apply clean_modify. by intros []. Qed.

(** An entry is written with a value other than [EMPTY], or without a path
    id. *)
Lemma clean_configure_slot_table node port slot config pid ni :
  (config = EMPTY → pid = None) →
  preserves (keeps clean_client)
    (_configure_slot_table node port slot config pid ni).
Proof.
  intros Hok. unfold _configure_slot_table. cbv zeta.
  preserves_step; [apply clean_event_send|].
  intros c [] c' (ti' & Hrun & ->)%on_tdm_info_run [Hclean Hnum].
  unfold set_table_entry in Hrun.
  destruct (table_index _ _ _ _ _) as [k|]; [|done]. simpl in Hrun.
  destruct (ti_table_config (cm_tdm_info c) !! k); [|done].
  injection Hrun as <-. split; [|done].
  unfold cm_table. simpl. by apply map_Forall_insert_2.
Qed.

Lemma in_port_after_not_empty out_port : in_port_after out_port ≠ EMPTY.
Proof. unfold in_port_after, EMPTY. repeat case_bool_decide; lia. Qed.

Lemma clean_write_path_hops clear pid link rest currslot in_port :
  (if clear : bool then pid = None else in_port ≠ EMPTY) →
  preserves (keeps clean_client)
    (write_path_hops clear pid link rest currslot in_port).
Proof.
  revert currslot in_port. induction rest as [|c_node rest IH];
    intros currslot in_port Hok; simpl.
  - preserves_step.
  - preserves_step; [preserves_step|]. preserves_step; [preserves_step|].
    cbv zeta. preserves_step.
    + apply clean_configure_slot_table. by destruct clear.
    + apply IH. destruct clear; [done|]. apply in_port_after_not_empty.
Qed.

Lemma clean_write_path_slot clear pid path link ep_src ep_dest slot :
  (if clear : bool then pid = None
   else ep_src ≠ EMPTY ∧ ep_dest ≠ EMPTY ∧ link + 4 ≠ EMPTY) →
  preserves (keeps clean_client)
    (write_path_slot clear pid path link ep_src ep_dest slot).
Proof.
  intros Hok. unfold write_path_slot.
  preserves_step; [preserves_step|].
  preserves_step.
  { apply clean_configure_slot_table. destruct clear; [done|].
    intros ?. by destruct Hok as (? & ? & ?). }
  preserves_step.
  { apply clean_write_path_hops. destruct clear; [done|]. apply Hok. }
  preserves_step; [preserves_step|].
  apply clean_configure_slot_table. destruct clear; [done|].
    intros ?. by destruct Hok as (? & ? & ?).
Qed.

Lemma clean_configure_tdm_path path start_slots ep_src ep_dest link :
  ep_src ≠ EMPTY ∧ ep_dest ≠ EMPTY ∧ link + 4 ≠ EMPTY →
  preserves (keeps clean_client)
    (_configure_tdm_path path start_slots ep_src ep_dest link).
Proof.
  intros Hok. unfold _configure_tdm_path, _configure_ep_link.
  repeat (preserves_step || (by apply clean_write_path_slot)
          || apply clean_event_send || (apply clean_modify; by intros [])).
Qed.

Lemma clean_clear_tdm_path pid :
  preserves (keeps clean_client) (_clear_tdm_path pid).
Proof.
  unfold _clear_tdm_path, _configure_ep_link.
  preserves_step; [preserves_step|].
  destruct pid as [pid|]; [|preserves_step].
  match goal with |- preserves _ (match ?tp with _ => _ end) => destruct tp end;
    [|preserves_step].
  cbv zeta.
  repeat (preserves_step || (by apply clean_write_path_slot)
          || apply clean_event_send || (apply clean_modify; by intros [])).
Qed.

Lemma clean_set_channel chid ch :
  preserves (keeps clean_client) (set_channel chid ch).
Proof. apply clean_modify. by intros []. Qed.

Lemma clean_attach_path chid pid :
  preserves (keeps clean_client) (attach_path chid pid).
Proof.
  unfold attach_path.
  repeat (preserves_step || apply clean_set_channel
          || (apply clean_modify; by intros [])).
Qed.

Lemma clean_new_channel src dest ep_src ep_dest numslots pids :
  preserves (keeps clean_client)
    (new_channel src dest ep_src ep_dest numslots pids).
Proof.
  unfold new_channel.
  preserves_step; [preserves_step|].
  preserves_step; [apply clean_modify; by intros []|].
  preserves_step.
  { intros c r c' (ti' & Hrun & ->)%on_tdm_info_run [Hclean Hnum].
    pose proof (assign_ep_spec _ _ _ _ _ _ _ _ Hrun) as (Htable & _).
    destruct (assign_ep_dims _ _ _ _ _ _ _ _ Hrun) as (_ & _ & Hnum' & _).
    unfold clean_client, cm_table. simpl. by rewrite Htable, Hnum'. }
  repeat (preserves_step || apply clean_attach_path
          || (apply clean_modify; by intros [])).
Qed.

(** The start slots that [get_free_slots] returns in a clean client. *)
Lemma clean_free_slots path ep_src ep_dest link numslots c slots c' :
  clean_client c →
  on_tdm_info (get_free_slots path ep_src ep_dest link numslots) c
  = Some (slots, c') →
  c' = c ∧ (slots ≠ [] → ep_src ≠ EMPTY ∧ ep_dest ≠ EMPTY ∧ link + 4 ≠ EMPTY).
Proof.
  intros [_ Hnum] (ti' & Hrun & ->)%on_tdm_info_run.
  apply get_free_slots_free in Hrun as [-> Hfree].
  split; [apply cm_set_tdm_info_same|]. intros Hne.
  destruct slots as [|slot slots]; [done|].
  apply Forall_cons in Hfree as [Hfree _].
  by eapply path_free_below_empty.
Qed.

Lemma clean_create_tdm_channel src dest numslots autopaths :
  preserves (keeps clean_client) (create_tdm_channel src dest numslots autopaths).
Proof.
  unfold create_tdm_channel.
  preserves_step; [apply clean_query, get_free_ep_read_only|].
  preserves_step; [apply clean_query, get_free_ep_read_only|].
  preserves_step; [preserves_step|].
  destruct autopaths; [|apply clean_new_channel].
  preserves_step; [preserves_step|]. preserves_step; [preserves_step|].
  preserves_step; [preserves_step|]. cbv zeta.
  intros c r c' Hrun Hc.
  apply run_bind_Some in Hrun as (slots_A & c1 & HA & Hrun).
  apply (clean_free_slots _ _ _ _ _ _ _ _ Hc) in HA as [-> HA].
  apply run_bind_Some in Hrun as (slots_B & c1 & HB & Hrun).
  apply (clean_free_slots _ _ _ _ _ _ _ _ Hc) in HB as [-> HB].
  destruct (bool_decide (length slots_A = 0%nat)) eqn:EA;
    [by injection Hrun as _ <-|].
  destruct (bool_decide (length slots_B = 0%nat)) eqn:EB;
    [by injection Hrun as _ <-|].
  apply bool_decide_eq_false in EA. apply bool_decide_eq_false in EB.
  simpl in Hrun. revert Hrun Hc.
  apply (preserves_bind (keeps clean_client));
    [apply clean_configure_tdm_path|intros pid_A].
  { apply HA. by intros ->. }
  preserves_step; [apply clean_configure_tdm_path|apply clean_new_channel].
  apply HB. by intros ->.
Qed.

Lemma clean_add_path_to_channel chid path_idx path :
  preserves (keeps clean_client) (add_path_to_channel chid path_idx path).
Proof.
  unfold add_path_to_channel.
  preserves_step; [preserves_step|]. preserves_step; [preserves_step|].
  preserves_step; [|preserves_step]. cbv zeta.
  intros c r c' Hrun Hc.
  apply run_bind_Some in Hrun as (slots & c1 & Hslots & Hrun).
  apply (clean_free_slots _ _ _ _ _ _ _ _ Hc) in Hslots as [-> Hslots].
  destruct (bool_decide (0 < length slots)%nat) eqn:E;
    [|by injection Hrun as _ <-].
  apply bool_decide_eq_true in E.
  revert Hrun Hc.
  apply (preserves_bind (keeps clean_client));
    [apply clean_configure_tdm_path|intros pid].
  { apply Hslots. intros ->. simpl in E. lia. }
  repeat (first [preserves_step | apply clean_clear_tdm_path
                 | apply clean_set_channel]).
Qed.

Lemma clean_delete_tdm_channel chid :
  preserves (keeps clean_client) (delete_tdm_channel chid).
Proof.
  unfold delete_tdm_channel.
  preserves_step; [preserves_step|].
  match goal with |- preserves _ (match ?ch with _ => _ end) => destruct ch end;
    [|preserves_step].
  repeat (preserves_step || apply clean_clear_tdm_path
          || (apply clean_modify; by intros [])).
Qed.

Lemma clean_remove_path_from_channel chid path_idx :
  preserves (keeps clean_client) (remove_path_from_channel chid path_idx).
Proof.
  unfold remove_path_from_channel.
  repeat (preserves_step || apply clean_clear_tdm_path
          || apply clean_set_channel).
Qed.

(** A new client whose nodes have at most 15 endpoints is clean. *)
Lemma new_client_clean size x_dim y_dim num_ep c :
  CtrlModClient_new size x_dim y_dim num_ep = Some c →
  Forall (λ n, n ≤ EMPTY) num_ep →
  clean_client c.
Proof.
  unfold CtrlModClient_new, TDMinfo_new. intros Hnew Hnum.
  destruct (mapM _ _) as [nodes|]; [|done]. injection Hnew as <-.
  split; [|done]. unfold cm_table. simpl. intros k e Hk _.
  apply elem_of_list_to_map_2, list_elem_of_fmap in Hk as (k' & [= _ ->] & _).
  done.
Qed.

(** X18.  In a client in which no node has more than 15 endpoints and no
    empty entry of the slot table carries a path id, as in a new client,
    every sequence of [create_tdm_channel], [delete_tdm_channel],
    [add_path_to_channel] and [remove_path_from_channel] that returns leaves
    a client of which the same holds: the operations store no value equal
    to [EMPTY] together with a path id. *)
Theorem operations_keep_table_clean (ops : list operation)
    (c c' : CtrlModClient) :
  clean_client c →
  for_each ops run_operation c = Some (tt, c') →
  clean_client c'.
Proof.
  intros Hc Hrun. revert Hc.
  apply (preserves_for_each (keeps clean_client) ops run_operation)
    with (r := tt); [|exact Hrun].
  intros o. destruct o; simpl.
  - preserves_step; [apply clean_create_tdm_channel|preserves_step].
  - apply clean_delete_tdm_channel.
  - preserves_step; [apply clean_add_path_to_channel|preserves_step].
  - apply clean_remove_path_from_channel.
Qed.

Lemma operations_keep_table_clean_witness :
  clean_client
    (state_after
       (for_each [Create 0 3 1 true; RemovePath 0 1; AddPath 0 1 [0; 2; 3];
                  Delete 0] run_operation)
       small_client).
Proof.
  assert (Hc : clean_client small_client).
  { split.
    - unfold table_clean. apply (bool_decide_unpack _). vm_compute. exact I.
    - apply (bool_decide_unpack _). vm_compute. exact I. }
  assert (Hrun :
    for_each [Create 0 3 1 true; RemovePath 0 1; AddPath 0 1 [0; 2; 3];
              Delete 0] run_operation small_client
    = Some (tt, state_after
                  (for_each [Create 0 3 1 true; RemovePath 0 1;
                             AddPath 0 1 [0; 2; 3]; Delete 0] run_operation)
                  small_client))
    by (apply run_result_of; vm_compute; reflexivity).
  exact (operations_keep_table_clean _ _ _ Hc Hrun).
Defined.

(** ** Headers as lists of hop codes *)

Lemma hops_value_bound hs :
  Forall (λ h, 0 ≤ h < 8) hs → 0 ≤ hops_value hs < 2 ^ (3 * Z.of_nat (length hs)).
Proof.
  induction 1 as [|h hs Hh _ IH]; simpl hops_value; [simpl; lia|].
  rewrite length_cons, Nat2Z.inj_succ.
  replace (3 * Z.succ (Z.of_nat (length hs))) with (3 + 3 * Z.of_nat (length hs))
    by lia.
  rewrite Z.pow_add_r by lia. change (2 ^ 3) with 8. lia.
Qed.

Lemma hops_value_snoc hs h :
  hops_value (hs ++ [h]) = hops_value hs + h * 2 ^ (3 * Z.of_nat (length hs)).
Proof.
  induction hs as [|h' hs IH]; simpl hops_value.
  - simpl. lia.
  - rewrite IH, length_cons, Nat2Z.inj_succ.
    replace (3 * Z.succ (Z.of_nat (length hs)))
      with (3 + 3 * Z.of_nat (length hs)) by lia.
    rewrite Z.pow_add_r by lia. change (2 ^ 3) with 8. lia.
Qed.

(** Appending a hop code to a header the way the loops do. *)
Lemma header_append hs h :
  Forall (λ h, 0 ≤ h < 8) hs → 0 ≤ h < 8 →
  Z.lor (hops_value hs) (Z.shiftl (Z.land h 0x7) (Z.of_nat (length hs) * 3))
  = hops_value (hs ++ [h]).
Proof.
  intros Hhs Hh. change 0x7 with (Z.ones 3). rewrite Z.land_ones by lia.
  change (2 ^ 3) with 8. rewrite Z.mod_small by lia.
  replace (Z.of_nat (length hs) * 3) with (3 * Z.of_nat (length hs)) by lia.
  rewrite lor_shiftl_add.
  - by rewrite hops_value_snoc.
  - lia.
  - by apply hops_value_bound.
Qed.

(** A loop of [calculate_header_x_y] appends one hop code for every step
    between [curr] and [dest]. *)
Lemma header_route_hops nlo nhi dest (n : nat) : ∀ curr hs,
  0 ≤ nlo < 8 → 0 ≤ nhi < 8 →
  Forall (λ h, 0 ≤ h < 8) hs →
  n = Z.to_nat (Z.abs (dest - curr)) →
  header_route nlo nhi dest curr (Z.of_nat (length hs)) (hops_value hs)
  = (Z.of_nat (length (hs ++ replicate n (if bool_decide (dest < curr) then nlo else nhi))),
     hops_value (hs ++ replicate n (if bool_decide (dest < curr) then nlo else nhi))).
Proof.
  induction n as [|n IH]; intros curr hs Hlo Hhi Hhs Hn.
  - assert (dest = curr) as -> by lia.
    simp header_route. destruct (decide (curr = curr)) as [e|]; [|done].
    simpl. by rewrite app_nil_r.
  - assert (dest ≠ curr) as Hne by lia.
    simp header_route. destruct (decide (dest = curr)) as [|e]; [done|].
    simpl.
    set (c := if bool_decide (dest < curr) then nlo else nhi).
    assert (Hc : 0 ≤ c < 8) by (subst c; by case_bool_decide).
    rewrite header_append by done.
    replace (Z.of_nat (length hs) + 1) with (Z.of_nat (length (hs ++ [c])))
      by (rewrite length_app; simpl; lia).
    rewrite IH.
    + assert (replicate n (if bool_decide (dest < (if bool_decide (dest < curr)
                                                   then curr - 1 else curr + 1))
                           then nlo else nhi) = replicate n c) as ->.
      { destruct n as [|n]; [done|]. f_equal. subst c.
        repeat case_bool_decide; try done; lia. }
      by rewrite <- app_assoc.
    + done.
    + done.
    + apply Forall_app; split; [done|]. by apply Forall_singleton.
    + case_bool_decide; lia.
Qed.

Lemma hops_offset_app x_dim hs1 hs2 :
  hops_offset x_dim (hs1 ++ hs2) = hops_offset x_dim hs1 + hops_offset x_dim hs2.
Proof.
  induction hs1 as [|h hs1 IH]; simpl; [done|].
  fold (hops_offset x_dim (hs1 ++ hs2)) (hops_offset x_dim hs1). lia.
Qed.

Lemma hops_offset_replicate x_dim n h :
  hops_offset x_dim (replicate n h) = Z.of_nat n * hop_delta x_dim h.
Proof.
  induction n as [|n IH]; [done|].
  simpl. fold (hops_offset x_dim (replicate n h)). lia.
Qed.

Lemma hops_value_end_pos hs h : 0 < h → Forall (λ h, 0 ≤ h < 8) hs →
  0 < hops_value (hs ++ [h]).
Proof.
  intros Hh. induction 1 as [|h' hs Hh' _ IH]; simpl; lia.
Qed.

(** [_find_source] walks the hop codes of a header up to the code of the
    link that ends it. *)
Lemma find_source_hops x_dim link hs : ∀ tile,
  0 ≤ link ≤ 1 → Forall (λ h, 0 ≤ h ≤ 3) hs →
  find_source_from x_dim tile (hops_value (hs ++ [4 + link]))
  = Found (tile + hops_offset x_dim hs) link.
Proof.
  intros tile Hlink Hhs. revert tile.
  induction Hhs as [|h hs Hh Hhs IH]; intros tile.
  - change (hops_value ([] ++ [4 + link])) with (4 + link + 8 * 0).
    change (hops_offset x_dim []) with 0. rewrite !Z.add_0_r.
    assert (link = 0 ∨ link = 1) as [-> | ->] by lia;
      simp find_source_from; by vm_compute.
  - assert (Hpos : 0 < hops_value (hs ++ [4 + link])).
    { apply hops_value_end_pos; [lia|].
      eapply Forall_impl; [exact Hhs|]. simpl. lia. }
    change (hops_value ((h :: hs) ++ [4 + link]))
      with (h + 8 * hops_value (hs ++ [4 + link])).
    set (v := hops_value (hs ++ [4 + link])) in *.
    assert (Hland : Z.land (h + 8 * v) 7 = h).
    { change 7 with (Z.ones 3). rewrite Z.land_ones by lia.
      change (2 ^ 3) with 8. replace (h + 8 * v) with (h + v * 8) by lia.
      rewrite Z.mod_add by lia. apply Z.mod_small. lia. }
    assert (Hshift : Z.shiftr (h + 8 * v) 3 = v).
    { rewrite Z.shiftr_div_pow2 by lia. change (2 ^ 3) with 8.
      replace (h + 8 * v) with (h + v * 8) by lia.
      rewrite Z.div_add by lia. rewrite Z.div_small by lia. lia. }
    simp find_source_from.
    destruct (decide (Z.land (h + 8 * v) 7 = 4)) as [|e4]; [lia|]. simpl.
    destruct (decide (Z.land (h + 8 * v) 7 = 5)) as [|e5]; [lia|]. simpl.
    destruct (decide (0 ≤ Z.land (h + 8 * v) 7 ≤ 3)) as [e3|]; [|lia]. simpl.
    destruct (decide (h + 8 * v = 0)) as [|e0]; [lia|].
    simpl. rewrite Hland, Hshift. subst v. rewrite IH.
    f_equal. fold (hops_offset x_dim hs). unfold hop_delta.
    repeat case_bool_decide; lia.
Qed.

(** The header [calculate_header_x_y] builds, as a list of hop codes that
    leads from [source] to [dest]. *)
Lemma calculate_header_hops noc_width source dest link x_dim :
  x_dim ≠ 0 → 0 ≤ link ≤ 1 →
  ∃ hs, Forall (λ h, 0 ≤ h ≤ 3) hs
    ∧ hops_offset x_dim hs = dest - source
    ∧ calculate_header_x_y noc_width source dest link x_dim
      = Some (bool_decide (Z.of_nat (length hs) * 3 < noc_width - 8),
              hops_value (hs ++ [4 + link])).
Proof.
  intros Hx Hlink. unfold calculate_header_x_y.
  rewrite bool_decide_eq_false_2 by done.
  set (n1 := Z.to_nat (Z.abs (dest mod x_dim - source mod x_dim))).
  set (n2 := Z.to_nat (Z.abs (dest / x_dim - source / x_dim))).
  set (c1 := if bool_decide (dest mod x_dim < source mod x_dim) then 3 else 1).
  set (c2 := if bool_decide (dest / x_dim < source / x_dim) then 0 else 2).
  assert (Hc1 : 0 ≤ c1 ≤ 3) by (subst c1; case_bool_decide; lia).
  assert (Hc2 : 0 ≤ c2 ≤ 3) by (subst c2; case_bool_decide; lia).
  assert (Hhs : Forall (λ h, 0 ≤ h ≤ 3) (replicate n1 c1 ++ replicate n2 c2)).
  { apply Forall_app; split; by apply Forall_replicate. }
  assert (Hhs8 : Forall (λ h, 0 ≤ h < 8) (replicate n1 c1 ++ replicate n2 c2)).
  { eapply Forall_impl; [exact Hhs|]. simpl. lia. }
  exists (replicate n1 c1 ++ replicate n2 c2). split; [done|]. split.
  - rewrite hops_offset_app, !hops_offset_replicate.
    pose proof (Z.div_mod dest x_dim Hx). pose proof (Z.div_mod source x_dim Hx).
    subst n1 n2 c1 c2. unfold hop_delta.
    repeat case_bool_decide; try lia; nia.
  - change (header_route 3 1 (dest mod x_dim) (source mod x_dim) 0 0)
      with (header_route 3 1 (dest mod x_dim) (source mod x_dim)
              (Z.of_nat (length (@nil Z))) (hops_value [])).
    rewrite (header_route_hops 3 1 _ n1) by (done || lia || constructor).
    fold c1. rewrite app_nil_l.
    rewrite (header_route_hops 0 2 _ n2);
      [|lia|lia|apply Forall_replicate; lia|done].
    fold c2. by rewrite header_append by (done || lia).
Qed.

(** X14.  A routing header that [calculate_header_x_y] accepts on a NoC
    of at most 32 bits is decoded by the gateway: [_find_source], started
    on the tile the header was computed for and given the lower 24 bits
    as [receive_event] passes them, returns the destination tile and the
    link. *)
Theorem routing_header_round_trip noc_width source dest link x_dim header :
  0 ≤ link ≤ 1 → noc_width ≤ 32 →
  calculate_header_x_y noc_width source dest link x_dim = Some (true, header) →
  0 < header < 2 ^ 24
  ∧ find_source_from x_dim source (Z.land header 0xffffff) = Found dest link.
Proof.
  intros Hlink Hw Hcalc.
  assert (Hx : x_dim ≠ 0).
  { intros ->. unfold calculate_header_x_y in Hcalc.
    by rewrite bool_decide_eq_true_2 in Hcalc. }
  destruct (calculate_header_hops noc_width source dest link x_dim Hx Hlink)
    as (hs & Hhs & Hoff & Hrun).
  rewrite Hrun in Hcalc. injection Hcalc as Hok <-.
  apply bool_decide_eq_true_1 in Hok.
  assert (Hhs8 : Forall (λ h, 0 ≤ h < 8) (hs ++ [4 + link])).
  { apply Forall_app; split.
    - eapply Forall_impl; [exact Hhs|]. simpl. lia.
    - apply Forall_singleton. lia. }
  pose proof (hops_value_bound _ Hhs8) as Hb.
  rewrite length_app in Hb. simpl length in Hb.
  assert (Hlt : hops_value (hs ++ [4 + link]) < 2 ^ 24).
  { eapply Z.lt_le_trans; [apply Hb|].
    apply Z.pow_le_mono_r; lia. }
  assert (Hpos : 0 < hops_value (hs ++ [4 + link])).
  { apply hops_value_end_pos; [lia|].
    eapply Forall_impl; [exact Hhs|]. simpl. lia. }
  split; [lia|].
  change 0xffffff with (Z.ones 24). rewrite Z.land_ones by lia.
  rewrite Z.mod_small by lia.
  rewrite find_source_hops by done. f_equal. lia.
Qed.

Lemma routing_header_round_trip_witness :
  0 < 0x151 < 2 ^ 24
  ∧ find_source_from 2 0 (Z.land 0x151 0xffffff) = Found 3 1.
Proof.
  apply (routing_header_round_trip 32 0 3 1 2 0x151); [lia|lia|].
  by vm_compute.
Defined.

(** ** The packets of [_packetize] *)

Lemma append_to_last_snoc full lst w :
  append_to_last (full ++ [lst]) w = full ++ [lst ++ [w]].
Proof.
  induction full as [|pkt full IH]; [done|].
  change ((pkt :: full) ++ [lst]) with (pkt :: (full ++ [lst])).
  destruct (full ++ [lst]) as [|pkt' rest] eqn:E; [by destruct full|].
  change (append_to_last (pkt :: pkt' :: rest) w)
    with (pkt :: append_to_last (pkt' :: rest) w).
  by rewrite IH.
Qed.

(** What holds of the first packet and is kept by every added word holds of
    the packets [_packetize] returns. *)
Lemma packetize_invariant (P : list (list Z) → Prop) noc_width payload width maxlen :
  (∀ pp w, P pp → P (add_word (maxlen * (noc_width / 16)) pp w)) →
  (∀ n, if bool_decide (width = 8) || bool_decide (width = 16)
        then P [[n]] else P [[n; 0]]) →
  P (_packetize noc_width payload width maxlen).
Proof.
  intros Hadd Hfirst. unfold _packetize.
  set (max_num_words := maxlen * (noc_width / 16)) in *.
  set (pl := if bool_decide (width = 8) || bool_decide (width = 16)
             then _ else payload).
  set (n := Z.quot (Z.of_nat (length pl) * width) 8).
  specialize (Hfirst n).
  assert (Hfold : ∀ ws pp, P pp → P (foldl (add_word max_num_words) pp ws)).
  { induction ws as [|w ws IH]; intros pp Hpp; [done|]. simpl. auto. }
  destruct (bool_decide (width = 8)) eqn:E8.
  - simpl in Hfirst. clearbody pl. clear -Hadd Hfirst.
    revert Hfirst. generalize [[n]].
    induction pl as [|v|lo hi rest IH] using list_pair_ind; intros pp Hpp.
    + done.
    + simpl. auto.
    + cbn [pack_bytes]. auto.
  - destruct (bool_decide (width = 16)) eqn:E16.
    + simpl in Hfirst. by apply Hfold.
    + simpl in Hfirst. change (append_to_last [[n]] 0) with [[n; 0]].
      clearbody pl. revert Hfirst. generalize [[n; 0]].
      induction pl as [|v pl IH]; intros pp Hpp; [done|].
      simpl. apply IH. unfold pack_value.
      generalize (seqZ 0 (width / 16)). intros ws. revert pp Hpp.
      induction ws as [|w ws IHw]; intros pp Hpp; [done|]. simpl. auto.
Qed.

Lemma add_word_filled max_num_words pp w :
  packets_filled max_num_words pp →
  packets_filled max_num_words (add_word max_num_words pp w).
Proof.
  intros (full & lst & -> & Hfull & Hlst). unfold add_word.
  rewrite last_snoc. simpl default. case_bool_decide as Hlen.
  - exists (full ++ [lst]), [w]. split; [|split].
    + by rewrite (append_to_last_snoc (full ++ [lst]) [] w).
    + apply Forall_app. split; [done|]. by apply Forall_singleton.
    + simpl. lia.
  - exists full, (lst ++ [w]). split; [|split].
    + apply append_to_last_snoc.
    + done.
    + rewrite length_app. simpl. lia.
Qed.

Lemma add_word_one_long max_num_words pp w :
  one_long_packet max_num_words pp →
  one_long_packet max_num_words (add_word max_num_words pp w).
Proof.
  intros (pkt & -> & Hlen). unfold add_word. simpl last. simpl default.
  rewrite bool_decide_eq_false_2 by lia.
  exists (pkt ++ [w]). split; [done|]. rewrite length_app. simpl. lia.
Qed.

(** X15.  When [max_num_words = maxlen * (noc_width // 16)] leaves room for
    the words that open the first packet, [_packetize] returns at least one
    packet, fills every packet but the last with exactly [max_num_words]
    words and puts between one and [max_num_words] words into the last. *)
Theorem packetize_fills_packets noc_width payload width maxlen :
  first_packet_words width ≤ maxlen * (noc_width / 16) →
  packets_filled (maxlen * (noc_width / 16))
    (_packetize noc_width payload width maxlen).
Proof.
  intros Hroom. apply packetize_invariant.
  - intros pp w. apply add_word_filled.
  - intros n. unfold first_packet_words in Hroom.
    destruct (bool_decide (width = 8) || bool_decide (width = 16)).
    + exists [], [n]. split; [done|]. split; [constructor|]. simpl. lia.
    + exists [], [n; 0]. split; [done|]. split; [constructor|]. simpl. lia.
Qed.

Lemma packetize_fills_packets_witness :
  packets_filled (2 * (32 / 16)) (_packetize 32 [1; 2; 3] 32 2).
Proof. apply packetize_fills_packets. by vm_compute. Defined.

(** X16.  When [max_num_words] is smaller than the number of words that
    open the first packet, [_packetize] never starts a second packet: it
    returns one packet, which is longer than [max_num_words]. *)
Theorem packetize_ignores_small_limit noc_width payload width maxlen :
  maxlen * (noc_width / 16) < first_packet_words width →
  one_long_packet (maxlen * (noc_width / 16))
    (_packetize noc_width payload width maxlen).
Proof.
  intros Hsmall. apply packetize_invariant.
  - intros pp w. apply add_word_one_long.
  - intros n. unfold first_packet_words in Hsmall.
    destruct (bool_decide (width = 8) || bool_decide (width = 16)).
    + exists [n]. split; [done|]. simpl. lia.
    + exists [n; 0]. split; [done|]. simpl. lia.
Qed.

Lemma packetize_ignores_small_limit_witness :
  one_long_packet (0 * (32 / 16)) (_packetize 32 [1; 2; 3] 16 0).
Proof. apply packetize_ignores_small_limit. by vm_compute. Defined.

(** ** noc_gateway.py: clients that are registered and not bound *)

Lemma deliver_unbound type ep pkt_class src payload_lst binds1 cl binds2 :
  deliver type ep pkt_class src payload_lst (binds1 ++ (cl, None) :: binds2)
  = deliver type ep pkt_class src payload_lst binds1.
Proof.
  induction binds1 as [|[cl1 [b|]] binds1 IH]; [done| |done].
  simpl. by rewrite IH.
Qed.

Lemma deliver_registered type ep pkt_class src payload_lst binds d :
  d ∈ deliver type ep pkt_class src payload_lst binds →
  ∃ b, (d_client d, Some b) ∈ binds.
Proof.
  induction binds as [|[cl [b|]] binds IH]; simpl.
  - by intros ?%elem_of_nil.
  - destruct (client_selected b type ep pkt_class src).
    + destruct (_unpack_payload payload_lst type (b_width b)) as [u|];
        [|by intros ?%elem_of_nil].
      intros [->|Hd]%elem_of_cons.
      * exists b. by left.
      * destruct (IH Hd) as [b' Hb']. exists b'. by right.
    + intros Hd. destruct (IH Hd) as [b' Hb']. exists b'. by right.
  - by intros ?%elem_of_nil.
Qed.

Lemma pkt_source_set_cl_binds binds gw payload :
  pkt_source (gw_set_cl_binds binds gw) payload = pkt_source gw payload.
Proof. reflexivity. Qed.

(** The calls of [receive] depend on [cl_binds] through [deliver] only:
    for every packet they are none, whatever is bound, or those of one call
    of [deliver]. *)
Lemma deliveries_cases gw payload :
  (∃ r, (r = None ∨ r = Some [])
        ∧ ∀ binds, deliveries (gw_set_cl_binds binds gw) payload = r)
  ∨ ∃ type ep pkt_class src,
      ∀ binds, deliveries (gw_set_cl_binds binds gw) payload
               = Some (deliver type ep pkt_class src (drop 1 payload) binds).
Proof.
  unfold deliveries, receive_event.
  destruct (bool_decide (length payload < 3)%nat) eqn:E1.
  { left. exists (Some []). split; [by right|]. intros binds. done. }
  destruct (bool_decide ((Z.of_nat (length payload) - 1) mod 2 ≠ 0)) eqn:E2.
  { left. exists (Some []). split; [by right|]. intros binds. done. }
  cbv zeta.
  destruct (bool_decide (pkt_type payload = BE)) eqn:E3.
  - destruct (pkt_source gw payload) as [src ep| |] eqn:E4.
    + destruct (bool_decide (pkt_class payload = CTRL_MSG)) eqn:E5.
      * left. exists (Some []). split; [by right|]. intros binds.
        rewrite pkt_source_set_cl_binds, E4.
        cbn [gw_set_cl_binds gw_remote_enabled].
        by destruct (_ ← py_get (gw_remote_enabled gw) ep; _).
      * right. exists BE, ep, (pkt_class payload), src. intros binds.
        by rewrite pkt_source_set_cl_binds, E4.
    + left. exists (Some []). split; [by right|]. intros binds.
      by rewrite pkt_source_set_cl_binds, E4.
    + left. exists None. split; [by left|]. intros binds.
      by rewrite pkt_source_set_cl_binds, E4.
  - right. by exists TDM, (pkt_ep payload), 0, 0.
Qed.

Lemma gw_set_cl_binds_same gw : gw_set_cl_binds (gw_cl_binds gw) gw = gw.
Proof. by destruct gw. Qed.

(** X17.  A client that is registered and not bound ends the delivery of
    every packet: [receive_event] makes the calls of [receive] it would make
    if that client and all clients registered after it were not there, so
    none of them is served, whatever they have bound. *)
Theorem unbound_client_stops_delivery (gw : NoCGateway) (payload : list Z)
    (binds1 binds2 : list (Z * option bind)) (cl : Z) :
  gw_cl_binds gw = binds1 ++ (cl, None) :: binds2 →
  deliveries gw payload = deliveries (gw_set_cl_binds binds1 gw) payload
  ∧ ∀ ds d, deliveries gw payload = Some ds → d ∈ ds →
      ∃ b, (d_client d, Some b) ∈ binds1.
Proof.
  intros Hbinds. rewrite <- (gw_set_cl_binds_same gw), Hbinds.
  assert (Hsame : ∀ binds binds',
    gw_set_cl_binds binds (gw_set_cl_binds binds' gw) = gw_set_cl_binds binds gw)
    by done.
  rewrite Hsame.
  destruct (deliveries_cases gw payload)
    as [(r & Hr & Hall)|(type & ep & pkt_class & src & Hall)].
  - rewrite !Hall. split; [done|]. intros ds d Hds Hd.
    destruct Hr as [->| ->]; [done|]. injection Hds as <-.
    by apply elem_of_nil in Hd.
  - rewrite !Hall, deliver_unbound. split; [done|]. intros ds d [= <-] Hd.
    by eapply deliver_registered.
Qed.

Lemma unbound_client_stops_delivery_witness :
  deliveries (gw_set_cl_binds [(0, None); (1, Some (mkBind 16 None))]
                two_client_gateway) [0x8001; 7; 9]
  = deliveries (gw_set_cl_binds [] two_client_gateway) [0x8001; 7; 9].
Proof.
  exact (proj1 (unbound_client_stops_delivery
                  (gw_set_cl_binds [(0, None); (1, Some (mkBind 16 None))]
                     two_client_gateway)
                  [0x8001; 7; 9] [] [(1, Some (mkBind 16 None))] 0 eq_refl)).
Defined.

